(** * Structure inference over positioned text spans

    A shallow embedding of [round1a/heading_detector.py] and
    [round1a/title_extractor.py] (with the constants of [round1a/config.py]),
    of the cleaner of [round1a/json_generator.py], of two helpers of
    [round1a/utils.py], of the block merge of [round1a/ocr_handler.py] and of
    the character grouping of [round1a/pdf_processor.py], followed by the
    properties of the outline and of the title that the specification
    states and by further properties of the code.

    Modelling conventions.
    - A Python [str] is a list of characters, [str := list ascii]; the 256
      values of [ascii] stand for the code points 0..255, and every character
      class below ([str.isspace], [\d], [\w], [str.isupper], ...) is the one
      CPython uses on those code points.
    - Font sizes and page coordinates are Python numbers ([int] or [float]);
      a finite [float] is a rational number, and they are values of [Q]
      (the inputs of the program are the rationals that are doubles).
      Comparisons, [max] and sort keys are exact on them.  Where the title
      heuristics and the font grouping of [utils.py] compute with them
      (differences, sums, products with 0.1, 0.2 and 0.3, quotients), the
      results are rounded as IEEE 754 doubles round, overflow included; see
      [PyFloat].  The thresholds of the heading detector (subtractions of
      1, 2 and 4, compared in order only), the integer pixel coordinates of
      the OCR path and its size estimate (compared with 8 only) are
      computed in [Q].
    - [len], the heading score and the configuration values are integers [Z].
    - A text block is a dictionary that always carries the keys [text],
      [font], [size], [flags] and [bbox] (both producers in
      [pdf_processor.py] and [ocr_handler.py] build it so); it is a record
      here, so the defaults of [block.get(key, default)] never apply.
    - [list.sort] and [sorted] are stable; a stable sort is determined by its
      key order, and is written as a stable insertion sort. *)

From Stdlib Require Import Ascii String.
From Stdlib Require Import ZArith QArith Qabs List Bool Lia Lqa.
From Stdlib Require Import Sorting.Sorted Sorting.Permutation.
Import ListNotations.

Local Open Scope Z_scope.

(** ** Python strings *)

Module PyStr.

Definition str := list ascii.

Definition lit (s : string) : str := list_ascii_of_string s.

Definition code (c : ascii) : N := N_of_ascii c.

Definition in_range (lo hi : N) (c : ascii) : bool :=
  ((lo <=? code c) && (code c <=? hi))%N.

(** [str.isspace] on one character; also [\s] of [re] and the separator set
    of [str.split()] and [str.strip()]. *)
Definition isspace (c : ascii) : bool :=
  in_range 9 13 c || in_range 28 32 c || in_range 133 133 c
  || in_range 160 160 c.

(** [\d] of [re] on a [str] pattern. *)
Definition isdecimal (c : ascii) : bool := in_range 48 57 c.

(** [[A-Z]] and [[a-z]] of [re]. *)
Definition is_AZ (c : ascii) : bool := in_range 65 90 c.
Definition is_az (c : ascii) : bool := in_range 97 122 c.

(** [\w] of [re] on a [str] pattern. *)
Definition isword (c : ascii) : bool :=
  in_range 48 57 c || in_range 65 90 c || in_range 95 95 c
  || in_range 97 122 c || in_range 170 170 c || in_range 178 179 c
  || in_range 181 181 c || in_range 185 186 c || in_range 188 190 c
  || in_range 192 214 c || in_range 216 246 c || in_range 248 255 c.

(** Uppercase and lowercase characters in the sense of [str.isupper] and
    [str.islower]. *)
Definition ch_isupper (c : ascii) : bool :=
  in_range 65 90 c || in_range 192 214 c || in_range 216 222 c.

Definition ch_islower (c : ascii) : bool :=
  in_range 97 122 c || in_range 170 170 c || in_range 181 181 c
  || in_range 186 186 c || in_range 223 246 c || in_range 248 255 c.

(** [str.lower] on one character: the uppercase letters move up by 32. *)
Definition ch_lower (c : ascii) : ascii :=
  if ch_isupper c then ascii_of_N (code c + 32) else c.

Definition lower (s : str) : str := map ch_lower s.

Fixpoint str_eqb (a b : str) : bool :=
  match a, b with
  | [], [] => true
  | x :: a', y :: b' => Ascii.eqb x y && str_eqb a' b'
  | _, _ => false
  end.

Definition len (s : str) : Z := Z.of_nat (length s).

(** [s.startswith(p)] and [s.endswith(p)]. *)
Fixpoint startswith (s p : str) : bool :=
  match p with
  | [] => true
  | c :: p' =>
      match s with
      | [] => false
      | d :: s' => Ascii.eqb d c && startswith s' p'
      end
  end.

Definition endswith (s p : str) : bool := startswith (rev s) (rev p).

(** [p in s] for strings. *)
Fixpoint contains (s p : str) : bool :=
  startswith s p
  || match s with
     | [] => false
     | _ :: s' => contains s' p
     end.

(** [s.lstrip()], [s.rstrip()] and [s.strip()]. *)
Fixpoint lstrip (s : str) : str :=
  match s with
  | [] => []
  | c :: s' => if isspace c then lstrip s' else s
  end.

Definition rstrip (s : str) : str := rev (lstrip (rev s)).

Definition strip (s : str) : str := rstrip (lstrip s).

(** [s.split()]: the maximal runs of non-whitespace characters. *)
Fixpoint split (s : str) : list str :=
  match s with
  | [] => []
  | c :: s' =>
      if isspace c then split s'
      else
        match s' with
        | [] => [[c]]
        | d :: _ =>
            if isspace d then [c] :: split s'
            else
              match split s' with
              | w :: ws => (c :: w) :: ws
              | [] => [[c]]
              end
        end
  end.

(** [' '.join(ws)]. *)
Fixpoint join_sp (ws : list str) : str :=
  match ws with
  | [] => []
  | [w] => w
  | w :: ws' => w ++ " "%char :: join_sp ws'
  end.

(** [s[:n]] for an integer [n]; a negative [n] counts from the end. *)
Definition slice_to (n : Z) (s : str) : str :=
  if 0 <=? n then firstn (Z.to_nat n) s
  else firstn (Z.to_nat (len s + n)) s.

(** [s[n:]] for a natural [n]. *)
Definition slice_from (n : nat) (s : str) : str := skipn n s.

(** [str.isupper]: no lowercase character and at least one uppercase one. *)
Definition isupper (s : str) : bool :=
  forallb (fun c => negb (ch_islower c)) s && existsb ch_isupper s.

(** [str.istitle]: uppercase characters only after uncased ones, lowercase
    characters only after cased ones, and at least one cased character. *)
Fixpoint istitle_from (previous_is_cased cased : bool) (s : str) : bool :=
  match s with
  | [] => cased
  | c :: s' =>
      if ch_isupper c then
        if previous_is_cased then false else istitle_from true true s'
      else if ch_islower c then
        if previous_is_cased then istitle_from true true s' else false
      else istitle_from false cased s'
  end.

Definition istitle (s : str) : bool := istitle_from false false s.

End PyStr.

Import PyStr.

(** ** Regular expressions of the [re] module

    Only the outcome of a match is used by the program ("did it match"), so
    a pattern is interpreted by its language: [re.match(p, s)] succeeds when
    some prefix of [s] is in the language of [p]. *)

Module Re.

Inductive re : Type :=
| Empty : re
| Eps : re
| Cls : (ascii -> bool) -> re
| Seq : re -> re -> re
| Alt : re -> re -> re
| Star : re -> re.

Definition Chr (c : ascii) : re := Cls (Ascii.eqb c).
(** A literal character under [re.IGNORECASE]. *)
Definition ChrI (c : ascii) : re :=
  Cls (fun x => Ascii.eqb (ch_lower x) (ch_lower c)).
Definition Plus (r : re) : re := Seq r (Star r).
Definition Opt (r : re) : re := Alt r Eps.

Fixpoint Lit (s : str) : re :=
  match s with
  | [] => Eps
  | c :: s' => Seq (Chr c) (Lit s')
  end.

Fixpoint LitI (s : str) : re :=
  match s with
  | [] => Eps
  | c :: s' => Seq (ChrI c) (LitI s')
  end.

Fixpoint nullable (r : re) : bool :=
  match r with
  | Empty => false
  | Eps => true
  | Cls _ => false
  | Seq a b => nullable a && nullable b
  | Alt a b => nullable a || nullable b
  | Star _ => true
  end.

Definition seq (a b : re) : re :=
  match a, b with
  | Empty, _ => Empty
  | _, Empty => Empty
  | Eps, _ => b
  | _, _ => Seq a b
  end.

Definition alt (a b : re) : re :=
  match a, b with
  | Empty, _ => b
  | _, Empty => a
  | _, _ => Alt a b
  end.

Fixpoint deriv (c : ascii) (r : re) : re :=
  match r with
  | Empty => Empty
  | Eps => Empty
  | Cls p => if p c then Eps else Empty
  | Seq a b =>
      alt (seq (deriv c a) b) (if nullable a then deriv c b else Empty)
  | Alt a b => alt (deriv c a) (deriv c b)
  | Star a => seq (deriv c a) (Star a)
  end.

(** [re.match(r, s) is not None], for a pattern without a final [$]. *)
Fixpoint matches (r : re) (s : str) : bool :=
  nullable r
  || match s with
     | [] => false
     | c :: s' => matches (deriv c r) s'
     end.

Fixpoint fullmatch (r : re) (s : str) : bool :=
  match s with
  | [] => nullable r
  | c :: s' => fullmatch (deriv c r) s'
  end.

(** [re.match(r + '$', s) is not None]: [$] matches at the end of the string
    and just before a newline that ends the string. *)
Definition matches_to_end (r : re) (s : str) : bool :=
  fullmatch (Seq r (Opt (Chr "010"%char))) s.

(** [re.search(r, s) is not None], for an unanchored pattern. *)
Fixpoint search (r : re) (s : str) : bool :=
  matches r s
  || match s with
     | [] => false
     | _ :: s' => search r s'
     end.

(** The strings a pattern denotes; the matcher is checked against it in
    [fullmatch_lang] and [matches_lang]. *)
Inductive lang : re -> str -> Prop :=
| lang_eps : lang Eps []
| lang_cls (p : ascii -> bool) (c : ascii) : p c = true -> lang (Cls p) [c]
| lang_seq (a b : re) (s1 s2 : str) :
    lang a s1 -> lang b s2 -> lang (Seq a b) (s1 ++ s2)
| lang_alt_l (a b : re) (s : str) : lang a s -> lang (Alt a b) s
| lang_alt_r (a b : re) (s : str) : lang b s -> lang (Alt a b) s
| lang_star_nil (a : re) : lang (Star a) []
| lang_star_app (a : re) (s1 s2 : str) :
    lang a s1 -> lang (Star a) s2 -> lang (Star a) (s1 ++ s2).

Definition Digit : re := Cls isdecimal.
Definition Space : re := Cls isspace.
Definition Word : re := Cls isword.
Definition Dot : re := Chr "."%char.

End Re.

(** ** Numbers and sorting *)

Definition Qleb (a b : Q) : bool := Qle_bool a b.
Definition Qltb (a b : Q) : bool := negb (Qle_bool b a).
Definition Qeqb (a b : Q) : bool := Qeq_bool a b.

(** [max(a, b)] of Python: [b] only when it is strictly greater. *)
Definition py_max2 (a b : Q) : Q := if Qltb a b then b else a.

Section Sorting.
Context {A : Type}.
Variable leb : A -> A -> bool.

Fixpoint insert_sorted (x : A) (l : list A) : list A :=
  match l with
  | [] => [x]
  | y :: l' => if leb x y then x :: l else y :: insert_sorted x l'
  end.

(** [sorted(l, key=...)] and [l.sort(key=...)], where [leb a b] is
    [key(a) <= key(b)]: elements with equal keys keep their order. *)
Definition py_sorted (l : list A) : list A := fold_right insert_sorted [] l.
End Sorting.

(** [set(l)] for numbers, listed by first occurrence; the program only ever
    sorts the result. *)
Fixpoint py_set (l : list Q) : list Q :=
  match l with
  | [] => []
  | x :: l' => x :: filter (fun y => negb (Qeqb x y)) (py_set l')
  end.

(** ** Floating-point numbers

    A Python [float] is an IEEE 754 double.  A finite double is a rational
    number; the result of an operation is the exact result rounded to the
    nearest double, ties going to the even one, and a result too large for a
    double is an infinity. *)

Module PyFloat.

Inductive float : Type :=
| Fin (q : Q)
| PInf
| NInf
| NaN.

(** [floor (log2 (n / d))] for positive [n] and [d]. *)
Definition ilog2 (n d : Z) : Z :=
  let e := Z.log2 n - Z.log2 d in
  if 0 <=? e
  then (if n <? d * 2 ^ e then e - 1 else e)
  else (if n * 2 ^ (- e) <? d then e - 1 else e).

(** The integer nearest to [num / den], ties to the even one. *)
Definition nearest_even (num den : Z) : Z :=
  let (m, r) := Z.div_eucl num den in
  if 2 * r <? den then m
  else if den <? 2 * r then m + 1
  else if Z.even m then m else m + 1.

(** [m * 2 ^ x] as a rational. *)
Definition scaled (m x : Z) : Q :=
  if 0 <=? x then inject_Z (m * 2 ^ x)
  else Qred (Qmake m (Z.to_pos (2 ^ (- x)))).

(** The double nearest to the positive rational [n / d]: a significand of 53
    bits, or fewer below [2 ^ -1022], where the spacing stays [2 ^ -1074];
    from [2 ^ 1024] on the result is infinite. *)
Definition round_pos (n d : Z) : float :=
  let x := Z.max (ilog2 n d - 52) (-1074) in
  let m :=
    if 0 <=? x then nearest_even n (d * 2 ^ x)
    else nearest_even (n * 2 ^ (- x)) d in
  if (971 <? x) || ((x =? 971) && (2 ^ 53 <=? m)) then PInf
  else Fin (scaled m x).

Definition opp (x : float) : float :=
  match x with
  | Fin a => Fin (- a)
  | PInf => NInf
  | NInf => PInf
  | NaN => NaN
  end.

Definition round (q : Q) : float :=
  match Qnum q with
  | Z0 => Fin 0
  | Zpos _ => round_pos (Qnum q) (Zpos (Qden q))
  | Zneg _ => opp (round_pos (- Qnum q) (Zpos (Qden q)))
  end.

(** A decimal literal of the program text, such as [0.1]. *)
Definition literal (q : Q) : float := round q.

Definition add (x y : float) : float :=
  match x, y with
  | Fin a, Fin b => round (a + b)
  | NaN, _ | _, NaN => NaN
  | PInf, NInf | NInf, PInf => NaN
  | PInf, _ | _, PInf => PInf
  | NInf, _ | _, NInf => NInf
  end.

Definition sub (x y : float) : float := add x (opp y).

Definition is_zero (x : float) : bool :=
  match x with
  | Fin a => Qeq_bool a 0
  | _ => false
  end.

Definition is_negative (x : float) : bool :=
  match x with
  | Fin a => negb (Qle_bool 0 a)
  | NInf => true
  | _ => false
  end.

Definition mul (x y : float) : float :=
  match x, y with
  | Fin a, Fin b => round (a * b)
  | NaN, _ | _, NaN => NaN
  | _, _ =>
      if is_zero x || is_zero y then NaN
      else if xorb (is_negative x) (is_negative y) then NInf else PInf
  end.

(** [x / n] for a positive integer [n]; every division of the functions
    below is by the constant 2 or by the length of a non-empty list. *)
Definition div_int (x : float) (n : positive) : float :=
  match x with
  | Fin a => round (a / inject_Z (Zpos n))
  | _ => x
  end.

Definition abs (x : float) : float :=
  match x with
  | Fin a => Fin (Qabs a)
  | PInf | NInf => PInf
  | NaN => NaN
  end.

(** [x < y] and [x <= y]: false when an operand is not a number. *)
Definition ltb (x y : float) : bool :=
  match x, y with
  | Fin a, Fin b => negb (Qle_bool b a)
  | NaN, _ | _, NaN => false
  | NInf, NInf => false
  | NInf, _ => true
  | Fin _, PInf => true
  | _, _ => false
  end.

Definition leb (x y : float) : bool :=
  match x, y with
  | Fin a, Fin b => Qle_bool a b
  | NaN, _ | _, NaN => false
  | NInf, _ => true
  | _, PInf => true
  | _, _ => false
  end.

(** [sum(l)] of a list of floats: the additions are done from left to
    right, each rounded, as CPython does up to version 3.11 (later versions
    also carry a correction term for the rounding errors). *)
Definition sum (l : list Q) : float :=
  fold_left (fun total x => add total (Fin x)) l (Fin 0).

End PyFloat.

(** ** config.py *)

Record Config : Type := {
  MAX_TITLE_LENGTH : Z;
  MIN_HEADING_SCORE : Z;
  MAX_HEADING_LENGTH : Z
}.

(** The values when no environment variable overrides them. *)
Definition default_config : Config :=
  {| MAX_TITLE_LENGTH := 200; MIN_HEADING_SCORE := 2;
     MAX_HEADING_LENGTH := 200 |}.

(** ** The span model *)

Record BBox : Type := { left : Q; top : Q; right : Q; bottom : Q }.

Record Block : Type := {
  b_text : str;
  b_font : str;
  b_size : Q;
  b_flags : Z;
  b_bbox : BBox
}.

Record Page : Type := {
  page_number : Z;
  text_blocks : list Block
}.

(** ** heading_detector.py *)

Inductive Pattern : Type :=
| numbered | sub_numbered | sub_sub_numbered
| lettered | lower_lettered
| all_caps | title_case
| roman | section_marker.

Definition Pattern_eqb (a b : Pattern) : bool :=
  match a, b with
  | numbered, numbered | sub_numbered, sub_numbered
  | sub_sub_numbered, sub_sub_numbered | lettered, lettered
  | lower_lettered, lower_lettered | all_caps, all_caps
  | title_case, title_case | roman, roman
  | section_marker, section_marker => true
  | _, _ => false
  end.

(** [p in patterns]. *)
Definition pattern_in (p : Pattern) (patterns : list Pattern) : bool :=
  existsb (Pattern_eqb p) patterns.

Inductive Level : Type := H1 | H2 | H3.

(** The [features] dictionary of a candidate.  [f_text] is its ['text'] key:
    [_determine_heading_level] reads [features.get('text', '')], and a
    dictionary without that key is [f_text := None]. *)
Record Features : Type := {
  font_size : Q;
  is_bold : bool;
  is_italic : bool;
  left_margin : Q;
  top_position : Q;
  position : Q;
  patterns : list Pattern;
  f_text : option str
}.

(** [features.get('text', '')]. *)
Definition features_get_text (features : Features) : str :=
  match f_text features with
  | Some t => t
  | None => []
  end.

Record Candidate : Type := {
  c_text : str;
  c_page : Z;
  c_score : Z;
  c_features : Features
}.

Record Heading : Type := {
  h_level : Level;
  h_text : str;
  h_page : Z;
  h_position : Q
}.

Module Patterns.
Import Re.

(** [^\d+\.?\s+] *)
Definition re_numbered : re :=
  Seq (Plus Digit) (Seq (Opt Dot) (Plus Space)).
(** [^\d+\.\d+\.?\s+] *)
Definition re_sub_numbered : re :=
  Seq (Plus Digit) (Seq Dot (Seq (Plus Digit) (Seq (Opt Dot) (Plus Space)))).
(** [^\d+\.\d+\.\d+\.?\s+] *)
Definition re_sub_sub_numbered : re :=
  Seq (Plus Digit) (Seq Dot (Seq (Plus Digit) (Seq Dot
    (Seq (Plus Digit) (Seq (Opt Dot) (Plus Space)))))).
(** [^[A-Z]\.?\s+] *)
Definition re_lettered : re :=
  Seq (Cls is_AZ) (Seq (Opt Dot) (Plus Space)).
(** [^[a-z][\)\.]?\s+] *)
Definition re_lower_lettered : re :=
  Seq (Cls is_az)
    (Seq (Opt (Cls (fun c => Ascii.eqb c ")"%char || Ascii.eqb c "."%char)))
       (Plus Space)).
(** [^[IVX]+\.?\s+] *)
Definition re_roman : re :=
  Seq (Plus (Cls (fun c => Ascii.eqb c "I"%char || Ascii.eqb c "V"%char
                           || Ascii.eqb c "X"%char)))
    (Seq (Opt Dot) (Plus Space)).
(** [^(Chapter|Section|Part|Appendix)\s+] with [re.IGNORECASE] *)
Definition re_section_marker : re :=
  Seq (Alt (LitI (lit "Chapter")) (Alt (LitI (lit "Section"))
         (Alt (LitI (lit "Part")) (LitI (lit "Appendix")))))
    (Plus Space).
End Patterns.

(** [patterns.append(p)] when [test] holds. *)
Definition append_if (test : bool) (p : Pattern) (patterns : list Pattern)
  : list Pattern :=
  if test then patterns ++ [p] else patterns.

Definition _check_text_patterns (text : str) : list Pattern :=
  let patterns := [] in
  let patterns :=
    append_if (Re.matches Patterns.re_numbered text) numbered patterns in
  let patterns :=
    append_if (Re.matches Patterns.re_sub_numbered text) sub_numbered patterns in
  let patterns :=
    append_if (Re.matches Patterns.re_sub_sub_numbered text) sub_sub_numbered
      patterns in
  let patterns :=
    append_if (Re.matches Patterns.re_lettered text) lettered patterns in
  let patterns :=
    append_if (Re.matches Patterns.re_lower_lettered text) lower_lettered
      patterns in
  let patterns :=
    append_if (isupper text && (Z.of_nat (length (split text)) <=? 8))
      all_caps patterns in
  let patterns := append_if (istitle text) title_case patterns in
  let patterns :=
    append_if (Re.matches Patterns.re_roman text) roman patterns in
  let patterns :=
    append_if (Re.matches Patterns.re_section_marker text) section_marker
      patterns in
  patterns.

(** The body of the loop of [_find_heading_candidates] for one block:
    [None] where the loop moves on without appending a candidate. *)
Definition heading_candidate (cfg : Config) (page_number : Z) (block : Block)
  : option Candidate :=
  let text := strip (b_text block) in
  if (len text =? 0) || (len text <? 2) then None
  else if MAX_HEADING_LENGTH cfg <? len text then None
  else
    let score := 0 in
    let font_size := b_size block in
    let flags := b_flags block in
    let is_bold := negb (Z.land flags 16 =? 0) in
    let is_italic := negb (Z.land flags 2 =? 0) in
    let bbox := b_bbox block in
    let patterns_matched := _check_text_patterns text in
    let features :=
      {| font_size := font_size; is_bold := is_bold; is_italic := is_italic;
         left_margin := left bbox; top_position := top bbox;
         position := top bbox; patterns := patterns_matched;
         f_text := None |} in
    let score := if is_bold then score + 2 else score in
    let score := if Qltb (12 # 1) font_size then score + 1 else score in
    let score :=
      match patterns_matched with
      | [] => score
      | _ :: _ => score + Z.of_nat (length patterns_matched)
      end in
    let score := if Qltb (left bbox) (100 # 1) then score + 1 else score in
    let score :=
      if (5 <=? len text) && (len text <=? 80) then score + 1 else score in
    if MIN_HEADING_SCORE cfg <=? score then
      Some {| c_text := text; c_page := page_number; c_score := score;
              c_features := features |}
    else None.

Definition _find_heading_candidates (cfg : Config) (page : Page)
  : list Candidate :=
  flat_map
    (fun block =>
       match heading_candidate cfg (page_number page) block with
       | Some candidate => [candidate]
       | None => []
       end)
    (text_blocks page).

(** The three thresholds of the dictionary [_analyze_font_sizes] returns; its
    other keys ([all_sizes], [unique_sizes], [max_size], [min_size],
    [median_size]) are never read. *)
Record FontAnalysis : Type := {
  h1_threshold : Q;
  h2_threshold : Q;
  h3_threshold : Q
}.

(** The positive font sizes of the candidates. *)
Definition candidate_font_sizes (candidates : list Candidate) : list Q :=
  filter (fun size => Qltb 0 size)
    (map (fun c => font_size (c_features c)) candidates).

(** [sorted(list(set(font_sizes)), reverse=True)]. *)
Definition unique_sizes_of (font_sizes : list Q) : list Q :=
  py_sorted (fun a b => Qleb b a) (py_set font_sizes).

Definition _analyze_font_sizes (candidates : list Candidate) : FontAnalysis :=
  let font_sizes := candidate_font_sizes candidates in
  match font_sizes with
  | [] =>
      {| h1_threshold := 16 # 1; h2_threshold := 14 # 1;
         h3_threshold := 12 # 1 |}
  | _ :: _ =>
      let unique_sizes := unique_sizes_of font_sizes in
      match unique_sizes with
      | u0 :: u1 :: u2 :: _ =>
          {| h1_threshold := u0; h2_threshold := u1; h3_threshold := u2 |}
      | [u0; u1] =>
          {| h1_threshold := u0; h2_threshold := u1;
             h3_threshold := u1 - (1 # 1) |}
      | _ =>
          let base_size :=
            match unique_sizes with
            | u0 :: _ => u0
            | [] => 12 # 1
            end in
          {| h1_threshold := base_size;
             h2_threshold := py_max2 (base_size - (2 # 1)) (10 # 1);
             h3_threshold := py_max2 (base_size - (4 # 1)) (8 # 1) |}
      end
  end.

Definition _determine_heading_level (font_size : Q) (patterns : list Pattern)
    (features : Features) (h1_thresh h2_thresh h3_thresh : Q)
  : option Level :=
  if pattern_in numbered patterns
     && Re.matches Patterns.re_numbered (features_get_text features)
  then Some H1
  else if pattern_in sub_numbered patterns then Some H2
  else if pattern_in sub_sub_numbered patterns then Some H3
  else if pattern_in section_marker patterns then Some H1
  else
    let base :=
      if Qleb h1_thresh font_size then Some H1
      else if Qleb h2_thresh font_size then Some H2
      else if Qleb h3_thresh font_size then Some H3
      else None in
    match base with
    | None => None
    | Some base_level =>
        let adjusted :=
          if is_bold features then Some base_level
          else
            match base_level with
            | H1 => Some H2
            | H2 => Some H3
            | H3 => None
            end in
        match adjusted with
        | None => None
        | Some base_level =>
            if pattern_in all_caps patterns
               && (len (features_get_text features) <? 50)
            then
              match base_level with
              | H3 => Some H2
              | _ => Some base_level
              end
            else Some base_level
        end
    end.

Definition _classify_headings (candidates : list Candidate)
    (font_analysis : FontAnalysis) : list Heading :=
  let h1_threshold := h1_threshold font_analysis in
  let h2_threshold := h2_threshold font_analysis in
  let h3_threshold := h3_threshold font_analysis in
  flat_map
    (fun candidate =>
       let features := c_features candidate in
       match
         _determine_heading_level (font_size features) (patterns features)
           features h1_threshold h2_threshold h3_threshold
       with
       | Some level =>
           [{| h_level := level; h_text := c_text candidate;
               h_page := c_page candidate;
               h_position := position features |}]
       | None => []
       end)
    candidates.

(** The sort key [(x['page'], x.get('position', 0))], compared as tuples. *)
Definition heading_key_leb (a b : Heading) : bool :=
  if h_page a =? h_page b then Qleb (h_position a) (h_position b)
  else h_page a <? h_page b.

Definition detect_headings (cfg : Config) (pages : list Page) : list Heading :=
  let all_candidates := flat_map (_find_heading_candidates cfg) pages in
  match all_candidates with
  | [] => []
  | _ :: _ =>
      let font_analysis := _analyze_font_sizes all_candidates in
      let classified_headings := _classify_headings all_candidates font_analysis in
      py_sorted heading_key_leb classified_headings
  end.

(** ** title_extractor.py *)

Definition untitled : str := lit "Untitled Document".

(** [max(l)] for a non-empty list [x :: l]: the first maximal element. *)
Definition py_max_list (x : Q) (l : list Q) : Q :=
  fold_left (fun m y => if Qltb m y then y else m) l x.

(** The key order of [blocks.sort(key=lambda x: x['bbox'][1])]. *)
Definition top_leb (a b : Block) : bool :=
  Qleb (top (b_bbox a)) (top (b_bbox b)).

(** The text of the first block after the sort by top coordinate; [None] for
    an empty list. *)
Definition topmost_text (blocks : list Block) : option str :=
  match py_sorted top_leb blocks with
  | block :: _ => Some (b_text block)
  | [] => None
  end.

(** [abs(block.get('size', 0) - max_font_size) < 0.1]. *)
Definition near_size (max_font_size : Q) (block : Block) : bool :=
  PyFloat.ltb
    (PyFloat.abs
       (PyFloat.sub (PyFloat.Fin (b_size block)) (PyFloat.Fin max_font_size)))
    (PyFloat.literal (1 # 10)).

Definition _find_by_font_size (text_blocks : list Block) : option str :=
  match text_blocks with
  | [] => None
  | _ :: _ =>
      let font_sizes :=
        map b_size (filter (fun block => Qltb 0 (b_size block)) text_blocks) in
      match font_sizes with
      | [] => None
      | size0 :: sizes =>
          let max_font_size := py_max_list size0 sizes in
          let largest_blocks := filter (near_size max_font_size) text_blocks in
          topmost_text largest_blocks
      end
  end.

(** The two tests of the loop of [_find_by_position] on one block. *)
Definition centred_high (page_width : Q) (block : Block) : bool :=
  let bbox := b_bbox block in
  let text_width :=
    PyFloat.sub (PyFloat.Fin (right bbox)) (PyFloat.Fin (left bbox)) in
  let center_x :=
    PyFloat.add (PyFloat.Fin (left bbox)) (PyFloat.div_int text_width 2) in
  let page_center := PyFloat.div_int (PyFloat.Fin page_width) 2 in
  let center_tolerance :=
    PyFloat.mul (PyFloat.Fin page_width) (PyFloat.literal (2 # 10)) in
  PyFloat.ltb (PyFloat.abs (PyFloat.sub center_x page_center)) center_tolerance
  && PyFloat.ltb (PyFloat.Fin (top bbox))
       (PyFloat.mul (PyFloat.Fin page_width) (PyFloat.literal (3 # 10))).

Definition _find_by_position (text_blocks : list Block) : option str :=
  match text_blocks with
  | [] => None
  | block0 :: blocks =>
      let page_width :=
        py_max_list (right (b_bbox block0))
          (map (fun block => right (b_bbox block)) blocks) in
      let centered_blocks := filter (centred_high page_width) text_blocks in
      topmost_text centered_blocks
  end.

(** [any(indicator in font_name for indicator in
    ['bold', 'black', 'heavy', 'semibold'])]. *)
Definition font_bold (font : str) : bool :=
  let font_name := lower font in
  existsb (contains font_name)
    [lit "bold"; lit "black"; lit "heavy"; lit "semibold"].

Definition _find_by_style (text_blocks : list Block) : option str :=
  let bold_blocks :=
    filter
      (fun block =>
         let is_bold := negb (Z.land (b_flags block) 16 =? 0) in
         (is_bold || font_bold (b_font block))
         && Qltb (top (b_bbox block)) (200 # 1))
      text_blocks in
  topmost_text bold_blocks.

(** [sum(font_sizes) / len(font_sizes)] for the non-empty list of the sizes
    of all blocks. *)
Definition avg_font_size (text_blocks : list Block) : PyFloat.float :=
  let font_sizes := map b_size text_blocks in
  PyFloat.div_int (PyFloat.sum font_sizes) (Pos.of_nat (length font_sizes)).

(** [bbox[1] < 100 and font_size >= avg_font_size]. *)
Definition top_and_large (avg : PyFloat.float) (block : Block) : bool :=
  Qltb (top (b_bbox block)) (100 # 1)
  && PyFloat.leb avg (PyFloat.Fin (b_size block)).

Definition _find_by_top_position (text_blocks : list Block) : option str :=
  match text_blocks with
  | [] => None
  | _ :: _ =>
      let top_blocks :=
        filter (top_and_large (avg_font_size text_blocks)) text_blocks in
      topmost_text top_blocks
  end.

Module TitlePatterns.
Import Re.

(** [^[A-Z][a-z\s]+$] *)
Definition re_capitalised : re :=
  Seq (Cls is_AZ) (Plus (Cls (fun c => is_az c || isspace c))).
(** [^[A-Z\s]+$] *)
Definition re_caps : re := Plus (Cls (fun c => is_AZ c || isspace c)).
(** [^\w+(\s+\w+)*$] *)
Definition re_words : re :=
  Seq (Plus Word) (Star (Seq (Plus Space) (Plus Word))).
(** [^\d+$] *)
Definition re_digits : re := Plus Digit.
(** [^page\s+\d+] *)
Definition re_page : re := Seq (Lit (lit "page")) (Seq (Plus Space) (Plus Digit)).
(** [^chapter\s+\d+] *)
Definition re_chapter : re :=
  Seq (Lit (lit "chapter")) (Seq (Plus Space) (Plus Digit)).
(** [^www\.] *)
Definition re_www : re := Seq (Lit (lit "www")) Dot.
(** [@] *)
Definition re_at : re := Chr "@"%char.
End TitlePatterns.

Definition _looks_like_title (text : str) : bool :=
  let text := strip text in
  if Re.matches_to_end TitlePatterns.re_capitalised text
     || Re.matches_to_end TitlePatterns.re_caps text
     || Re.matches_to_end TitlePatterns.re_words text
  then true
  else if Re.matches_to_end TitlePatterns.re_digits (lower text)
          || Re.matches TitlePatterns.re_page (lower text)
          || Re.matches TitlePatterns.re_chapter (lower text)
          || Re.matches TitlePatterns.re_www (lower text)
          || Re.search TitlePatterns.re_at (lower text)
  then false
  else true.

(** The dictionary [scores]: its items in insertion order, which is the order
    [for text in scores] and [scores.items()] follow. *)
Definition Scores := list (str * Z).

(** [text in scores]. *)
Definition scores_mem (text : str) (scores : Scores) : bool :=
  existsb (fun kv => str_eqb (fst kv) text) scores.

(** [scores[text] = 0] for a key not yet present. *)
Definition scores_init (text : str) (scores : Scores) : Scores :=
  scores ++ [(text, 0)].

(** [scores[text] += delta]. *)
Definition scores_add (text : str) (delta : Z) (scores : Scores) : Scores :=
  map (fun kv => if str_eqb (fst kv) text then (fst kv, snd kv + delta) else kv)
    scores.

(** One round of [for strategy, text in candidates]. *)
Definition score_strategy (scores : Scores) (candidate : string * str)
  : Scores :=
  let (strategy, text) := candidate in
  let scores :=
    if scores_mem text scores then scores else scores_init text scores in
  if String.eqb strategy "font_size" then scores_add text 3 scores
  else if String.eqb strategy "position" then scores_add text 2 scores
  else if String.eqb strategy "style" then scores_add text 2 scores
  else if String.eqb strategy "top" then scores_add text 1 scores
  else scores.

(** One round of [for text in scores]; the keys are distinct, so the round
    for [text] changes the value of its own item only. *)
Definition score_characteristics (kv : str * Z) : str * Z :=
  let (text, score) := kv in
  let text_length := len (strip text) in
  let score :=
    if (5 <=? text_length) && (text_length <=? 100) then score + 1
    else if 200 <? text_length then score - 2
    else score in
  let score := if _looks_like_title text then score + 2 else score in
  (text, score).

(** [max(items, key=lambda x: x[1])] for the non-empty [item0 :: items]: the
    first item of maximal value. *)
Definition py_max_item (item0 : str * Z) (items : Scores) : str * Z :=
  fold_left (fun best kv => if snd best <? snd kv then kv else best)
    items item0.

Definition _select_best_candidate (candidates : list (string * str))
    (text_blocks : list Block) : option str :=
  match candidates with
  | [] => None
  | _ :: _ =>
      let scores := fold_left score_strategy candidates [] in
      let scores := map score_characteristics scores in
      match scores with
      | item0 :: items => Some (fst (py_max_item item0 items))
      | [] => None
      end
  end.

(** One round of [for prefix in prefixes_to_remove]. *)
Definition remove_prefix (title prefix : str) : str :=
  if startswith (lower title) prefix
  then strip (slice_from (length prefix) title)
  else title.

Definition prefixes_to_remove : list str :=
  [lit "title:"; lit "subject:"; lit "document:"].

Definition ellipsis : str := lit "...".

Definition _clean_title (cfg : Config) (title : str) : str :=
  match title with
  | [] => untitled
  | _ :: _ =>
      let title := join_sp (split title) in
      let title := fold_left remove_prefix prefixes_to_remove title in
      let title :=
        if MAX_TITLE_LENGTH cfg <? len title then
          let title := strip (slice_to (MAX_TITLE_LENGTH cfg) title) in
          if endswith title ellipsis then title else title ++ ellipsis
        else title in
      match title with
      | [] => untitled
      | _ :: _ => title
      end
  end.

(** [candidates.append((name, candidate))] when the heuristic returned a
    non-empty string. *)
Definition append_candidate (name : string) (candidate : option str)
    (candidates : list (string * str)) : list (string * str) :=
  match candidate with
  | Some (c :: text) => candidates ++ [(name, c :: text)]
  | _ => candidates
  end.

(** The candidates of the four strategies, in the order they are tried. *)
Definition title_candidates (text_blocks : list Block)
  : list (string * str) :=
  let candidates := [] in
  let candidates :=
    append_candidate "font_size" (_find_by_font_size text_blocks) candidates in
  let candidates :=
    append_candidate "position" (_find_by_position text_blocks) candidates in
  let candidates :=
    append_candidate "style" (_find_by_style text_blocks) candidates in
  let candidates :=
    append_candidate "top" (_find_by_top_position text_blocks) candidates in
  candidates.

Definition extract_title (cfg : Config) (first_page : Page) : str :=
  let text_blocks := text_blocks first_page in
  match text_blocks with
  | [] => untitled
  | _ :: _ =>
      let candidates := title_candidates text_blocks in
      match _select_best_candidate candidates text_blocks with
      | Some (c :: best_title) => _clean_title cfg (c :: best_title)
      | _ => untitled
      end
  end.

(** ** json_generator.py

    The data handed to [save_outline] is the dictionary built by
    [PDFProcessor.extract_outline] or the error dictionary of [main.py].  A
    key is an [option]: [None] stands for a missing key or for a value that
    is not of the expected type ([isinstance] fails, [entry.get] gives
    [None]); where present, [level], [text], [title] and [error] are [str]
    and [page] is an [int], as both producers make them. *)

Module JSONGenerator.

Record RawEntry : Type := {
  r_level : option str;
  r_text : option str;
  r_page : option Z
}.

Record CleanEntry : Type := {
  ce_level : str;
  ce_text : str;
  ce_page : Z
}.

Record RawData : Type := {
  d_title : option str;
  d_outline : option (list RawEntry);
  d_error : option str
}.

Record CleanData : Type := {
  out_title : str;
  out_outline : list CleanEntry;
  out_error : option str
}.

Definition _clean_title (title : option str) : str :=
  match title with
  | None => untitled
  | Some title =>
      let title := join_sp (split title) in
      let title :=
        if 200 <? len title then slice_to 197 title ++ ellipsis else title in
      match title with
      | [] => untitled
      | _ :: _ => title
      end
  end.

(** The truth value of [entry.get(key)] for a string and for an integer. *)
Definition truthy_str (v : option str) : bool :=
  match v with
  | Some (_ :: _) => true
  | _ => false
  end.

Definition truthy_int (v : option Z) : bool :=
  match v with
  | Some n => negb (n =? 0)
  | None => false
  end.

(** The body of the loop of [_clean_outline] for one entry: [None] where the
    loop moves on without appending. *)
Definition clean_entry (entry : RawEntry) : option CleanEntry :=
  if negb (truthy_str (r_level entry) && truthy_str (r_text entry)
           && truthy_int (r_page entry))
  then None
  else
    match r_level entry, r_text entry, r_page entry with
    | Some level, Some text, Some page =>
        if negb (existsb (str_eqb level) [lit "H1"; lit "H2"; lit "H3"])
        then None
        else
          let page_num := page in
          if page_num <? 1 then None
          else
            let clean_text := join_sp (split text) in
            match clean_text with
            | [] => None
            | _ :: _ =>
                let clean_text :=
                  if 500 <? len clean_text
                  then slice_to 497 clean_text ++ ellipsis
                  else clean_text in
                Some {| ce_level := level; ce_text := clean_text;
                        ce_page := page_num |}
            end
    | _, _, _ => None
    end.

Definition _clean_outline (outline : option (list RawEntry))
  : list CleanEntry :=
  match outline with
  | None => []
  | Some outline =>
      flat_map
        (fun entry =>
           match clean_entry entry with
           | Some cleaned_entry => [cleaned_entry]
           | None => []
           end)
        outline
  end.

Definition _validate_and_clean (data : RawData) : CleanData :=
  {| out_title := _clean_title (d_title data);
     out_outline := _clean_outline (d_outline data);
     out_error := d_error data |}.

End JSONGenerator.

(** ** utils.py *)

Module TextProcessor.

Definition normalize_whitespace (text : str) : str := join_sp (split text).

End TextProcessor.

Module FontAnalyzer.

(** The dictionary [groups]: its items in insertion order, which is the order
    of [for group_key in groups]. *)
Definition Groups := list (Q * list Q).

(** The inner loop: [size] is appended to the first group whose key is within
    [tolerance]; [None] when the loop ends with [grouped] still false. *)
(** [abs(size - group_key) <= tolerance]. *)
Definition within (tolerance size group_key : Q) : bool :=
  PyFloat.leb
    (PyFloat.abs (PyFloat.sub (PyFloat.Fin size) (PyFloat.Fin group_key)))
    (PyFloat.Fin tolerance).

Fixpoint add_to_group (tolerance size : Q) (groups : Groups)
  : option Groups :=
  match groups with
  | [] => None
  | (group_key, members) :: rest =>
      if within tolerance size group_key
      then Some ((group_key, members ++ [size]) :: rest)
      else
        match add_to_group tolerance size rest with
        | Some rest' => Some ((group_key, members) :: rest')
        | None => None
        end
  end.

(** One round of [for size in sorted_sizes]. *)
Definition group_size (tolerance : Q) (groups : Groups) (size : Q) : Groups :=
  match add_to_group tolerance size groups with
  | Some groups' => groups'
  | None => groups ++ [(size, [size])]
  end.

Definition group_similar_fonts (font_sizes : list Q) (tolerance : Q)
  : Groups :=
  match font_sizes with
  | [] => []
  | _ :: _ =>
      let sorted_sizes := py_sorted Qleb (py_set font_sizes) in
      fold_left (group_size tolerance) sorted_sizes []
  end.

End FontAnalyzer.

(** ** ocr_handler.py

    The table of [pytesseract.image_to_data] is a list of rows; the two
    loops of the merge are folds over the sorted blocks, with the local
    variables of the loop as state. *)

Module OCRHandler.

Record OcrRow : Type := {
  o_text : str;
  o_conf : Z;
  o_left : Q;
  o_top : Q;
  o_width : Q;
  o_height : Q
}.

(** The block built for one row: [estimated_font_size] is
    [max(height * 0.7, 8)]. *)
Definition ocr_block (row : OcrRow) : Block :=
  let estimated_font_size := py_max2 (o_height row * (7 # 10)) 8 in
  {| b_text := strip (o_text row);
     b_font := lit "ocr-detected";
     b_size := estimated_font_size;
     b_flags := 0;
     b_bbox := {| left := o_left row; top := o_top row;
                  right := o_left row + o_width row;
                  bottom := o_top row + o_height row |} |}.

(** The loop over the rows of [_ocr_image]: rows of low confidence or with
    an empty text are skipped. *)
Definition ocr_text_blocks (OCR_CONFIDENCE_THRESHOLD : Z)
    (ocr_data : list OcrRow) : list Block :=
  flat_map
    (fun row =>
       let text := strip (o_text row) in
       if (o_conf row <? OCR_CONFIDENCE_THRESHOLD)
          || match text with [] => true | _ :: _ => false end
       then []
       else [ocr_block row])
    ocr_data.

(** The key order of [line_blocks.sort(key=lambda x: x['bbox'][0])]. *)
Definition left_leb (a b : Block) : bool :=
  Qleb (left (b_bbox a)) (left (b_bbox b)).

Definition avg_char_width (current_block : Block) : Q :=
  ((right (b_bbox current_block) - left (b_bbox current_block))
   / inject_Z (Z.max (len (b_text current_block)) 1))%Q.

(** [next_left - current_right < avg_char_width * 2]. *)
Definition gap_is_small (current_block next_block : Block) : bool :=
  Qltb (left (b_bbox next_block) - right (b_bbox current_block))
       (avg_char_width current_block * 2).

(** The three assignments that merge [next_block] into [current_block]. *)
Definition merge_blocks (current_block next_block : Block) : Block :=
  {| b_text := b_text current_block ++ " "%char :: b_text next_block;
     b_font := b_font current_block;
     b_size := py_max2 (b_size current_block) (b_size next_block);
     b_flags := b_flags current_block;
     b_bbox := {| left := left (b_bbox current_block);
                  top := top (b_bbox current_block);
                  right := right (b_bbox next_block);
                  bottom := bottom (b_bbox current_block) |} |}.

(** One round of the loop of [_merge_line_blocks], on the state
    [(merged, current_block)]. *)
Definition line_step (state : list Block * Block) (next_block : Block)
  : list Block * Block :=
  let (merged, current_block) := state in
  if gap_is_small current_block next_block
  then (merged, merge_blocks current_block next_block)
  else (merged ++ [current_block], next_block).

Definition _merge_line_blocks (line_blocks : list Block) : list Block :=
  if (length line_blocks <=? 1)%nat then line_blocks
  else
    match py_sorted left_leb line_blocks with
    | [] => []
    | first :: rest =>
        let (merged, current_block) := fold_left line_step rest ([], first) in
        merged ++ [current_block]
    end.

(** The key order of [sorted(text_blocks, key=lambda x: (x['bbox'][1],
    x['bbox'][0]))]: tuples compare lexicographically. *)
Definition line_leb (a b : Block) : bool :=
  Qltb (top (b_bbox a)) (top (b_bbox b))
  || (Qeqb (top (b_bbox a)) (top (b_bbox b))
      && Qleb (left (b_bbox a)) (left (b_bbox b))).

(** [current_y is None or abs(block_y - current_y) < 10]. *)
Definition on_current_line (current_y : option Q) (block_y : Q) : bool :=
  match current_y with
  | None => true
  | Some y => Qltb (Qabs (block_y - y)) 10
  end.

(** [if current_line: merged.extend(self._merge_line_blocks(current_line))]. *)
Definition flush_line (merged current_line : list Block) : list Block :=
  match current_line with
  | [] => merged
  | _ :: _ => merged ++ _merge_line_blocks current_line
  end.

(** One round of the loop of [_merge_nearby_blocks], on the state
    [(merged, current_line, current_y)]. *)
Definition nearby_step (state : list Block * list Block * option Q)
    (block : Block) : list Block * list Block * option Q :=
  let '(merged, current_line, current_y) := state in
  let block_y := top (b_bbox block) in
  if on_current_line current_y block_y
  then (merged, current_line ++ [block],
        Some match current_y with None => block_y | Some y => y end)
  else (flush_line merged current_line, [block], Some block_y).

Definition _merge_nearby_blocks (text_blocks : list Block) : list Block :=
  match text_blocks with
  | [] => text_blocks
  | _ :: _ =>
      let sorted_blocks := py_sorted line_leb text_blocks in
      let '(merged, current_line, _) :=
        fold_left nearby_step sorted_blocks ([], [], None) in
      flush_line merged current_line
  end.

(** The text blocks of the page that [_ocr_image] returns. *)
Definition _ocr_image (OCR_CONFIDENCE_THRESHOLD : Z) (page_number : Z)
    (ocr_data : list OcrRow) : Page :=
  {| page_number := page_number;
     text_blocks :=
       _merge_nearby_blocks (ocr_text_blocks OCR_CONFIDENCE_THRESHOLD ocr_data) |}.

End OCRHandler.

(** ** pdf_processor.py *)

(** The string that stands for a level in the outline. *)
Definition level_name (level : Level) : str :=
  match level with
  | H1 => lit "H1"
  | H2 => lit "H2"
  | H3 => lit "H3"
  end.

(** A heading of [detect_headings] as [_clean_outline] reads it: the same
    dictionary, with its [level], [text] and [page] keys. *)
Definition entry_of_heading (h : Heading) : JSONGenerator.RawEntry :=
  {| JSONGenerator.r_level := Some (level_name (h_level h));
     JSONGenerator.r_text := Some (h_text h);
     JSONGenerator.r_page := Some (h_page h) |}.

(** The end of [PDFProcessor.extract_outline], from the pages that the
    extraction produced: the title of the first page and the headings of all
    pages.  [None] stands for the [IndexError] of [doc_info['pages'][0]] on
    a document without pages. *)
Definition extract_outline_of_pages (cfg : Config) (pages : list Page)
  : option JSONGenerator.RawData :=
  match pages with
  | [] => None
  | first_page :: _ =>
      let title := extract_title cfg first_page in
      let headings := detect_headings cfg pages in
      Some {| JSONGenerator.d_title := Some title;
              JSONGenerator.d_outline := Some (map entry_of_heading headings);
              JSONGenerator.d_error := None |}
  end.

(** The fallback of [_extract_native_pdf]: the characters that pdfplumber
    reports for a page are grouped into blocks.  The loop is a fold on the
    state [(text_blocks, current_block)]. *)
Module Fallback.

Record Char : Type := {
  ch_text : str;
  ch_fontname : option str;
  ch_size : Q;
  ch_x0 : Q;
  ch_top : Q;
  ch_x1 : Q;
  ch_bottom : Q
}.

Definition new_block (char : Char) : Block :=
  {| b_text := ch_text char;
     b_font := match ch_fontname char with
               | Some fontname => fontname
               | None => lit "unknown"
               end;
     b_size := ch_size char;
     b_flags := 0;
     b_bbox := {| left := ch_x0 char; top := ch_top char;
                  right := ch_x1 char; bottom := ch_bottom char |} |}.

Definition extend_block (current_block : Block) (char : Char) : Block :=
  {| b_text := b_text current_block ++ ch_text char;
     b_font := b_font current_block;
     b_size := b_size current_block;
     b_flags := b_flags current_block;
     b_bbox := {| left := left (b_bbox current_block);
                  top := top (b_bbox current_block);
                  right := ch_x1 char;
                  bottom := bottom (b_bbox current_block) |} |}.

(** [abs(char['size'] - current_block['size']) > 0.1 or
     abs(char['top'] - current_block['bbox'][1]) > 2]. *)
Definition breaks_block (current_block : Block) (char : Char) : bool :=
  Qltb (1 # 10) (Qabs (ch_size char - b_size current_block))
  || Qltb 2 (Qabs (ch_top char - top (b_bbox current_block))).

(** [if char['text'].strip():]. *)
Definition is_visible (char : Char) : bool :=
  match strip (ch_text char) with
  | [] => false
  | _ :: _ => true
  end.

Definition char_step (state : list Block * option Block) (char : Char)
  : list Block * option Block :=
  let (text_blocks, current_block) := state in
  if is_visible char then
    match current_block with
    | None => (text_blocks, Some (new_block char))
    | Some block =>
        if breaks_block block char
        then (text_blocks ++ [block], Some (new_block char))
        else (text_blocks, Some (extend_block block char))
    end
  else state.

Definition page_text_blocks (chars : list Char) : list Block :=
  let (text_blocks, current_block) := fold_left char_step chars ([], None) in
  match current_block with
  | Some block => text_blocks ++ [block]
  | None => text_blocks
  end.

End Fallback.

(** ** Vocabulary of the properties *)

Definition b2z (b : bool) : Z := if b then 1 else 0.

(** The score of a span as the specification words it. *)
Definition spec_heading_score (block : Block) : Z :=
  let text := strip (b_text block) in
  2 * b2z (negb (Z.land (b_flags block) 16 =? 0))
  + b2z (Qltb (12 # 1) (b_size block))
  + Z.of_nat (length (_check_text_patterns text))
  + b2z (Qltb (left (b_bbox block)) (100 # 1))
  + b2z ((5 <=? len text) && (len text <=? 80)).

(** Reading order: pages do not decrease, and on one page the vertical
    position does not decrease. *)
Definition reading_order (a b : Heading) : Prop :=
  h_page a <= h_page b
  /\ (h_page a = h_page b -> (h_position a <= h_position b)%Q).

(** The weight of a strategy, as the specification lists them. *)
Definition strategy_weight (strategy : string) : Z :=
  if String.eqb strategy "font_size" then 3
  else if String.eqb strategy "position" then 2
  else if String.eqb strategy "style" then 2
  else if String.eqb strategy "top" then 1
  else 0.

(** "Looks like a title" as the specification words it: the text matches at
    least one of the three accepting patterns and none of the five rejecting
    ones (pure digits, "page N", "chapter N", URL prefix, contains "@").
    Each pattern is the regular expression that the code has for it. *)
Definition title_like (text : str) : bool :=
  let text := strip text in
  (Re.matches_to_end TitlePatterns.re_capitalised text
   || Re.matches_to_end TitlePatterns.re_caps text
   || Re.matches_to_end TitlePatterns.re_words text)
  && negb (Re.matches_to_end TitlePatterns.re_digits (lower text)
           || Re.matches TitlePatterns.re_page (lower text)
           || Re.matches TitlePatterns.re_chapter (lower text)
           || Re.matches TitlePatterns.re_www (lower text)
           || Re.search TitlePatterns.re_at (lower text)).

(** The adjustment for the length of a text: [+1] for a trimmed length of 5
    to 100, [-2] above 200. *)
Definition length_adjustment (text : str) : Z :=
  let text_length := len (strip text) in
  if (5 <=? text_length) && (text_length <=? 100) then 1
  else if 200 <? text_length then -2
  else 0.

(** The secondary adjustments of the specification. *)
Definition secondary_adjustment (text : str) : Z :=
  length_adjustment text + (if title_like text then 2 else 0).

(** The adjustments that the second loop of [_select_best_candidate] makes:
    the bonus goes to every text that [_looks_like_title] accepts. *)
Definition code_adjustment (text : str) : Z :=
  length_adjustment text + (if _looks_like_title text then 2 else 0).

(** The sum of the weights of the strategies that proposed [text]. *)
Fixpoint weight_sum (text : str) (candidates : list (string * str)) : Z :=
  match candidates with
  | [] => 0
  | (strategy, t) :: rest =>
      (if str_eqb t text then strategy_weight strategy else 0)
      + weight_sum text rest
  end.

(** The score of a text by the specification. *)
Definition total_score (candidates : list (string * str)) (text : str) : Z :=
  weight_sum text candidates + secondary_adjustment text.

(** The score of a text as the code computes it. *)
Definition code_total_score (candidates : list (string * str)) (text : str)
  : Z :=
  weight_sum text candidates + code_adjustment text.

(** [l1] can be obtained from [l2] by leaving elements out. *)
Fixpoint is_subsequence (l1 l2 : list string) : bool :=
  match l1, l2 with
  | [], _ => true
  | _ :: _, [] => false
  | x :: l1', y :: l2' =>
      if String.eqb x y then is_subsequence l1' l2' else is_subsequence l1 l2'
  end.

(** The keys of [scores] after one more text was met: a new text goes to the
    end, a known one changes nothing. *)
Definition add_key (keys : list str) (text : str) : list str :=
  if existsb (fun k => str_eqb k text) keys then keys else keys ++ [text].

(** [' '.join(title.split())]. *)
Definition normalise (t : str) : str := join_sp (split t).

Definition only_plain_spaces (t : str) : Prop :=
  Forall (fun c => isspace c = true -> c = " "%char) t.

Definition starts_clean (t : str) : Prop :=
  match t with
  | c :: _ => isspace c = false
  | [] => True
  end.

Definition ends_clean (t : str) : Prop := starts_clean (rev t).

Fixpoint no_double_space (t : str) : Prop :=
  match t with
  | c :: t' => (isspace c = true -> starts_clean t') /\ no_double_space t'
  | [] => True
  end.

(** A string is tidy when its only whitespace is single blanks between
    words. *)
Definition tidy (t : str) : Prop :=
  only_plain_spaces t /\ no_double_space t /\ starts_clean t /\ ends_clean t.

Definition word_ok (w : str) : Prop :=
  w <> [] /\ Forall (fun c => isspace c = false) w.

(** The title before the final test for emptiness. *)
Definition truncated (cfg : Config) (title : str) : str :=
  if MAX_TITLE_LENGTH cfg <? len title then
    let title := strip (slice_to (MAX_TITLE_LENGTH cfg) title) in
    if endswith title ellipsis then title else title ++ ellipsis
  else title.

(** The text that wins the merge on a first page. *)
Definition winning_candidate (first_page : Page) : option str :=
  _select_best_candidate (title_candidates (text_blocks first_page))
    (text_blocks first_page).

(** The first character of [s] exists and is in the class [p]. *)
Definition first_char_in (p : ascii -> bool) (s : str) : bool :=
  match s with
  | c :: _ => p c
  | [] => false
  end.

(** A cleaned dictionary read back as input of the cleaner. *)
Definition raw_of_clean_entry (e : JSONGenerator.CleanEntry)
  : JSONGenerator.RawEntry :=
  {| JSONGenerator.r_level := Some (JSONGenerator.ce_level e);
     JSONGenerator.r_text := Some (JSONGenerator.ce_text e);
     JSONGenerator.r_page := Some (JSONGenerator.ce_page e) |}.

Definition raw_of_clean (d : JSONGenerator.CleanData) : JSONGenerator.RawData :=
  {| JSONGenerator.d_title := Some (JSONGenerator.out_title d);
     JSONGenerator.d_outline :=
       Some (map raw_of_clean_entry (JSONGenerator.out_outline d));
     JSONGenerator.d_error := JSONGenerator.out_error d |}.

Definition is_dot (c : ascii) : bool := Ascii.eqb "."%char c.

Definition is_roman (c : ascii) : bool :=
  Ascii.eqb c "I"%char || Ascii.eqb c "V"%char || Ascii.eqb c "X"%char.

Definition is_marker_initial (c : ascii) : bool :=
  Ascii.eqb (ch_lower c) "c"%char || Ascii.eqb (ch_lower c) "s"%char
  || Ascii.eqb (ch_lower c) "p"%char || Ascii.eqb (ch_lower c) "a"%char.

(** A group of [group_similar_fonts]: the key is the first member and the
    smallest one, and every other member passes the test
    [abs(size - group_key) <= tolerance] against it. *)
Definition group_within (tolerance : Q) (g : Q * list Q) : Prop :=
  exists rest,
    snd g = fst g :: rest
    /\ Forall
         (fun m =>
            (fst g <= m)%Q /\ FontAnalyzer.within tolerance m (fst g) = true)
         rest.

(** A later key fails the test against an earlier one. *)
Definition keys_apart (tolerance : Q) (k1 k2 : Q) : Prop :=
  FontAnalyzer.within tolerance k2 k1 = false.

(** The block that merging a group of OCR blocks gives: the texts joined
    by blanks, the largest size, the box from the left edge of the first
    block to the right edge of the last one. *)
Definition block_of_group (g : Block * list Block) : Block :=
  let (first, others) := g in
  {| b_text := join_sp (map b_text (first :: others));
     b_font := b_font first;
     b_size := py_max_list (b_size first) (map b_size others);
     b_flags := b_flags first;
     b_bbox := {| left := left (b_bbox first);
                  top := top (b_bbox first);
                  right := right (b_bbox (last others first));
                  bottom := bottom (b_bbox first) |} |}.

Definition group_members (g : Block * list Block) : list Block :=
  fst g :: snd g.

(** Two neighbours on a line that stay apart: the gap between them is at
    least twice the average character width of the left one. *)
Definition wide_gap (current_block next_block : Block) : Prop :=
  (OCRHandler.avg_char_width current_block * 2
   <= left (b_bbox next_block) - right (b_bbox current_block))%Q.

(** ** Sample documents *)

(** A page with one bold heading set in 9 point type. *)
Definition small_print_page : Page :=
  {| page_number := 1;
     text_blocks :=
       [{| b_text := lit "Summary of results"; b_font := lit "Helvetica-Bold";
           b_size := 9 # 1; b_flags := 16;
           b_bbox := {| left := 72 # 1; top := 90 # 1;
                        right := 240 # 1; bottom := 101 # 1 |} |}] |}.

(** A page with headings in two sizes. *)
Definition two_size_page : Page :=
  {| page_number := 1;
     text_blocks :=
       [{| b_text := lit "Summary of results"; b_font := lit "Helvetica-Bold";
           b_size := 14 # 1; b_flags := 16;
           b_bbox := {| left := 72 # 1; top := 90 # 1;
                        right := 240 # 1; bottom := 106 # 1 |} |};
        {| b_text := lit "Method"; b_font := lit "Helvetica-Bold";
           b_size := 12 # 1; b_flags := 16;
           b_bbox := {| left := 72 # 1; top := 130 # 1;
                        right := 140 # 1; bottom := 144 # 1 |} |}] |}.

Definition bold_heading_block : Block :=
  {| b_text := lit "  Summary of results "; b_font := lit "Helvetica-Bold";
     b_size := 14 # 1; b_flags := 16;
     b_bbox := {| left := 72 # 1; top := 90 # 1;
                  right := 240 # 1; bottom := 106 # 1 |} |}.

(** A first page on which no span was found. *)
Definition empty_page : Page := {| page_number := 1; text_blocks := [] |}.

(** A page whose only span is the numbered heading "1. Introduction", set
    in 14 point type that is not bold. *)
Definition numbered_plain_page : Page :=
  {| page_number := 1;
     text_blocks :=
       [{| b_text := lit "1. Introduction"; b_font := lit "Helvetica";
           b_size := 14 # 1; b_flags := 0;
           b_bbox := {| left := 72 # 1; top := 100 # 1;
                        right := 200 # 1; bottom := 116 # 1 |} |}] |}.

(** A page with bold headings in three sizes; the smallest is an all-caps
    line of 58 characters. *)
Definition long_caps_page : Page :=
  {| page_number := 1;
     text_blocks :=
       [{| b_text := lit "Annual Report"; b_font := lit "Helvetica-Bold";
           b_size := 20 # 1; b_flags := 16;
           b_bbox := {| left := 72 # 1; top := 40 # 1;
                        right := 300 # 1; bottom := 62 # 1 |} |};
        {| b_text := lit "Overview"; b_font := lit "Helvetica-Bold";
           b_size := 16 # 1; b_flags := 16;
           b_bbox := {| left := 72 # 1; top := 100 # 1;
                        right := 180 # 1; bottom := 118 # 1 |} |};
        {| b_text :=
             lit "INTERNATIONAL TELECOMMUNICATIONS STANDARDIZATION COMMITTEE";
           b_font := lit "Helvetica-Bold";
           b_size := 12 # 1; b_flags := 16;
           b_bbox := {| left := 72 # 1; top := 200 # 1;
                        right := 520 # 1; bottom := 214 # 1 |} |}] |}.

(** Two strategies propose "Report" (weights 2 and 1) and one proposes
    "a@b" (weight 3): the totals are 5 and 3. *)
Definition sample_candidates : list (string * str) :=
  [("font_size"%string, lit "a@b"); ("position"%string, lit "Report");
   ("top"%string, lit "Report")].

(** A first page with a large title line above body text. *)
Definition title_page : Page :=
  {| page_number := 1;
     text_blocks :=
       [{| b_text := lit "Annual Report"; b_font := lit "Helvetica";
           b_size := 24 # 1; b_flags := 0;
           b_bbox := {| left := 200 # 1; top := 40 # 1;
                        right := 400 # 1; bottom := 66 # 1 |} |};
        {| b_text := lit "prepared for the board"; b_font := lit "Helvetica";
           b_size := 10 # 1; b_flags := 0;
           b_bbox := {| left := 72 # 1; top := 300 # 1;
                        right := 200 # 1; bottom := 312 # 1 |} |}] |}.

(** A first page with a large number low on the page and a centred line of
    body size near the top. *)
Definition digits_page : Page :=
  {| page_number := 1;
     text_blocks :=
       [{| b_text := lit "12345"; b_font := lit "Helvetica";
           b_size := 30 # 1; b_flags := 0;
           b_bbox := {| left := 400 # 1; top := 500 # 1;
                        right := 500 # 1; bottom := 530 # 1 |} |};
        {| b_text := lit "Hello World"; b_font := lit "Helvetica";
           b_size := 12 # 1; b_flags := 0;
           b_bbox := {| left := 200 # 1; top := 50 # 1;
                        right := 300 # 1; bottom := 62 # 1 |} |}] |}.

(** The configuration with [MAX_TITLE_LENGTH=10] in the environment. *)
Definition short_title_config : Config :=
  {| MAX_TITLE_LENGTH := 10; MIN_HEADING_SCORE := 2;
     MAX_HEADING_LENGTH := 200 |}.

(** Two OCR rows of one line, close enough to be merged. *)
Definition scanned_chapter_rows : list OCRHandler.OcrRow :=
  [ {| OCRHandler.o_text := lit "Chapter"; OCRHandler.o_conf := 90;
       OCRHandler.o_left := 72 # 1; OCRHandler.o_top := 100 # 1;
       OCRHandler.o_width := 70 # 1; OCRHandler.o_height := 20 # 1 |};
    {| OCRHandler.o_text := lit "One"; OCRHandler.o_conf := 90;
       OCRHandler.o_left := 150 # 1; OCRHandler.o_top := 101 # 1;
       OCRHandler.o_width := 30 # 1; OCRHandler.o_height := 20 # 1 |} ].


(** * Properties *)

(** ** Comparisons on rationals *)

Lemma Qleb_true (a b : Q) : Qleb a b = true <-> (a <= b)%Q.
Proof. unfold Qleb. apply Qle_bool_iff. Qed.

Lemma Qltb_true (a b : Q) : Qltb a b = true <-> (a < b)%Q.
Proof.
  unfold Qltb. rewrite negb_true_iff. split; intro H.
  - apply Qnot_le_lt. intro Hle. apply Qle_bool_iff in Hle. congruence.
  - destruct (Qle_bool b a) eqn:E; [|reflexivity].
    apply Qle_bool_iff in E. exfalso. exact (Qlt_not_le _ _ H E).
Qed.

Lemma Qltb_false (a b : Q) : Qltb a b = false <-> (b <= a)%Q.
Proof.
  unfold Qltb. rewrite negb_false_iff. apply Qle_bool_iff.
Qed.

Lemma Qleb_total (a b : Q) : Qleb a b = false -> Qleb b a = true.
Proof.
  intro H. apply Qleb_true. apply Qlt_le_weak. apply Qnot_le_lt.
  intro Hle. apply Qleb_true in Hle. congruence.
Qed.

Lemma py_max2_ge_l (a b : Q) : (a <= py_max2 a b)%Q.
Proof.
  unfold py_max2. destruct (Qltb a b) eqn:E.
  - apply Qltb_true in E. apply Qlt_le_weak. exact E.
  - apply Qle_refl.
Qed.

Lemma py_max2_cases (a b : Q) :
  ((a < b)%Q /\ py_max2 a b = b) \/ ((b <= a)%Q /\ py_max2 a b = a).
Proof.
  unfold py_max2. destruct (Qltb a b) eqn:E.
  - left. split; [apply Qltb_true; exact E | reflexivity].
  - right. split; [apply Qltb_false; exact E | reflexivity].
Qed.

(** ** The matcher and the language of a pattern *)

Lemma lang_seq_inv (a b : Re.re) (s : str) :
  Re.lang (Re.Seq a b) s ->
  exists s1 s2, s = s1 ++ s2 /\ Re.lang a s1 /\ Re.lang b s2.
Proof.
  intro H. inversion H; subst. eexists _, _.
  split; [reflexivity | split; eassumption].
Qed.

Lemma lang_alt_inv (a b : Re.re) (s : str) :
  Re.lang (Re.Alt a b) s <-> Re.lang a s \/ Re.lang b s.
Proof.
  split.
  - intro H. inversion H; subst; [left | right]; assumption.
  - intros [H|H]; [apply Re.lang_alt_l | apply Re.lang_alt_r]; exact H.
Qed.

Lemma lang_empty (s : str) : ~ Re.lang Re.Empty s.
Proof. intro H. inversion H. Qed.

Lemma nullable_lang (r : Re.re) : Re.nullable r = true <-> Re.lang r [].
Proof.
  induction r as [| |p|a IHa b IHb|a IHa b IHb|a IHa]; simpl.
  - split; [discriminate | intro H; inversion H].
  - split; [intros _; constructor | reflexivity].
  - split; [discriminate | intro H; inversion H].
  - rewrite andb_true_iff, IHa, IHb. split.
    + intros [Ha Hb]. exact (Re.lang_seq a b [] [] Ha Hb).
    + intro H. apply lang_seq_inv in H. destruct H as [s1 [s2 [Hs [Ha Hb]]]].
      symmetry in Hs. apply app_eq_nil in Hs. destruct Hs as [-> ->].
      split; assumption.
  - rewrite orb_true_iff, IHa, IHb. symmetry. apply lang_alt_inv.
  - split; [intros _; constructor | reflexivity].
Qed.

Lemma seq_lang (a b : Re.re) (s : str) :
  Re.lang (Re.seq a b) s <-> Re.lang (Re.Seq a b) s.
Proof.
  assert (Hl : forall t, ~ Re.lang (Re.Seq Re.Empty b) t).
  { intros t H. apply lang_seq_inv in H. destruct H as [s1 [s2 [_ [Ha _]]]].
    inversion Ha. }
  assert (Hr : forall t, ~ Re.lang (Re.Seq a Re.Empty) t).
  { intros t H. apply lang_seq_inv in H. destruct H as [s1 [s2 [_ [_ Hb]]]].
    inversion Hb. }
  assert (He : forall t, Re.lang b t <-> Re.lang (Re.Seq Re.Eps b) t).
  { intro t. split.
    - intro H. exact (Re.lang_seq Re.Eps b [] t Re.lang_eps H).
    - intro H. apply lang_seq_inv in H.
      destruct H as [s1 [s2 [-> [Ha Hb]]]]. inversion Ha; subst. exact Hb. }
  pose proof (lang_empty s) as Hempty.
  destruct a; simpl;
    try (split; intro H; [contradiction | exfalso; exact (Hl _ H)]);
    destruct b; simpl; try tauto; try apply He;
    split; intro H; try contradiction; exfalso; exact (Hr _ H).
Qed.

Lemma alt_lang (a b : Re.re) (s : str) :
  Re.lang (Re.alt a b) s <-> Re.lang a s \/ Re.lang b s.
Proof.
  pose proof (lang_alt_inv a b s) as Halt.
  pose proof (lang_empty s) as He.
  destruct a; destruct b; simpl; try exact Halt; tauto.
Qed.

Lemma lang_star_cons (a : Re.re) (c : ascii) (s : str) :
  Re.lang (Re.Star a) (c :: s) ->
  exists s1 s2,
    s = s1 ++ s2 /\ Re.lang a (c :: s1) /\ Re.lang (Re.Star a) s2.
Proof.
  intro H. remember (Re.Star a) as r eqn:Er. remember (c :: s) as t eqn:Et.
  induction H as [| | | | | |a' s1 s2 H1 _ H2 IH2]; try discriminate.
  injection Er as ->. destruct s1 as [|x s1].
  - apply IH2; [reflexivity | exact Et].
  - simpl in Et. injection Et as Hx Hs. subst x s. exists s1, s2.
    split; [reflexivity | split; assumption].
Qed.

Lemma deriv_lang (c : ascii) (r : Re.re) (s : str) :
  Re.lang (Re.deriv c r) s <-> Re.lang r (c :: s).
Proof.
  revert s. induction r as [| |p|a IHa b IHb|a IHa b IHb|a IHa]; intro s;
    simpl.
  - split; intro H; inversion H.
  - split; intro H; inversion H.
  - destruct (p c) eqn:E; split; intro H; inversion H; subst.
    + constructor. exact E.
    + constructor.
    + congruence.
  - rewrite alt_lang, seq_lang. split.
    + intros [H|H].
      * apply lang_seq_inv in H. destruct H as [s1 [s2 [-> [Ha Hb]]]].
        apply IHa in Ha. exact (Re.lang_seq a b (c :: s1) s2 Ha Hb).
      * destruct (Re.nullable a) eqn:En; [|inversion H].
        apply nullable_lang in En. apply IHb in H.
        exact (Re.lang_seq a b [] (c :: s) En H).
    + intro H. apply lang_seq_inv in H.
      destruct H as [s1 [s2 [Hs [Ha Hb]]]]. destruct s1 as [|x s1].
      * right. simpl in Hs. subst s2.
        apply nullable_lang in Ha. rewrite Ha. apply IHb. exact Hb.
      * left. simpl in Hs. injection Hs as -> ->.
        apply Re.lang_seq; [apply IHa; exact Ha | exact Hb].
  - rewrite alt_lang, IHa, IHb. symmetry. apply lang_alt_inv.
  - rewrite seq_lang. split.
    + intro H. apply lang_seq_inv in H. destruct H as [s1 [s2 [-> [Ha Hb]]]].
      apply IHa in Ha. exact (Re.lang_star_app a (c :: s1) s2 Ha Hb).
    + intro H. apply lang_star_cons in H.
      destruct H as [s1 [s2 [-> [Ha Hb]]]].
      apply Re.lang_seq; [apply IHa; exact Ha | exact Hb].
Qed.

(** [fullmatch] decides membership in the language of the pattern. *)
Lemma fullmatch_lang (r : Re.re) (s : str) :
  Re.fullmatch r s = true <-> Re.lang r s.
Proof.
  revert r. induction s as [|c s IH]; intro r; simpl.
  - apply nullable_lang.
  - rewrite IH. apply deriv_lang.
Qed.

(** [matches] succeeds exactly when a prefix of the string is in the
    language of the pattern, as [re.match] does. *)
Lemma matches_lang (r : Re.re) (s : str) :
  Re.matches r s = true <-> exists p q, s = p ++ q /\ Re.lang r p.
Proof.
  revert r. induction s as [|c s IH]; intro r; simpl.
  - rewrite orb_false_r, nullable_lang. split.
    + intro H. exists [], []. split; [reflexivity | exact H].
    + intros [p [q [Hs H]]]. symmetry in Hs. apply app_eq_nil in Hs.
      destruct Hs as [-> _]. exact H.
  - rewrite orb_true_iff, nullable_lang, IH. split.
    + intros [H|[p [q [-> H]]]].
      * exists [], (c :: s). split; [reflexivity | exact H].
      * exists (c :: p), q. split; [reflexivity | apply deriv_lang; exact H].
    + intros [p [q [Hs H]]]. destruct p as [|x p].
      * left. exact H.
      * right. simpl in Hs. injection Hs as -> ->. exists p, q.
        split; [reflexivity | apply deriv_lang; exact H].
Qed.

(** ** The stable sort *)

Section SortingFacts.
Context {A : Type}.
Variable leb : A -> A -> bool.
Hypothesis leb_total : forall a b, leb a b = false -> leb b a = true.

Let le (a b : A) : Prop := leb a b = true.

Lemma insert_sorted_perm (x : A) (l : list A) :
  Permutation (x :: l) (insert_sorted leb x l).
Proof.
  induction l as [|y l IH]; simpl.
  - apply Permutation_refl.
  - destruct (leb x y).
    + apply Permutation_refl.
    + eapply perm_trans; [apply perm_swap|].
      apply perm_skip. exact IH.
Qed.

Lemma py_sorted_perm (l : list A) : Permutation l (py_sorted leb l).
Proof.
  induction l as [|x l IH]; simpl.
  - apply perm_nil.
  - eapply perm_trans; [apply perm_skip; exact IH|].
    apply insert_sorted_perm.
Qed.

Lemma py_sorted_In (x : A) (l : list A) :
  In x (py_sorted leb l) <-> In x l.
Proof.
  split; intro H.
  - eapply Permutation_in; [apply Permutation_sym, py_sorted_perm|exact H].
  - eapply Permutation_in; [apply py_sorted_perm|exact H].
Qed.

Lemma insert_sorted_HdRel (a x : A) (l : list A) :
  le a x -> HdRel le a l -> HdRel le a (insert_sorted leb x l).
Proof.
  intros Hax Hal. destruct l as [|y l]; simpl.
  - constructor. exact Hax.
  - destruct (leb x y).
    + constructor. exact Hax.
    + constructor. inversion Hal; assumption.
Qed.

Lemma insert_sorted_Sorted (x : A) (l : list A) :
  Sorted le l -> Sorted le (insert_sorted leb x l).
Proof.
  induction 1 as [|y l Hs IH Hhd]; simpl.
  - constructor; constructor.
  - destruct (leb x y) eqn:E.
    + constructor; [constructor; assumption|].
      constructor. exact E.
    + constructor; [exact IH|].
      apply insert_sorted_HdRel; [|exact Hhd].
      apply leb_total. exact E.
Qed.

Lemma py_sorted_Sorted (l : list A) : Sorted le (py_sorted leb l).
Proof.
  induction l as [|x l IH]; simpl.
  - constructor.
  - apply insert_sorted_Sorted. exact IH.
Qed.
End SortingFacts.

(** ** Font tiers *)

Lemma unique_sizes_descending (font_sizes : list Q) :
  Sorted (fun a b => (b <= a)%Q) (unique_sizes_of font_sizes).
Proof.
  unfold unique_sizes_of.
  assert (H : Sorted (fun a b => Qleb b a = true)
                (py_sorted (fun a b => Qleb b a) (py_set font_sizes))).
  { apply py_sorted_Sorted. intros a b. apply Qleb_total. }
  induction H as [|x l Hs IH Hhd]; constructor.
  - exact IH.
  - destruct Hhd as [|y l Hxy]; constructor. apply Qleb_true. exact Hxy.
Qed.

Lemma Qminus_le_self (a b : Q) : (0 <= b)%Q -> (a - b <= a)%Q.
Proof.
  intro Hb. unfold Qminus.
  setoid_replace a with (a + 0)%Q at 2 by ring.
  apply Qplus_le_compat; [apply Qle_refl|].
  setoid_replace 0%Q with (- 0)%Q by ring.
  apply Qopp_le_compat. exact Hb.
Qed.

Lemma fallback_h3_le_h2 (base_size : Q) :
  (py_max2 (base_size - (4 # 1)) (8 # 1)
   <= py_max2 (base_size - (2 # 1)) (10 # 1))%Q.
Proof.
  destruct (py_max2_cases (base_size - (4 # 1)) (8 # 1)) as [[H1 E1]|[H1 E1]];
    destruct (py_max2_cases (base_size - (2 # 1)) (10 # 1)) as [[H2 E2]|[H2 E2]];
    rewrite E1, E2; clear E1 E2;
    unfold Qle, Qlt, Qminus, Qplus, Qopp in *; simpl in *; lia.
Qed.

Lemma fallback_h2_le_h1 (base_size : Q) :
  (10 <= base_size)%Q ->
  (py_max2 (base_size - (2 # 1)) (10 # 1) <= base_size)%Q.
Proof.
  intro H.
  destruct (py_max2_cases (base_size - (2 # 1)) (10 # 1)) as [[H2 E2]|[H2 E2]];
    rewrite E2; clear E2.
  - exact H.
  - apply Qminus_le_self. discriminate.
Qed.

(** C1, as stated, fails: when every candidate has the same font size and
    that size is below 10, [h2_threshold] is floored at 10 and exceeds
    [h1_threshold] (here 9, 10, 8). *)
Lemma tier_monotonicity_fails_below_10 :
  let analysis :=
    _analyze_font_sizes
      (flat_map (_find_heading_candidates default_config) [small_print_page]) in
  ~ (h2_threshold analysis <= h1_threshold analysis)%Q.
Proof.
  vm_compute. intro H. apply H. reflexivity.
Qed.

Lemma fallback_h1_lt_h2 (base_size : Q) :
  (base_size < 10)%Q ->
  (base_size < py_max2 (base_size - (2 # 1)) (10 # 1))%Q.
Proof.
  intro H.
  destruct (py_max2_cases (base_size - (2 # 1)) (10 # 1)) as [[H2 E2]|[H2 E2]];
    rewrite E2; clear E2.
  - exact H.
  - exfalso. unfold Qle, Qlt, Qminus, Qplus, Qopp in *; simpl in *; lia.
Qed.

(** C1 (amended).  The profile of [_analyze_font_sizes] always satisfies
    [h2_threshold >= h3_threshold], in all three derivation cases and in the
    16/14/12 fallback; it satisfies [h1_threshold >= h2_threshold] as well
    unless the candidates have exactly one distinct positive font size and
    that size is below 10, in which case [h1_threshold < h2_threshold]. *)
Theorem tier_monotonicity (candidates : list Candidate) :
  let analysis := _analyze_font_sizes candidates in
  (h3_threshold analysis <= h2_threshold analysis)%Q
  /\ ((forall size,
         unique_sizes_of (candidate_font_sizes candidates) = [size] ->
         (10 <= size)%Q) ->
      (h2_threshold analysis <= h1_threshold analysis)%Q)
  /\ (forall size,
         unique_sizes_of (candidate_font_sizes candidates) = [size] ->
         (size < 10)%Q ->
         (h1_threshold analysis < h2_threshold analysis)%Q).
Proof.
  unfold _analyze_font_sizes.
  destruct (candidate_font_sizes candidates) as [|s0 sizes] eqn:Hsizes.
  - simpl. split; [discriminate|]. split; [intros _; discriminate|].
    intros size H. discriminate H.
  - pose proof (unique_sizes_descending (s0 :: sizes)) as Hsorted.
    destruct (unique_sizes_of (s0 :: sizes)) as [|u0 [|u1 [|u2 rest]]].
    + simpl. split; [discriminate|]. split; [intros _; discriminate|].
      intros size H. discriminate H.
    + simpl. split; [apply fallback_h3_le_h2|]. split.
      * intro Hsize. apply fallback_h2_le_h1. apply Hsize. reflexivity.
      * intros size H Hlt. injection H as <-.
        apply fallback_h1_lt_h2. exact Hlt.
    + simpl. inversion Hsorted as [|? ? _ Hhd]; subst.
      inversion Hhd; subst. split; [apply Qminus_le_self; discriminate|].
      split; [intros _; assumption|].
      intros size H. discriminate H.
    + simpl. inversion Hsorted as [|? ? Htail Hhd]; subst.
      inversion Hhd; subst.
      inversion Htail as [|? ? _ Hhd']; subst. inversion Hhd'; subst.
      split; [assumption|]. split; [intros _; assumption|].
      intros size H. discriminate H.
Qed.

Lemma tier_monotonicity_witness :
  let analysis :=
    _analyze_font_sizes
      (flat_map (_find_heading_candidates default_config) [two_size_page]) in
  (h2_threshold analysis <= h1_threshold analysis)%Q.
Proof.
  apply (proj1 (proj2 (tier_monotonicity
                         (flat_map (_find_heading_candidates default_config)
                            [two_size_page])))).
  intros size H. vm_compute in H. discriminate H.
Defined.

(** ** Candidates and their scores *)

Lemma find_heading_candidates_In (cfg : Config) (page : Page) (c : Candidate) :
  In c (_find_heading_candidates cfg page) <->
  exists block,
    In block (text_blocks page)
    /\ heading_candidate cfg (page_number page) block = Some c.
Proof.
  unfold _find_heading_candidates. rewrite in_flat_map. split.
  - intros [block [Hin Hc]]. exists block. split; [exact Hin|].
    destruct (heading_candidate cfg (page_number page) block) as [c'|].
    + destruct Hc as [Hc|[]]. congruence.
    + destruct Hc.
  - intros [block [Hin Hc]]. exists block. split; [exact Hin|].
    rewrite Hc. left. reflexivity.
Qed.

Lemma heading_candidate_inv (cfg : Config) (pn : Z) (block : Block)
    (c : Candidate) :
  heading_candidate cfg pn block = Some c ->
  2 <= len (strip (b_text block)) <= MAX_HEADING_LENGTH cfg
  /\ c_text c = strip (b_text block)
  /\ c_page c = pn
  /\ position (c_features c) = top (b_bbox block)
  /\ font_size (c_features c) = b_size block
  /\ f_text (c_features c) = None.
Proof.
  unfold heading_candidate. intro H.
  destruct ((len (strip (b_text block)) =? 0)
            || (len (strip (b_text block)) <? 2)) eqn:Hshort;
    [discriminate|].
  destruct (MAX_HEADING_LENGTH cfg <? len (strip (b_text block))) eqn:Hlong;
    [discriminate|].
  apply orb_false_iff in Hshort. destruct Hshort as [_ Hshort].
  apply Z.ltb_ge in Hshort. apply Z.ltb_ge in Hlong.
  match type of H with
  | (if ?t then _ else _) = _ => destruct t; [|discriminate]
  end.
  injection H as <-. simpl. repeat split; assumption.
Qed.



(** ** The outline *)

Lemma heading_key_leb_total (a b : Heading) :
  heading_key_leb a b = false -> heading_key_leb b a = true.
Proof.
  unfold heading_key_leb. intro H.
  destruct (h_page a =? h_page b) eqn:E.
  - apply Z.eqb_eq in E. rewrite E, Z.eqb_refl.
    apply Qleb_total. exact H.
  - apply Z.eqb_neq in E. apply Z.ltb_ge in H.
    replace (h_page b =? h_page a) with false
      by (symmetry; apply Z.eqb_neq; lia).
    apply Z.ltb_lt. lia.
Qed.

Lemma heading_key_leb_reading_order (a b : Heading) :
  heading_key_leb a b = true -> reading_order a b.
Proof.
  unfold heading_key_leb, reading_order. intro H.
  destruct (h_page a =? h_page b) eqn:E.
  - apply Z.eqb_eq in E. split; [lia|]. intros _. apply Qleb_true. exact H.
  - apply Z.eqb_neq in E. apply Z.ltb_lt in H. split; [lia|].
    intro Heq. contradiction.
Qed.

Lemma Sorted_weaken {A : Type} (R R' : A -> A -> Prop) (l : list A) :
  (forall a b, R a b -> R' a b) -> Sorted R l -> Sorted R' l.
Proof.
  intros HR. induction 1 as [|x l Hs IH Hhd]; constructor.
  - exact IH.
  - destruct Hhd; constructor. apply HR. assumption.
Qed.

(** C5.  Any two consecutive entries of the outline are in reading order:
    the page numbers do not decrease, and at equal page numbers the position
    (the top coordinate of the span) does not decrease. *)
Theorem outline_sorted (cfg : Config) (pages : list Page) :
  Sorted reading_order (detect_headings cfg pages).
Proof.
  unfold detect_headings.
  destruct (flat_map (_find_heading_candidates cfg) pages) as [|c cs].
  - constructor.
  - apply Sorted_weaken with (R := fun a b => heading_key_leb a b = true).
    + exact heading_key_leb_reading_order.
    + apply py_sorted_Sorted. exact heading_key_leb_total.
Qed.

Lemma classify_headings_In (candidates : list Candidate)
    (font_analysis : FontAnalysis) (h : Heading) :
  In h (_classify_headings candidates font_analysis) ->
  exists c,
    In c candidates
    /\ h_text h = c_text c
    /\ h_page h = c_page c
    /\ h_position h = position (c_features c)
    /\ _determine_heading_level (font_size (c_features c))
         (patterns (c_features c)) (c_features c)
         (h1_threshold font_analysis) (h2_threshold font_analysis)
         (h3_threshold font_analysis) = Some (h_level h).
Proof.
  unfold _classify_headings. rewrite in_flat_map.
  intros [c [Hin Hh]]. exists c. split; [exact Hin|].
  destruct (_determine_heading_level _ _ _ _ _ _) as [level|].
  - destruct Hh as [Hh|[]]. subst h. simpl. repeat split; reflexivity.
  - destruct Hh.
Qed.

Lemma detect_headings_In (cfg : Config) (pages : list Page) (h : Heading) :
  In h (detect_headings cfg pages) ->
  In h (_classify_headings
          (flat_map (_find_heading_candidates cfg) pages)
          (_analyze_font_sizes
             (flat_map (_find_heading_candidates cfg) pages))).
Proof.
  unfold detect_headings.
  destruct (flat_map (_find_heading_candidates cfg) pages) as [|c cs] eqn:E.
  - intros [].
  - intro H. apply py_sorted_In in H. exact H.
Qed.

(** C9.  Every entry of the outline comes from a span of some page: its text
    is the whitespace-trimmed text of that span, unchanged, and its length
    lies between 2 and [MAX_HEADING_LENGTH]. *)
Theorem heading_text_bounds (cfg : Config) (pages : list Page) (h : Heading) :
  In h (detect_headings cfg pages) ->
  exists page block,
    In page pages /\ In block (text_blocks page)
    /\ h_text h = strip (b_text block)
    /\ h_page h = page_number page
    /\ 2 <= len (h_text h) <= MAX_HEADING_LENGTH cfg.
Proof.
  intro H. apply detect_headings_In in H.
  apply classify_headings_In in H.
  destruct H as [c [Hc [Htext [Hpage _]]]].
  apply in_flat_map in Hc. destruct Hc as [page [Hpg Hc]].
  apply find_heading_candidates_In in Hc. destruct Hc as [block [Hb Hc]].
  apply heading_candidate_inv in Hc.
  destruct Hc as [Hlen [Hct [Hcp _]]].
  exists page, block. rewrite Htext, Hpage, Hct, Hcp.
  repeat split; try assumption; apply Hlen.
Qed.

Lemma heading_text_bounds_witness :
  exists h,
    In h (detect_headings default_config [two_size_page])
    /\ 2 <= len (h_text h) <= MAX_HEADING_LENGTH default_config.
Proof.
  exists {| h_level := H1; h_text := lit "Summary of results"; h_page := 1;
            h_position := 90 # 1 |}.
  assert (Hin : In {| h_level := H1; h_text := lit "Summary of results";
                      h_page := 1; h_position := 90 # 1 |}
                  (detect_headings default_config [two_size_page])).
  { vm_compute. left. reflexivity. }
  split; [exact Hin|].
  destruct (heading_text_bounds default_config [two_size_page] _ Hin)
    as [page [block [_ [_ [_ [_ Hlen]]]]]].
  exact Hlen.
Defined.

(** C8.  On a first page without spans [extract_title] returns exactly
    "Untitled Document", and when the pages yield no heading candidate
    [detect_headings] returns the empty outline; both are ordinary results of
    total functions. *)
Theorem empty_input_fallbacks (cfg : Config) :
  (forall number,
      extract_title cfg {| page_number := number; text_blocks := [] |}
      = lit "Untitled Document")
  /\ (forall pages,
         flat_map (_find_heading_candidates cfg) pages = [] ->
         detect_headings cfg pages = []).
Proof.
  split.
  - intro number. reflexivity.
  - intros pages H. unfold detect_headings. rewrite H. reflexivity.
Qed.

Lemma empty_input_fallbacks_witness :
  extract_title default_config empty_page = lit "Untitled Document"
  /\ detect_headings default_config [empty_page] = [].
Proof.
  split.
  - apply (proj1 (empty_input_fallbacks default_config) 1).
  - apply (proj2 (empty_input_fallbacks default_config) [empty_page]).
    reflexivity.
Defined.

(** ** Level assignment on the candidates of the pipeline *)

(** The [features] dictionary that [_find_heading_candidates] builds has no
    ['text'] key, so [features.get('text', '')] is the empty string for every
    candidate: the second test of the [numbered] rule cannot succeed, and the
    length read by the [all_caps] rule is 0. *)
Lemma candidate_features_have_no_text (cfg : Config) (pn : Z) (block : Block)
    (c : Candidate) :
  heading_candidate cfg pn block = Some c ->
  Re.matches Patterns.re_numbered (features_get_text (c_features c)) = false
  /\ len (features_get_text (c_features c)) = 0.
Proof.
  intro H. apply heading_candidate_inv in H.
  destruct H as [_ [_ [_ [_ [_ Hnone]]]]].
  unfold features_get_text. rewrite Hnone. split; reflexivity.
Qed.

(** C2 on the code.  "1. Introduction" matches [numbered] and not
    [sub_numbered], its size 14 equals [h1_threshold]; not being bold it is
    emitted as H2, where rule 1 asks for H1. *)
Lemma numbered_plain_heading_is_H2 :
  _check_text_patterns (lit "1. Introduction") = [numbered; title_case]
  /\ h1_threshold
       (_analyze_font_sizes
          (flat_map (_find_heading_candidates default_config)
             [numbered_plain_page])) = 14 # 1
  /\ detect_headings default_config [numbered_plain_page]
     = [{| h_level := H2; h_text := lit "1. Introduction"; h_page := 1;
           h_position := 100 # 1 |}].
Proof. vm_compute. repeat split. Qed.

(** The same heading in bold is emitted as H1: the font-size rule gives H1
    for a size that reaches [h1_threshold], and bold text is not demoted. *)
Lemma numbered_bold_heading_is_H1 :
  detect_headings default_config
    [{| page_number := 1;
        text_blocks :=
          [{| b_text := lit "1. Introduction"; b_font := lit "Helvetica-Bold";
              b_size := 14 # 1; b_flags := 16;
              b_bbox := {| left := 72 # 1; top := 100 # 1;
                           right := 200 # 1; bottom := 116 # 1 |} |}] |}]
  = [{| h_level := H1; h_text := lit "1. Introduction"; h_page := 1;
        h_position := 100 # 1 |}].
Proof. vm_compute. reflexivity. Qed.

(** With the text stored under the ['text'] key of [features], the numbered
    rule does return H1 whatever the size and the style. *)
Lemma numbered_rule_with_text (font_size : Q) (patterns : list Pattern)
    (features : Features) (h1 h2 h3 : Q) :
  pattern_in numbered patterns = true ->
  Re.matches Patterns.re_numbered (features_get_text features) = true ->
  _determine_heading_level font_size patterns features h1 h2 h3 = Some H1.
Proof.
  intros Hp Ht. unfold _determine_heading_level. rewrite Hp, Ht. reflexivity.
Qed.

(** A sub-numbered heading is H2 whatever its size and style, and a plain
    line at the top size that is not bold is demoted to H2. *)
Lemma sub_numbered_and_demotion :
  _determine_heading_level (12 # 1)
    (_check_text_patterns (lit "2.1 Background"))
    {| font_size := 12 # 1; is_bold := false; is_italic := false;
       left_margin := 72 # 1; top_position := 100 # 1; position := 100 # 1;
       patterns := _check_text_patterns (lit "2.1 Background");
       f_text := None |}
    (16 # 1) (14 # 1) (12 # 1) = Some H2
  /\ _determine_heading_level (16 # 1) []
       {| font_size := 16 # 1; is_bold := false; is_italic := false;
          left_margin := 72 # 1; top_position := 100 # 1;
          position := 100 # 1; patterns := []; f_text := None |}
       (16 # 1) (14 # 1) (12 # 1) = Some H2.
Proof. split; vm_compute; reflexivity. Qed.

(** C3 on the code.  The all-caps line has 58 characters and sits at H3 after
    the style adjustment (bold, size 12 equal to [h3_threshold]); it is
    emitted as H2, where step 7 asks that a text of 50 characters or more
    stays at H3. *)
Lemma long_all_caps_heading_is_promoted :
  len (lit "INTERNATIONAL TELECOMMUNICATIONS STANDARDIZATION COMMITTEE") = 58
  /\ _check_text_patterns
       (lit "INTERNATIONAL TELECOMMUNICATIONS STANDARDIZATION COMMITTEE")
     = [all_caps]
  /\ h3_threshold
       (_analyze_font_sizes
          (flat_map (_find_heading_candidates default_config)
             [long_caps_page])) = 12 # 1
  /\ detect_headings default_config [long_caps_page]
     = [{| h_level := H1; h_text := lit "Annual Report"; h_page := 1;
           h_position := 40 # 1 |};
        {| h_level := H2; h_text := lit "Overview"; h_page := 1;
           h_position := 100 # 1 |};
        {| h_level := H2;
           h_text :=
             lit "INTERNATIONAL TELECOMMUNICATIONS STANDARDIZATION COMMITTEE";
           h_page := 1; h_position := 200 # 1 |}].
Proof. vm_compute. repeat split. Qed.

(** ** The title candidates and their scores *)

Lemma str_eqb_eq (a b : str) : str_eqb a b = true <-> a = b.
Proof.
  revert b. induction a as [|x a IH]; intros [|y b]; simpl;
    try (split; [discriminate | intro H; discriminate H]).
  - split; reflexivity.
  - rewrite andb_true_iff, Ascii.eqb_eq, IH. split.
    + intros [-> ->]. reflexivity.
    + intro H. injection H as -> ->. split; reflexivity.
Qed.

Lemma str_eqb_refl (a : str) : str_eqb a a = true.
Proof. apply str_eqb_eq. reflexivity. Qed.

Lemma key_mem_In (keys : list str) (text : str) :
  existsb (fun k => str_eqb k text) keys = true <-> In text keys.
Proof.
  rewrite existsb_exists. split.
  - intros [k [Hin Hk]]. apply str_eqb_eq in Hk. subst. exact Hin.
  - intro Hin. exists text. split; [exact Hin | apply str_eqb_refl].
Qed.

Lemma scores_mem_keys (text : str) (scores : Scores) :
  scores_mem text scores = existsb (fun k => str_eqb k text) (map fst scores).
Proof.
  unfold scores_mem. induction scores as [|kv scores IH]; simpl.
  - reflexivity.
  - rewrite IH. reflexivity.
Qed.

Lemma scores_add_keys (text : str) (delta : Z) (scores : Scores) :
  map fst (scores_add text delta scores) = map fst scores.
Proof.
  unfold scores_add. rewrite map_map. apply map_ext.
  intros [k v]. simpl. destruct (str_eqb k text); reflexivity.
Qed.

Lemma scores_add_In (text : str) (delta : Z) (scores : Scores) (k : str)
    (v : Z) :
  In (k, v) (scores_add text delta scores) ->
  exists v0,
    In (k, v0) scores /\ v = v0 + (if str_eqb k text then delta else 0).
Proof.
  unfold scores_add. rewrite in_map_iff. intros [[k0 v0] [E Hin]].
  simpl in E. destruct (str_eqb k0 text) eqn:Ek; injection E as <- <-.
  - exists v0. rewrite Ek. split; [exact Hin | reflexivity].
  - exists v0. rewrite Ek. split; [exact Hin | lia].
Qed.

Lemma scores_add_zero (text : str) (scores : Scores) :
  scores_add text 0 scores = scores.
Proof.
  unfold scores_add. induction scores as [|[k v] scores IH]; simpl.
  - reflexivity.
  - rewrite IH. destruct (str_eqb k text); [rewrite Z.add_0_r|]; reflexivity.
Qed.

Lemma score_strategy_weight (scores : Scores) (strategy : string) (text : str) :
  score_strategy scores (strategy, text)
  = scores_add text (strategy_weight strategy)
      (if scores_mem text scores then scores else scores_init text scores).
Proof.
  unfold score_strategy, strategy_weight.
  destruct (String.eqb strategy "font_size"); [reflexivity|].
  destruct (String.eqb strategy "position"); [reflexivity|].
  destruct (String.eqb strategy "style"); [reflexivity|].
  destruct (String.eqb strategy "top"); [reflexivity|].
  symmetry. apply scores_add_zero.
Qed.

Lemma score_strategy_keys (candidates : list (string * str)) (scores : Scores) :
  map fst (fold_left score_strategy candidates scores)
  = fold_left add_key (map snd candidates) (map fst scores).
Proof.
  revert scores. induction candidates as [|[strategy text] rest IH];
    intro scores; cbn [fold_left map snd].
  - reflexivity.
  - rewrite IH. f_equal. rewrite score_strategy_weight, scores_add_keys.
    unfold add_key. rewrite <- scores_mem_keys.
    destruct (scores_mem text scores).
    + reflexivity.
    + unfold scores_init. rewrite map_app. reflexivity.
Qed.

Lemma add_key_In (keys : list str) (text k : str) :
  In k (add_key keys text) <-> In k keys \/ k = text.
Proof.
  unfold add_key.
  destruct (existsb (fun k0 => str_eqb k0 text) keys) eqn:E.
  - apply key_mem_In in E. split; [intro H; left; exact H|].
    intros [H | ->]; assumption.
  - rewrite in_app_iff. simpl. split.
    + intros [H|[H|[]]]; [left; exact H | right; symmetry; exact H].
    + intros [H | ->]; [left; exact H | right; left; reflexivity].
Qed.

Lemma fold_add_key_In (texts keys : list str) (k : str) :
  In k (fold_left add_key texts keys) <-> In k keys \/ In k texts.
Proof.
  revert keys. induction texts as [|t texts IH]; intro keys; simpl.
  - split; [intro H; left; exact H | intros [H|[]]; exact H].
  - rewrite IH, add_key_In. split.
    + intros [[H|H]|H]; [left; exact H | right; left; symmetry; exact H
                         | right; right; exact H].
    + intros [H|[H|H]]; [left; left; exact H | left; right; symmetry; exact H
                         | right; exact H].
Qed.

Lemma add_key_cases (keys : list str) (text : str) :
  (In text keys /\ add_key keys text = keys)
  \/ (~ In text keys /\ add_key keys text = keys ++ [text]).
Proof.
  unfold add_key.
  destruct (existsb (fun k => str_eqb k text) keys) eqn:E.
  - left. split; [apply key_mem_In; exact E | reflexivity].
  - right. split; [|reflexivity]. intro H. apply key_mem_In in H. congruence.
Qed.

(** A key of [scores] sits after the keys of all texts met before its own
    first occurrence. *)
Lemma first_occurrence_split (texts : list str) (keys1 keys2 : list str)
    (text : str) :
  fold_left add_key texts [] = keys1 ++ text :: keys2 ->
  exists before after,
    texts = before ++ text :: after
    /\ ~ In text before
    /\ (forall t, In t before -> In t keys1).
Proof.
  revert keys1 keys2. induction texts as [|t texts IH] using rev_ind;
    intros keys1 keys2 H.
  - simpl in H. destruct keys1; discriminate.
  - rewrite fold_left_app in H. cbn [fold_left] in H.
    destruct (add_key_cases (fold_left add_key texts []) t) as [[E Ek]|[E Ek]];
      rewrite Ek in H; clear Ek.
    + destruct (IH _ _ H) as [before [after [Ht [Hnot Hsub]]]].
      exists before, (after ++ [t]). split; [|split; assumption].
      rewrite Ht, <- app_assoc. reflexivity.
    + destruct keys2 as [|k keys2 _] using rev_ind.
      * apply app_inj_tail in H. destruct H as [Hkeys ->].
        exists texts, []. split; [reflexivity|]. split.
        -- intro Hin. apply E. apply fold_add_key_In. right. exact Hin.
        -- intros t' Hin. rewrite <- Hkeys. apply fold_add_key_In.
           right. exact Hin.
      * rewrite app_comm_cons, app_assoc in H.
        apply app_inj_tail in H. destruct H as [Hkeys _].
        destruct (IH _ _ Hkeys) as [before [after [Ht [Hnot Hsub]]]].
        exists before, (after ++ [t]). split; [|split; assumption].
        rewrite Ht, <- app_assoc. reflexivity.
Qed.

Lemma weight_sum_app (text : str) (l1 l2 : list (string * str)) :
  weight_sum text (l1 ++ l2) = weight_sum text l1 + weight_sum text l2.
Proof.
  induction l1 as [|[strategy t] l1 IH]; simpl.
  - reflexivity.
  - rewrite IH. lia.
Qed.

Lemma weight_sum_absent (text : str) (l : list (string * str)) :
  ~ In text (map snd l) -> weight_sum text l = 0.
Proof.
  induction l as [|[strategy t] l IH]; simpl; intro H.
  - reflexivity.
  - destruct (str_eqb t text) eqn:E.
    + apply str_eqb_eq in E. exfalso. apply H. left. exact E.
    + rewrite IH; [reflexivity|]. intro Hin. apply H. right. exact Hin.
Qed.

(** After the first loop every item of [scores] holds the weights of the
    strategies that proposed its text. *)
Lemma score_strategy_values (candidates : list (string * str)) (k : str)
    (v : Z) :
  In (k, v) (fold_left score_strategy candidates []) ->
  v = weight_sum k candidates.
Proof.
  revert k v. induction candidates as [|[strategy text] done IH] using rev_ind;
    intros k v H.
  - destruct H.
  - rewrite fold_left_app in H. cbn [fold_left] in H.
    rewrite score_strategy_weight in H.
    apply scores_add_In in H. destruct H as [v0 [Hin ->]].
    rewrite weight_sum_app. simpl. rewrite Z.add_0_r.
    assert (Hv0 : v0 = weight_sum k done).
    { destruct (scores_mem text (fold_left score_strategy done [])) eqn:Hmem.
      - apply IH. exact Hin.
      - unfold scores_init in Hin. apply in_app_iff in Hin.
        destruct Hin as [Hin|[Hin|[]]]; [apply IH; exact Hin|].
        injection Hin as <- <-. symmetry. apply weight_sum_absent.
        intro Htext.
        assert (Hk : In text (map fst (fold_left score_strategy done []))).
        { rewrite score_strategy_keys. apply fold_add_key_In. right.
          exact Htext. }
        rewrite scores_mem_keys in Hmem. apply key_mem_In in Hk. congruence. }
    rewrite Hv0.
    destruct (str_eqb k text) eqn:E1; destruct (str_eqb text k) eqn:E2;
      try reflexivity.
    + apply str_eqb_eq in E1. subst. rewrite str_eqb_refl in E2. discriminate.
    + apply str_eqb_eq in E2. subst. rewrite str_eqb_refl in E1. discriminate.
Qed.

Lemma score_characteristics_adjust (k : str) (v : Z) :
  score_characteristics (k, v) = (k, v + code_adjustment k).
Proof.
  unfold score_characteristics, code_adjustment, length_adjustment. cbv zeta.
  destruct ((5 <=? len (strip k)) && (len (strip k) <=? 100));
    [|destruct (200 <? len (strip k))];
    destruct (_looks_like_title k); f_equal; lia.
Qed.

(** [max] keeps the first of the items of maximal value. *)
Lemma py_max_item_first (items : Scores) (item0 : str * Z) :
  exists before after,
    item0 :: items = before ++ py_max_item item0 items :: after
    /\ (forall kv, In kv before -> snd kv < snd (py_max_item item0 items))
    /\ (forall kv, In kv after -> snd kv <= snd (py_max_item item0 items)).
Proof.
  induction items as [|x items IH] using rev_ind.
  - exists [], []. simpl. repeat split; intros kv [].
  - destruct IH as [before [after [Hsplit [Hlt Hle]]]].
    unfold py_max_item in *. rewrite fold_left_app. cbn [fold_left].
    set (best := fold_left
                   (fun best kv => if snd best <? snd kv then kv else best)
                   items item0) in *.
    destruct (snd best <? snd x) eqn:E.
    + apply Z.ltb_lt in E. exists (item0 :: items), []. split; [|split].
      * reflexivity.
      * intros kv Hin. rewrite Hsplit in Hin. apply in_app_iff in Hin.
        destruct Hin as [Hin|[Hin|Hin]].
        -- specialize (Hlt kv Hin). lia.
        -- subst kv. exact E.
        -- specialize (Hle kv Hin). lia.
      * intros kv [].
    + apply Z.ltb_ge in E. exists before, (after ++ [x]). split; [|split].
      * rewrite app_comm_cons, Hsplit, <- app_assoc. reflexivity.
      * exact Hlt.
      * intros kv Hin. apply in_app_iff in Hin.
        destruct Hin as [Hin|[Hin|[]]]; [apply Hle; exact Hin|].
        subst kv. exact E.
Qed.

(** After both loops every item of [scores] holds the total score of its
    text. *)
Lemma final_scores_values (candidates : list (string * str)) (k : str)
    (v : Z) :
  In (k, v)
    (map score_characteristics (fold_left score_strategy candidates [])) ->
  v = code_total_score candidates k.
Proof.
  rewrite in_map_iff. intros [[k0 v0] [E Hin]].
  rewrite score_characteristics_adjust in E. injection E as <- <-.
  apply score_strategy_values in Hin. subst v0. reflexivity.
Qed.

Lemma final_scores_keys (candidates : list (string * str)) :
  map fst (map score_characteristics (fold_left score_strategy candidates []))
  = fold_left add_key (map snd candidates) [].
Proof.
  rewrite map_map.
  rewrite (map_ext (fun kv => fst (score_characteristics kv)) fst).
  - apply (score_strategy_keys candidates []).
  - intros [k v]. rewrite score_characteristics_adjust. reflexivity.
Qed.

Lemma In_key_item (scores : Scores) (k : str) :
  In k (map fst scores) -> exists v, In (k, v) scores.
Proof.
  rewrite in_map_iff. intros [[k0 v] [E Hin]]. simpl in E. subst k0.
  exists v. exact Hin.
Qed.

(** [extract_title] hands the candidates over in the order in which the
    strategies are tried: font size, position, style, top. *)
Lemma title_candidates_order (text_blocks : list Block) :
  is_subsequence (map fst (title_candidates text_blocks))
    ["font_size"; "position"; "style"; "top"]%string = true.
Proof.
  unfold title_candidates, append_candidate.
  destruct (_find_by_font_size text_blocks) as [[|? ?]|];
    destruct (_find_by_position text_blocks) as [[|? ?]|];
    destruct (_find_by_style text_blocks) as [[|? ?]|];
    destruct (_find_by_top_position text_blocks) as [[|? ?]|];
    reflexivity.
Qed.

(** For a non-empty list of (strategy, text) candidates the text that
    [_select_best_candidate] returns is one of the candidates, and it is the
    first text of highest score as the code scores: the weights of the
    strategies that proposed the text (3, 2, 2, 1), the adjustment for its
    length, and 2 more for every text that [_looks_like_title] accepts.  No
    text scores more than the winner, and every text met before the
    winner's first occurrence scores strictly less. *)
Theorem best_candidate_has_highest_code_score (candidates : list (string * str))
    (text_blocks : list Block) :
  candidates <> [] ->
  exists winner before strategy after,
    _select_best_candidate candidates text_blocks = Some winner
    /\ candidates = before ++ (strategy, winner) :: after
    /\ ~ In winner (map snd before)
    /\ (forall t,
           In t (map snd before) ->
           code_total_score candidates t < code_total_score candidates winner)
    /\ (forall t,
           In t (map snd candidates) ->
           code_total_score candidates t <= code_total_score candidates winner).
Proof.
  intro Hne. unfold _select_best_candidate.
  destruct candidates as [|c0 cs] eqn:Hc; [congruence|].
  rewrite <- Hc. clear Hne.
  set (scores := map score_characteristics
                   (fold_left score_strategy candidates [])).
  assert (Hkeys : map fst scores = fold_left add_key (map snd candidates) [])
    by apply final_scores_keys.
  assert (Hvals : forall k v, In (k, v) scores -> v = code_total_score candidates k)
    by (intros k v; apply final_scores_values).
  destruct scores as [|item0 items] eqn:Hscores.
  { exfalso.
    assert (Hin : In (snd c0) (fold_left add_key (map snd candidates) [])).
    { apply fold_add_key_In. right. rewrite Hc. left. reflexivity. }
    rewrite <- Hkeys in Hin. destruct Hin. }
  destruct (py_max_item_first items item0)
    as [sbefore [safter [Hsplit [Hlt Hle]]]].
  destruct (py_max_item item0 items) as [winner best] eqn:Hbest.
  simpl in Hlt, Hle.
  assert (Hw : best = code_total_score candidates winner).
  { apply Hvals. rewrite Hsplit. apply in_app_iff. right. left. reflexivity. }
  rewrite Hsplit in Hkeys. rewrite map_app in Hkeys. simpl in Hkeys.
  symmetry in Hkeys.
  destruct (first_occurrence_split _ _ _ _ Hkeys)
    as [tbefore [tafter [Htexts [Hnot Hsub]]]].
  apply map_eq_app in Htexts.
  destruct Htexts as [before [rest [Hcands [Hb Hrest]]]].
  apply map_eq_cons in Hrest.
  destruct Hrest as [[strategy w] [after [Hrest [Hwin Hafter]]]].
  simpl in Hwin. subst w rest tbefore.
  exists winner, before, strategy, after.
  split; [reflexivity|]. split; [exact Hcands|]. split; [exact Hnot|].
  split.
  - intros t Ht. apply Hsub in Ht. apply In_key_item in Ht.
    destruct Ht as [v Hv]. specialize (Hlt _ Hv). simpl in Hlt.
    assert (Hv' : v = code_total_score candidates t).
    { apply Hvals. rewrite Hsplit. apply in_app_iff. left. exact Hv. }
    lia.
  - intros t Ht.
    assert (Hk : In t (map fst (sbefore ++ (winner, best) :: safter))).
    { rewrite map_app. simpl. rewrite <- Hkeys. apply fold_add_key_In.
      right. exact Ht. }
    apply In_key_item in Hk. destruct Hk as [v Hv].
    assert (Hv' : v = code_total_score candidates t).
    { apply Hvals. rewrite Hsplit. exact Hv. }
    apply in_app_iff in Hv. destruct Hv as [Hv|[Hv|Hv]].
    + specialize (Hlt _ Hv). simpl in Hlt. lia.
    + injection Hv as <- <-. lia.
    + specialize (Hle _ Hv). simpl in Hle. lia.
Qed.

Lemma best_candidate_has_highest_code_score_witness :
  exists winner,
    _select_best_candidate sample_candidates [] = Some winner
    /\ forall t,
         In t (map snd sample_candidates) ->
         code_total_score sample_candidates t
         <= code_total_score sample_candidates winner.
Proof.
  assert (Hne : sample_candidates <> []) by discriminate.
  destruct (best_candidate_has_highest_code_score sample_candidates [] Hne)
    as [winner [before [strategy [after [Hsel [_ [_ [_ Hmax]]]]]]]].
  exists winner. split; assumption.
Defined.

(** C7 on the code.  On [digits_page] the font-size heuristic proposes
    "12345" and the position heuristic "Hello World".  By the specification
    "12345" scores 3 + 1 = 4, pure digits earning no bonus, and "Hello
    World" scores 2 + 1 + 2 = 5, so that "Hello World" has the highest total
    score.  The code returns "12345": [_looks_like_title] accepts a text on
    its third pattern before it reads the rejecting patterns, so the digits
    get the bonus too and win 6 to 5. *)
Lemma digits_candidate_wins_the_merge :
  title_candidates (text_blocks digits_page)
  = [("font_size"%string, lit "12345"); ("position"%string, lit "Hello World")]
  /\ total_score (title_candidates (text_blocks digits_page)) (lit "12345") = 4
  /\ total_score (title_candidates (text_blocks digits_page))
       (lit "Hello World") = 5
  /\ code_total_score (title_candidates (text_blocks digits_page))
       (lit "12345") = 6
  /\ code_total_score (title_candidates (text_blocks digits_page))
       (lit "Hello World") = 5
  /\ _select_best_candidate (title_candidates (text_blocks digits_page))
       (text_blocks digits_page) = Some (lit "12345")
  /\ extract_title default_config digits_page = lit "12345".
Proof.
  vm_compute. repeat split; reflexivity.
Qed.

(** ** Whitespace-normalised strings *)

Lemma lstrip_suffix (t : str) : exists p, t = p ++ lstrip t.
Proof.
  induction t as [|c t [p IH]]; simpl.
  - exists []. reflexivity.
  - destruct (isspace c).
    + exists (c :: p). simpl. f_equal. exact IH.
    + exists []. reflexivity.
Qed.

Lemma lstrip_starts_clean (t : str) : starts_clean (lstrip t).
Proof.
  induction t as [|c t IH]; simpl.
  - exact I.
  - destruct (isspace c) eqn:E; [exact IH | exact E].
Qed.

Lemma lstrip_clean_id (t : str) : starts_clean t -> lstrip t = t.
Proof.
  destruct t as [|c t]; simpl; intro H; [reflexivity|].
  rewrite H. reflexivity.
Qed.

Lemma rstrip_prefix (t : str) : exists q, t = rstrip t ++ q.
Proof.
  unfold rstrip. destruct (lstrip_suffix (rev t)) as [p Hp].
  exists (rev p). rewrite <- rev_app_distr, <- Hp, rev_involutive.
  reflexivity.
Qed.

Lemma rstrip_ends_clean (t : str) : ends_clean (rstrip t).
Proof.
  unfold ends_clean, rstrip. rewrite rev_involutive.
  apply lstrip_starts_clean.
Qed.

Lemma starts_clean_prefix (p q : str) : starts_clean (p ++ q) -> starts_clean p.
Proof. destruct p; simpl; [intros _; exact I | intro H; exact H]. Qed.

Lemma strip_factor (t : str) : exists p q, t = p ++ strip t ++ q.
Proof.
  unfold strip. destruct (lstrip_suffix t) as [p Hp].
  destruct (rstrip_prefix (lstrip t)) as [q Hq].
  exists p, q. rewrite <- Hq. exact Hp.
Qed.

Lemma strip_clean (t : str) :
  starts_clean (strip t) /\ ends_clean (strip t).
Proof.
  unfold strip. split.
  - destruct (rstrip_prefix (lstrip t)) as [q Hq].
    apply starts_clean_prefix with (q := q). rewrite <- Hq.
    apply lstrip_starts_clean.
  - apply rstrip_ends_clean.
Qed.

Lemma strip_length (t : str) : (length (strip t) <= length t)%nat.
Proof.
  destruct (strip_factor t) as [p [q H]].
  rewrite H at 2. rewrite !length_app. lia.
Qed.

Lemma no_double_space_suffix (p q : str) :
  no_double_space (p ++ q) -> no_double_space q.
Proof.
  induction p as [|c p IH]; simpl; [intro H; exact H|].
  intros [_ H]. apply IH. exact H.
Qed.

Lemma no_double_space_prefix (p q : str) :
  no_double_space (p ++ q) -> no_double_space p.
Proof.
  induction p as [|c p IH]; simpl; [intros _; exact I|].
  intros [Hc H]. split; [|apply IH; exact H].
  intro Hs. apply starts_clean_prefix with (q := q). apply Hc. exact Hs.
Qed.

Lemma no_double_space_app (p q : str) :
  no_double_space p -> no_double_space q -> starts_clean q ->
  no_double_space (p ++ q).
Proof.
  intros Hp Hq Hstart. induction p as [|c p IH]; simpl; [exact Hq|].
  destruct Hp as [Hc Hp]. split; [|apply IH; exact Hp].
  intro Hs. specialize (Hc Hs). destruct p; simpl; [exact Hstart | exact Hc].
Qed.

(** Every stripped piece of a string with single plain blanks is tidy. *)
Lemma factor_strip_tidy (t p u q : str) :
  only_plain_spaces t -> no_double_space t -> t = p ++ u ++ q ->
  tidy (strip u).
Proof.
  intros HA HB Ht.
  destruct (strip_factor u) as [p' [q' Hu]].
  assert (Ht' : t = (p ++ p') ++ strip u ++ (q' ++ q)).
  { rewrite Ht. rewrite Hu at 1. rewrite <- !app_assoc. reflexivity. }
  clear Ht Hu. destruct (strip_clean u) as [Hs He].
  unfold tidy. repeat split; try assumption.
  - unfold only_plain_spaces in *. rewrite Ht' in HA.
    apply Forall_app in HA. destruct HA as [_ HA].
    apply Forall_app in HA. destruct HA as [HA _]. exact HA.
  - rewrite Ht' in HB. apply no_double_space_suffix in HB.
    apply no_double_space_prefix in HB. exact HB.
Qed.

Lemma firstn_strip_tidy (n : nat) (t : str) :
  tidy t -> tidy (strip (firstn n t)).
Proof.
  intros [HA [HB _]].
  apply (factor_strip_tidy t [] (firstn n t) (skipn n t) HA HB).
  simpl. symmetry. apply firstn_skipn.
Qed.

Lemma skipn_strip_tidy (n : nat) (t : str) :
  tidy t -> tidy (strip (skipn n t)).
Proof.
  intros [HA [HB _]].
  apply (factor_strip_tidy t (firstn n t) (skipn n t) [] HA HB).
  rewrite app_nil_r. symmetry. apply firstn_skipn.
Qed.

Lemma tidy_nil : tidy [].
Proof. repeat split; constructor. Qed.

Lemma tidy_append_ellipsis (t : str) : tidy t -> tidy (t ++ ellipsis).
Proof.
  intros [HA [HB [HS HE]]]. unfold tidy, ellipsis. repeat split.
  - apply Forall_app. split; [exact HA|].
    repeat constructor; intro H; discriminate H.
  - apply no_double_space_app; [exact HB | | reflexivity].
    simpl. repeat split; intro H; discriminate H.
  - destruct t; [reflexivity | exact HS].
  - unfold ends_clean. rewrite rev_app_distr. reflexivity.
Qed.

Lemma tidy_untitled : tidy untitled.
Proof.
  unfold tidy, untitled. repeat split;
    try (intro H; discriminate H); try reflexivity.
  repeat constructor; intro H; try discriminate H; reflexivity.
Qed.

Lemma split_words_ok (t : str) : Forall word_ok (split t).
Proof.
  induction t as [|c t IH]; simpl.
  - constructor.
  - destruct (isspace c) eqn:Ec; [exact IH|].
    destruct t as [|x t].
    + repeat constructor; [discriminate | exact Ec].
    + destruct (isspace x) eqn:Ex.
      * constructor; [|exact IH].
        split; [discriminate | repeat constructor; exact Ec].
      * destruct (split (x :: t)) as [|w ws].
        -- repeat constructor; [discriminate | exact Ec].
        -- inversion IH as [|? ? [Hne Hw] Hws]; subst.
           constructor; [|exact Hws].
           split; [discriminate | constructor; assumption].
Qed.

Lemma word_ok_tidy (w : str) : word_ok w -> tidy w.
Proof.
  intros [Hne Hw]. unfold tidy. repeat split.
  - eapply Forall_impl; [|exact Hw]. simpl. intros c Hc Hs. congruence.
  - clear Hne. induction Hw as [|c w Hc Hw IH]; simpl; [exact I|].
    split; [intro Hs; congruence | exact IH].
  - destruct Hw; [exact I | assumption].
  - unfold ends_clean.
    assert (Hrev : Forall (fun c => isspace c = false) (rev w))
      by (apply Forall_rev; exact Hw).
    destruct Hrev; [exact I | assumption].
Qed.

Lemma join_sp_cons (w : str) (ws : list str) :
  ws <> [] -> join_sp (w :: ws) = w ++ " "%char :: join_sp ws.
Proof. destruct ws; [congruence | reflexivity]. Qed.

Lemma join_sp_tidy (ws : list str) : Forall word_ok ws -> tidy (join_sp ws).
Proof.
  induction 1 as [|w ws Hw Hws IH].
  - apply tidy_nil.
  - destruct ws as [|w2 ws].
    + apply word_ok_tidy. exact Hw.
    + rewrite join_sp_cons by discriminate.
      destruct (word_ok_tidy w Hw) as [HA [HB [HS HE]]].
      destruct IH as [HA' [HB' [HS' HE']]].
      assert (Hne : join_sp (w2 :: ws) <> []).
      { inversion Hws as [|? ? [Hne2 _] _]; subst.
        destruct ws; simpl; [exact Hne2|].
        destruct w2; [congruence | discriminate]. }
      unfold tidy. repeat split.
      * apply Forall_app. split; [exact HA|].
        constructor; [intros _; reflexivity | exact HA'].
      * destruct Hw as [_ Hw].
        clear HA HB HS HE. induction Hw as [|c w Hc Hw IHw]; simpl.
        -- split; [intros _; exact HS' | exact HB'].
        -- split; [intro Hs; congruence | exact IHw].
      * destruct Hw as [Hne' _]. destruct w; [congruence | exact HS].
      * unfold ends_clean in *. rewrite rev_app_distr. cbn [rev].
        destruct (rev (join_sp (w2 :: ws))) as [|x r] eqn:Er.
        -- exfalso. apply Hne. apply (f_equal (@rev ascii)) in Er.
           rewrite rev_involutive in Er. exact Er.
        -- simpl. exact HE'.
Qed.

Lemma normalise_tidy (t : str) : tidy (normalise t).
Proof. apply join_sp_tidy. apply split_words_ok. Qed.

Lemma split_nonempty (c : ascii) (t : str) :
  isspace c = false -> split (c :: t) <> [].
Proof.
  intro Hc. simpl. rewrite Hc. destruct t as [|x t]; [discriminate|].
  destruct (isspace x); [discriminate|].
  destruct (split (x :: t)); discriminate.
Qed.

Lemma ends_clean_tail (c x : ascii) (t : str) :
  ends_clean (c :: x :: t) -> ends_clean (x :: t).
Proof.
  unfold ends_clean. change (rev (c :: x :: t)) with (rev (x :: t) ++ [c]).
  destruct (rev (x :: t)) as [|y r] eqn:E.
  - exfalso. apply (f_equal (@rev ascii)) in E.
    rewrite rev_involutive in E. discriminate E.
  - simpl. intro H. exact H.
Qed.

(** Splitting and joining gives back the string without its leading blank. *)
Lemma normalise_lstrip (t : str) :
  only_plain_spaces t -> no_double_space t -> ends_clean t ->
  normalise t = lstrip t.
Proof.
  unfold normalise. induction t as [|c t IH]; intros HA HB HE.
  - reflexivity.
  - inversion HA as [|? ? Hc HA']; subst. destruct HB as [Hcs HB'].
    destruct t as [|x t].
    + assert (Ec : isspace c = false) by exact HE.
      simpl. rewrite Ec. reflexivity.
    + specialize (IH HA' HB' (ends_clean_tail _ _ _ HE)).
      destruct (isspace c) eqn:Ec.
      * simpl. rewrite Ec. exact IH.
      * cbn [lstrip]. rewrite Ec.
        destruct (isspace x) eqn:Ex.
        -- assert (Hsplit : split (c :: x :: t) = [c] :: split (x :: t)).
           { simpl. rewrite Ec, Ex. reflexivity. }
           rewrite Hsplit.
           inversion HA' as [|? ? Hx _]; subst.
           specialize (Hx Ex). subst x.
           destruct HB' as [Hxs _]. specialize (Hxs Ex).
           destruct t as [|y t].
           ++ exfalso. unfold ends_clean in HE. simpl in HE. congruence.
           ++ simpl in Hxs.
              assert (Hne : split (" "%char :: y :: t) <> []).
              { change (split (" "%char :: y :: t)) with (split (y :: t)).
                apply split_nonempty. exact Hxs. }
              rewrite join_sp_cons by exact Hne.
              rewrite IH. cbn [lstrip]. rewrite Ex, Hxs. reflexivity.
        -- assert (Hsplit :
             split (c :: x :: t) =
             match split (x :: t) with
             | w :: ws => (c :: w) :: ws
             | [] => [[c]]
             end).
           { cbn [split]. rewrite Ec, Ex. reflexivity. }
           rewrite Hsplit.
           pose proof (split_nonempty x t Ex) as Hne.
           cbn [lstrip] in IH. rewrite Ex in IH.
           destruct (split (x :: t)) as [|w ws]; [congruence|].
           rewrite <- IH. destruct ws; reflexivity.
Qed.

Lemma tidy_normalise (t : str) : tidy t -> normalise t = t.
Proof.
  intros [HA [HB [HS HE]]]. rewrite normalise_lstrip by assumption.
  apply lstrip_clean_id. exact HS.
Qed.

(** ** Title cleaning *)

Lemma remove_prefix_tidy (title prefix : str) :
  tidy title -> tidy (remove_prefix title prefix).
Proof.
  intro H. unfold remove_prefix, slice_from.
  destruct (startswith (lower title) prefix); [|exact H].
  apply skipn_strip_tidy. exact H.
Qed.

Lemma fold_remove_prefix_tidy (prefixes : list str) (title : str) :
  tidy title -> tidy (fold_left remove_prefix prefixes title).
Proof.
  revert title. induction prefixes as [|p prefixes IH]; intros title H; simpl.
  - exact H.
  - apply IH. apply remove_prefix_tidy. exact H.
Qed.

Lemma fold_remove_prefix_none (prefixes : list str) (title : str) :
  (forall p, In p prefixes -> startswith (lower title) p = false) ->
  fold_left remove_prefix prefixes title = title.
Proof.
  induction prefixes as [|p prefixes IH]; intro H; simpl.
  - reflexivity.
  - unfold remove_prefix at 2. rewrite (H p (or_introl eq_refl)).
    apply IH. intros p' Hp'. apply H. right. exact Hp'.
Qed.

Lemma clean_title_unfold (cfg : Config) (c : ascii) (t : str) :
  _clean_title cfg (c :: t) =
  match
    truncated cfg (fold_left remove_prefix prefixes_to_remove
                     (normalise (c :: t)))
  with
  | [] => untitled
  | _ :: _ =>
      truncated cfg (fold_left remove_prefix prefixes_to_remove
                       (normalise (c :: t)))
  end.
Proof. reflexivity. Qed.

Lemma truncated_tidy (cfg : Config) (title : str) :
  tidy title -> tidy (truncated cfg title).
Proof.
  intro H. unfold truncated.
  destruct (MAX_TITLE_LENGTH cfg <? len title); [|exact H].
  assert (Hs : tidy (strip (slice_to (MAX_TITLE_LENGTH cfg) title))).
  { unfold slice_to. destruct (0 <=? MAX_TITLE_LENGTH cfg);
      apply firstn_strip_tidy; exact H. }
  cbv zeta.
  destruct (endswith (strip (slice_to (MAX_TITLE_LENGTH cfg) title)) ellipsis).
  - exact Hs.
  - apply tidy_append_ellipsis. exact Hs.
Qed.

Lemma clean_title_tidy (cfg : Config) (t : str) : tidy (_clean_title cfg t).
Proof.
  destruct t as [|c t]; [apply tidy_untitled|].
  rewrite clean_title_unfold.
  pose proof (truncated_tidy cfg _
                (fold_remove_prefix_tidy prefixes_to_remove _
                   (normalise_tidy (c :: t)))) as H.
  destruct (truncated cfg _); [apply tidy_untitled | exact H].
Qed.

Lemma clean_title_nonempty (cfg : Config) (t : str) : _clean_title cfg t <> [].
Proof.
  destruct t as [|c t]; [discriminate|].
  rewrite clean_title_unfold.
  destruct (truncated cfg _); discriminate.
Qed.

(** A tidy, non-empty title within the limit and without one of the three
    prefixes is left as it is. *)
Lemma clean_title_fixed (cfg : Config) (r : str) :
  tidy r -> r <> [] ->
  (forall p, In p prefixes_to_remove -> startswith (lower r) p = false) ->
  len r <= MAX_TITLE_LENGTH cfg ->
  _clean_title cfg r = r.
Proof.
  intros Htidy Hne Hprefix Hlen.
  destruct r as [|c r]; [congruence|].
  rewrite clean_title_unfold, (tidy_normalise _ Htidy).
  rewrite (fold_remove_prefix_none _ _ Hprefix).
  unfold truncated.
  replace (MAX_TITLE_LENGTH cfg <? len (c :: r)) with false
    by (symmetry; apply Z.ltb_ge; exact Hlen).
  reflexivity.
Qed.

(** C4, as stated, fails in two ways.  The prefixes are tried once each, in
    the order "title:", "subject:", "document:", so a prefix uncovered by
    the removal of a later one survives the first cleaning and is removed by
    the second.  And a title cut at a blank is shorter than the limit by one
    before the ellipsis is appended, so the second cleaning cuts into the
    ellipsis and appends another. *)
Lemma clean_title_not_idempotent :
  _clean_title default_config
    (_clean_title default_config (lit "subject: title: Report"))
  <> _clean_title default_config (lit "subject: title: Report")
  /\ _clean_title default_config
       (_clean_title default_config
          (repeat "a"%char 199 ++ lit " " ++ repeat "b"%char 50))
     <> _clean_title default_config
          (repeat "a"%char 199 ++ lit " " ++ repeat "b"%char 50).
Proof.
  split.
  - vm_compute. discriminate.
  - intro H. apply (f_equal (@length ascii)) in H. vm_compute in H.
    discriminate H.
Qed.

Lemma strip_fixed (t : str) : starts_clean t -> ends_clean t -> strip t = t.
Proof.
  intros HS HE. unfold strip, rstrip. rewrite (lstrip_clean_id _ HS).
  rewrite (lstrip_clean_id _ HE). apply rev_involutive.
Qed.

Lemma strip_strip (t : str) : strip (strip t) = strip t.
Proof. destruct (strip_clean t). apply strip_fixed; assumption. Qed.

Lemma startswith_length (t p : str) :
  startswith t p = true -> (length p <= length t)%nat.
Proof.
  revert t. induction p as [|c p IH]; intros t H; simpl; [lia|].
  destruct t as [|x t]; simpl in H; [discriminate|].
  apply andb_true_iff in H. destruct H as [_ H]. apply IH in H. simpl. lia.
Qed.

Lemma endswith_length (t p : str) :
  endswith t p = true -> (length p <= length t)%nat.
Proof.
  unfold endswith. intro H. apply startswith_length in H.
  rewrite !length_rev in H. exact H.
Qed.

(** A title cut at exactly [MAX_TITLE_LENGTH] characters and closed by the
    ellipsis is cut at the same place again. *)
Lemma clean_title_full_cut (cfg : Config) (x : str) :
  tidy (x ++ ellipsis) -> strip x = x -> endswith x ellipsis = false ->
  len x = MAX_TITLE_LENGTH cfg ->
  (forall p,
      In p prefixes_to_remove -> startswith (lower (x ++ ellipsis)) p = false) ->
  _clean_title cfg (x ++ ellipsis) = x ++ ellipsis.
Proof.
  intros Htidy Hstrip Hends Hlen Hprefix.
  destruct (x ++ ellipsis) as [|c r] eqn:Hr.
  { destruct x; discriminate Hr. }
  rewrite clean_title_unfold, (tidy_normalise _ Htidy).
  rewrite (fold_remove_prefix_none _ _ Hprefix).
  assert (Hcut : truncated cfg (c :: r) = c :: r).
  { unfold truncated. rewrite <- Hr.
    assert (Hl : len (x ++ ellipsis) = MAX_TITLE_LENGTH cfg + 3).
    { unfold len in *. rewrite length_app. simpl length. lia. }
    replace (MAX_TITLE_LENGTH cfg <? len (x ++ ellipsis)) with true
      by (symmetry; apply Z.ltb_lt; lia).
    assert (Hslice : slice_to (MAX_TITLE_LENGTH cfg) (x ++ ellipsis) = x).
    { unfold slice_to.
      replace (0 <=? MAX_TITLE_LENGTH cfg) with true
        by (symmetry; apply Z.leb_le; unfold len in Hlen; lia).
      rewrite <- Hlen. unfold len. rewrite Nat2Z.id.
      rewrite firstn_app, Nat.sub_diag, firstn_all. simpl.
      apply app_nil_r. }
    cbv zeta. rewrite Hslice, Hstrip, Hends. reflexivity. }
  rewrite Hcut. reflexivity.
Qed.

Lemma clean_title_cases (cfg : Config) (t : str) :
  _clean_title cfg t = untitled
  \/ exists title, _clean_title cfg t = truncated cfg title.
Proof.
  destruct t as [|c t]; [left; reflexivity|].
  rewrite clean_title_unfold.
  destruct (truncated cfg _) eqn:E; [left; reflexivity|].
  right. eexists. symmetry. exact E.
Qed.

(** C4 (amended).  Cleaning a cleaned title again gives the same string
    whenever the cleaned title does not begin, in any letter case, with
    "title:", "subject:" or "document:", and either has at most
    [MAX_TITLE_LENGTH] characters or is a full-length cut: exactly
    [MAX_TITLE_LENGTH] characters followed by the ellipsis. *)
Theorem clean_title_idempotent (cfg : Config) (t : str) :
  (forall p,
      In p [lit "title:"; lit "subject:"; lit "document:"] ->
      startswith (lower (_clean_title cfg t)) p = false) ->
  len (_clean_title cfg t) <= MAX_TITLE_LENGTH cfg
  \/ (len (_clean_title cfg t) = MAX_TITLE_LENGTH cfg + 3
      /\ endswith (_clean_title cfg t) (lit "...") = true) ->
  _clean_title cfg (_clean_title cfg t) = _clean_title cfg t.
Proof.
  intros Hprefix [Hlen|[Hlen Hends]].
  { apply clean_title_fixed;
      [apply clean_title_tidy | apply clean_title_nonempty | exact Hprefix
      | exact Hlen]. }
  pose proof (clean_title_tidy cfg t) as Htidy.
  destruct (clean_title_cases cfg t) as [Hr|[title Hr]].
  { rewrite Hr in Hends. discriminate Hends. }
  rewrite Hr in *. clear Hr.
  unfold truncated in Hlen, Hends, Htidy, Hprefix |- *.
  destruct (MAX_TITLE_LENGTH cfg <? len title) eqn:Hlong.
  - cbv zeta in *.
    set (x := strip (slice_to (MAX_TITLE_LENGTH cfg) title)) in *.
    destruct (endswith x ellipsis) eqn:Hx.
    + exfalso.
      assert (Hxlen : len x <= MAX_TITLE_LENGTH cfg \/ len x < 3 -> False).
      { intros [H|H]; [lia|]. apply endswith_length in Hx.
        unfold len, ellipsis in *. simpl length in Hx. lia. }
      apply Hxlen. unfold x, slice_to.
      destruct (0 <=? MAX_TITLE_LENGTH cfg) eqn:Hsign.
      * left. apply Z.leb_le in Hsign. unfold len.
        pose proof (strip_length
                      (firstn (Z.to_nat (MAX_TITLE_LENGTH cfg)) title)) as H1.
        pose proof (firstn_le_length (Z.to_nat (MAX_TITLE_LENGTH cfg)) title)
          as H2.
        lia.
      * right. apply Z.leb_gt in Hsign. lia.
    + apply clean_title_full_cut.
      * exact Htidy.
      * unfold x. apply strip_strip.
      * exact Hx.
      * unfold len in *. rewrite length_app in Hlen. simpl length in Hlen.
        lia.
      * exact Hprefix.
  - exfalso. apply Z.ltb_ge in Hlong. lia.
Qed.

Lemma clean_title_idempotent_witness :
  _clean_title default_config
    (_clean_title default_config
       (lit "  Title:   Annual   Report " ++ repeat "x"%char 250))
  = _clean_title default_config
      (lit "  Title:   Annual   Report " ++ repeat "x"%char 250).
Proof.
  apply (clean_title_idempotent default_config
           (lit "  Title:   Annual   Report " ++ repeat "x"%char 250)).
  - intros p Hp. simpl in Hp.
    destruct Hp as [<-|[<-|[<-|[]]]]; vm_compute; reflexivity.
  - right. split; vm_compute; reflexivity.
Defined.

Lemma split_all_space (t : str) : forallb isspace t = true -> split t = [].
Proof.
  induction t as [|c t IH]; simpl; [reflexivity|].
  intro H. apply andb_true_iff in H. destruct H as [Hc Ht].
  rewrite Hc. apply IH. exact Ht.
Qed.

Lemma truncated_length (cfg : Config) (title : str) :
  0 <= MAX_TITLE_LENGTH cfg ->
  len (truncated cfg title) <= MAX_TITLE_LENGTH cfg + 3.
Proof.
  intro Hmax. unfold truncated.
  destruct (MAX_TITLE_LENGTH cfg <? len title) eqn:E.
  - assert (Hs : len (strip (slice_to (MAX_TITLE_LENGTH cfg) title))
                 <= MAX_TITLE_LENGTH cfg).
    { unfold slice_to.
      replace (0 <=? MAX_TITLE_LENGTH cfg) with true
        by (symmetry; apply Z.leb_le; exact Hmax).
      unfold len.
      pose proof (strip_length
                    (firstn (Z.to_nat (MAX_TITLE_LENGTH cfg)) title)) as H1.
      pose proof (firstn_le_length (Z.to_nat (MAX_TITLE_LENGTH cfg)) title)
        as H2.
      rewrite length_firstn in H1. lia. }
    cbv zeta.
    destruct (endswith (strip (slice_to (MAX_TITLE_LENGTH cfg) title))
                ellipsis).
    + lia.
    + unfold len in *. rewrite length_app. simpl length. lia.
  - apply Z.ltb_ge in E. lia.
Qed.

Lemma clean_title_length (cfg : Config) (t : str) :
  14 <= MAX_TITLE_LENGTH cfg ->
  len (_clean_title cfg t) <= MAX_TITLE_LENGTH cfg + 3.
Proof.
  intro Hmax.
  assert (Hu : len untitled <= MAX_TITLE_LENGTH cfg + 3).
  { change (len untitled) with 17. lia. }
  destruct t as [|c t]; [exact Hu|].
  rewrite clean_title_unfold.
  pose proof (truncated_length cfg
                (fold_left remove_prefix prefixes_to_remove
                   (normalise (c :: t)))) as H.
  destruct (truncated cfg _); [exact Hu | apply H; lia].
Qed.

Lemma clean_title_blank (cfg : Config) (t : str) :
  0 <= MAX_TITLE_LENGTH cfg ->
  forallb isspace t = true ->
  _clean_title cfg t = untitled.
Proof.
  intros Hmax Hblank. destruct t as [|c t]; [reflexivity|].
  rewrite clean_title_unfold. unfold normalise.
  rewrite (split_all_space _ Hblank).
  change (fold_left remove_prefix prefixes_to_remove (join_sp []))
    with (@nil ascii).
  unfold truncated.
  replace (MAX_TITLE_LENGTH cfg <? len []) with false
    by (symmetry; apply Z.ltb_ge; exact Hmax).
  reflexivity.
Qed.

(** C10, as stated, fails for a small limit: with [MAX_TITLE_LENGTH] set to
    10 a first page without spans gives "Untitled Document", which has 17
    characters, more than 10 + 3. *)
Lemma extract_title_bounds_fails_below_14 :
  ~ (len (extract_title short_title_config empty_page)
     <= MAX_TITLE_LENGTH short_title_config + 3).
Proof.
  vm_compute. intro H. apply H. reflexivity.
Qed.

(** C10 (amended).  With [MAX_TITLE_LENGTH] at least 14 (it is 200 unless
    overridden; "Untitled Document" itself has 17 characters),
    [extract_title] returns
    on every first page a non-empty string of at most [MAX_TITLE_LENGTH + 3]
    characters, and a winning candidate that is absent, empty or made of
    whitespace only gives "Untitled Document". *)
Theorem extract_title_bounds (cfg : Config) (first_page : Page) :
  14 <= MAX_TITLE_LENGTH cfg ->
  extract_title cfg first_page <> []
  /\ len (extract_title cfg first_page) <= MAX_TITLE_LENGTH cfg + 3
  /\ (winning_candidate first_page = None ->
      extract_title cfg first_page = lit "Untitled Document")
  /\ (forall t,
         winning_candidate first_page = Some t ->
         forallb isspace t = true ->
         extract_title cfg first_page = lit "Untitled Document").
Proof.
  intro Hmax.
  assert (Hu : len untitled <= MAX_TITLE_LENGTH cfg + 3).
  { change (len untitled) with 17. lia. }
  unfold extract_title, winning_candidate.
  destruct (text_blocks first_page) as [|block blocks].
  { split; [discriminate|]. split; [exact Hu|].
    split; intros; reflexivity. }
  destruct (_select_best_candidate _ _) as [[|c best]|].
  - split; [discriminate|]. split; [exact Hu|].
    split; intros; reflexivity.
  - split; [apply clean_title_nonempty|].
    split; [apply clean_title_length; exact Hmax|].
    split; [discriminate|].
    intros t Ht Hblank. injection Ht as <-.
    apply clean_title_blank; [lia | exact Hblank].
  - split; [discriminate|]. split; [exact Hu|].
    split; intros; reflexivity.
Qed.

Lemma extract_title_bounds_witness :
  extract_title default_config title_page <> []
  /\ len (extract_title default_config title_page)
     <= MAX_TITLE_LENGTH default_config + 3.
Proof.
  assert (Hmax : 14 <= MAX_TITLE_LENGTH default_config)
    by (vm_compute; discriminate).
  destruct (extract_title_bounds default_config title_page Hmax)
    as [Hne [Hlen _]].
  split; assumption.
Defined.

(** * Further properties of the heading detector *)

(** What [heading_candidate] returns for a span that passes the pre-filter. *)
Lemma heading_candidate_eq (cfg : Config) (pn : Z) (block : Block) :
  2 <= len (strip (b_text block)) <= MAX_HEADING_LENGTH cfg ->
  heading_candidate cfg pn block =
  if MIN_HEADING_SCORE cfg <=? spec_heading_score block
  then Some {| c_text := strip (b_text block);
               c_page := pn;
               c_score := spec_heading_score block;
               c_features :=
                 {| font_size := b_size block;
                    is_bold := negb (Z.land (b_flags block) 16 =? 0);
                    is_italic := negb (Z.land (b_flags block) 2 =? 0);
                    left_margin := left (b_bbox block);
                    top_position := top (b_bbox block);
                    position := top (b_bbox block);
                    patterns := _check_text_patterns (strip (b_text block));
                    f_text := None |} |}
  else None.
Proof.
  intros [Hlo Hhi]. unfold heading_candidate, spec_heading_score.
  replace ((len (strip (b_text block)) =? 0)
           || (len (strip (b_text block)) <? 2)) with false
    by (symmetry; apply orb_false_iff; split;
        [apply Z.eqb_neq | apply Z.ltb_ge]; lia).
  replace (MAX_HEADING_LENGTH cfg <? len (strip (b_text block))) with false
    by (symmetry; apply Z.ltb_ge; lia).
  cbv zeta.
  set (bold := negb (Z.land (b_flags block) 16 =? 0)).
  set (big := Qltb (12 # 1) (b_size block)).
  set (pats := _check_text_patterns (strip (b_text block))).
  set (near := Qltb (left (b_bbox block)) (100 # 1)).
  set (mid := (5 <=? len (strip (b_text block)))
              && (len (strip (b_text block)) <=? 80)).
  assert (E :
    (let s0 := if bold then 0 + 2 else 0 in
     let s1 := if big then s0 + 1 else s0 in
     let s2 := match pats with
               | [] => s1
               | _ :: _ => s1 + Z.of_nat (length pats)
               end in
     let s3 := if near then s2 + 1 else s2 in
     if mid then s3 + 1 else s3)
    = 2 * b2z bold + b2z big + Z.of_nat (length pats) + b2z near + b2z mid).
  { destruct bold, big, near, mid, pats; cbn [b2z length]; lia. }
  cbv zeta in E. rewrite E. reflexivity.
Qed.

(** The features that [heading_candidate] records for a span. *)
Lemma heading_candidate_features (cfg : Config) (pn : Z) (block : Block)
    (c : Candidate) :
  heading_candidate cfg pn block = Some c ->
  c_text c = strip (b_text block)
  /\ c_page c = pn
  /\ c_score c = spec_heading_score block
  /\ font_size (c_features c) = b_size block
  /\ is_bold (c_features c) = negb (Z.land (b_flags block) 16 =? 0)
  /\ position (c_features c) = top (b_bbox block)
  /\ patterns (c_features c) = _check_text_patterns (strip (b_text block))
  /\ f_text (c_features c) = None.
Proof.
  intro H. pose proof (heading_candidate_inv _ _ _ _ H) as [Hlen _].
  rewrite (heading_candidate_eq cfg pn block Hlen) in H.
  destruct (MIN_HEADING_SCORE cfg <=? spec_heading_score block);
    [|discriminate].
  injection H as <-. simpl. repeat split; reflexivity.
Qed.

Lemma b2z_nonneg (b : bool) : 0 <= b2z b.
Proof. destruct b; simpl; lia. Qed.

(** A bold span whose trimmed text has 2 to [MAX_HEADING_LENGTH] characters
    is a heading candidate whenever [MIN_HEADING_SCORE] is at most 2, as it
    is by default: boldness alone is worth 2 points and nothing is ever
    subtracted. *)
Theorem bold_span_is_candidate (cfg : Config) (page : Page) (block : Block) :
  In block (text_blocks page) ->
  2 <= len (strip (b_text block)) <= MAX_HEADING_LENGTH cfg ->
  Z.land (b_flags block) 16 <> 0 ->
  MIN_HEADING_SCORE cfg <= 2 ->
  exists c,
    In c (_find_heading_candidates cfg page)
    /\ c_text c = strip (b_text block)
    /\ c_page c = page_number page
    /\ 2 <= c_score c.
Proof.
  intros Hin Hlen Hbold Hmin.
  assert (Hscore : 2 <= spec_heading_score block).
  { unfold spec_heading_score.
    replace (Z.land (b_flags block) 16 =? 0) with false
      by (symmetry; apply Z.eqb_neq; exact Hbold).
    cbn [negb b2z].
    pose proof (b2z_nonneg (Qltb (12 # 1) (b_size block))).
    pose proof (b2z_nonneg (Qltb (left (b_bbox block)) (100 # 1))).
    pose proof (b2z_nonneg ((5 <=? len (strip (b_text block)))
                            && (len (strip (b_text block)) <=? 80))).
    lia. }
  pose proof (heading_candidate_eq cfg (page_number page) block Hlen) as Heq.
  replace (MIN_HEADING_SCORE cfg <=? spec_heading_score block) with true in Heq
    by (symmetry; apply Z.leb_le; lia).
  eexists. split.
  - apply find_heading_candidates_In. exists block. split; [exact Hin|].
    exact Heq.
  - simpl. repeat split; try reflexivity. exact Hscore.
Qed.

Lemma bold_span_is_candidate_witness :
  exists c,
    In c (_find_heading_candidates default_config
            {| page_number := 3; text_blocks := [bold_heading_block] |})
    /\ c_text c = strip (b_text bold_heading_block)
    /\ c_page c = 3
    /\ 2 <= c_score c.
Proof.
  apply (bold_span_is_candidate default_config
           {| page_number := 3; text_blocks := [bold_heading_block] |}
           bold_heading_block).
  - left. reflexivity.
  - vm_compute. split; discriminate.
  - vm_compute. discriminate.
  - vm_compute. discriminate.
Defined.

Lemma flat_map_option_length {A B : Type} (f : A -> option B) (l : list A) :
  (length (flat_map (fun x => match f x with
                              | Some y => [y]
                              | None => []
                              end) l) <= length l)%nat.
Proof.
  induction l as [|x l IH]; simpl; [lia|].
  rewrite length_app. destruct (f x); simpl; lia.
Qed.

Lemma classify_headings_length (candidates : list Candidate)
    (font_analysis : FontAnalysis) :
  (length (_classify_headings candidates font_analysis)
   <= length candidates)%nat.
Proof.
  unfold _classify_headings.
  induction candidates as [|c cs IH]; simpl; [lia|].
  rewrite length_app.
  destruct (_determine_heading_level _ _ _ _ _ _); simpl; lia.
Qed.

Lemma flat_map_length_le {A B C : Type} (f : A -> list B) (g : A -> list C)
    (l : list A) :
  (forall x, (length (f x) <= length (g x))%nat) ->
  (length (flat_map f l) <= length (flat_map g l))%nat.
Proof.
  intro H. induction l as [|x l IH]; simpl; [lia|].
  rewrite !length_app. specialize (H x). lia.
Qed.

(** The outline is a rearrangement of the classified headings (sorting
    neither drops nor repeats an entry), and it never has more entries than
    the document has spans: each span gives at most one candidate and each
    candidate at most one entry. *)
Theorem outline_size (cfg : Config) (pages : list Page) :
  (length (detect_headings cfg pages)
   <= length (flat_map text_blocks pages))%nat
  /\ Permutation
       (_classify_headings
          (flat_map (_find_heading_candidates cfg) pages)
          (_analyze_font_sizes
             (flat_map (_find_heading_candidates cfg) pages)))
       (detect_headings cfg pages).
Proof.
  assert (Hcands :
    (length (flat_map (_find_heading_candidates cfg) pages)
     <= length (flat_map text_blocks pages))%nat).
  { apply flat_map_length_le. intro page. unfold _find_heading_candidates.
    apply flat_map_option_length. }
  unfold detect_headings.
  destruct (flat_map (_find_heading_candidates cfg) pages) as [|c cs] eqn:E.
  - split; [simpl; lia | apply perm_nil].
  - split.
    + rewrite <- (Permutation_length (py_sorted_perm heading_key_leb _)).
      pose proof (classify_headings_length (c :: cs)
                    (_analyze_font_sizes (c :: cs))).
      lia.
    + apply py_sorted_perm.
Qed.

Lemma py_set_In (x : Q) (l : list Q) : In x (py_set l) -> In x l.
Proof.
  revert x. induction l as [|y l IH]; intros x H; simpl in *; [exact H|].
  destruct H as [H|H]; [left; exact H|].
  apply filter_In in H. right. apply IH. apply H.
Qed.

Lemma py_set_covers (x : Q) (l : list Q) :
  In x l -> exists y, In y (py_set l) /\ (x == y)%Q.
Proof.
  induction l as [|z l IH]; intro H; [destruct H|].
  destruct H as [->|H].
  - exists x. split; [left; reflexivity | apply Qeq_refl].
  - destruct (IH H) as [y [Hy Hxy]]. simpl.
    destruct (Qeqb z y) eqn:E.
    + exists z. split; [left; reflexivity|].
      apply Qeq_bool_iff in E. rewrite Hxy. symmetry. exact E.
    + exists y. split; [|exact Hxy]. right. apply filter_In.
      split; [exact Hy | rewrite E; reflexivity].
Qed.

Lemma unique_sizes_head_largest (font_sizes : list Q) (u0 : Q)
    (rest : list Q) :
  unique_sizes_of font_sizes = u0 :: rest ->
  In u0 font_sizes /\ forall s, In s font_sizes -> (s <= u0)%Q.
Proof.
  intro H. pose proof (unique_sizes_descending font_sizes) as Hsorted.
  rewrite H in Hsorted.
  assert (Hrest : Forall (fun b => (b <= u0)%Q) rest).
  { apply (@Sorted_extends _ (fun a b => (b <= a)%Q)); [|exact Hsorted].
    intros a b c Hab Hbc. eapply Qle_trans; eassumption. }
  assert (Hmem : forall y, In y (u0 :: rest) <-> In y (py_set font_sizes)).
  { intro y. rewrite <- H. unfold unique_sizes_of. apply py_sorted_In. }
  split.
  - apply py_set_In. apply Hmem. left. reflexivity.
  - intros s Hs. destruct (py_set_covers s font_sizes Hs) as [y [Hy Hsy]].
    apply Hmem in Hy. rewrite Hsy. destruct Hy as [<-|Hy].
    + apply Qle_refl.
    + rewrite Forall_forall in Hrest. apply Hrest. exact Hy.
Qed.

Lemma unique_sizes_nonempty (s0 : Q) (sizes : list Q) :
  unique_sizes_of (s0 :: sizes) <> [].
Proof.
  intro H.
  assert (Hin : In s0 (unique_sizes_of (s0 :: sizes))).
  { unfold unique_sizes_of. apply py_sorted_In. left. reflexivity. }
  rewrite H in Hin. destruct Hin.
Qed.

Lemma analyze_h1_is_head (candidates : list Candidate) (s0 : Q)
    (sizes : list Q) :
  candidate_font_sizes candidates = s0 :: sizes ->
  exists u0 rest,
    unique_sizes_of (s0 :: sizes) = u0 :: rest
    /\ h1_threshold (_analyze_font_sizes candidates) = u0.
Proof.
  intro H. unfold _analyze_font_sizes. rewrite H.
  pose proof (unique_sizes_nonempty s0 sizes) as Hne.
  destruct (unique_sizes_of (s0 :: sizes)) as [|u0 [|u1 [|u2 rest]]];
    [congruence| | |]; eexists _, _; split; reflexivity.
Qed.

(** When some candidate has a positive font size, [h1_threshold] is the
    largest positive font size among the candidates: some candidate has
    exactly that size and no candidate's size exceeds it. *)
Theorem h1_threshold_is_largest_size (candidates : list Candidate) :
  candidate_font_sizes candidates <> [] ->
  let h1 := h1_threshold (_analyze_font_sizes candidates) in
  (exists c,
      In c candidates /\ font_size (c_features c) = h1 /\ (0 < h1)%Q)
  /\ (forall c, In c candidates -> (font_size (c_features c) <= h1)%Q).
Proof.
  intro Hne.
  destruct (candidate_font_sizes candidates) as [|s0 sizes] eqn:Hsizes;
    [congruence|].
  destruct (analyze_h1_is_head candidates s0 sizes Hsizes)
    as [u0 [rest [Hu Hh1]]].
  cbv zeta. rewrite Hh1.
  destruct (unique_sizes_head_largest _ _ _ Hu) as [Hin Hmax].
  assert (Hpos : (0 < u0)%Q).
  { rewrite <- Hsizes in Hin. unfold candidate_font_sizes in Hin.
    apply filter_In in Hin. apply Qltb_true. apply Hin. }
  split.
  - rewrite <- Hsizes in Hin. unfold candidate_font_sizes in Hin.
    apply filter_In in Hin. destruct Hin as [Hin _].
    apply in_map_iff in Hin. destruct Hin as [c [Hc Hinc]].
    exists c. split; [exact Hinc|]. split; [exact Hc | exact Hpos].
  - intros c Hc.
    destruct (Qltb 0 (font_size (c_features c))) eqn:E.
    + apply Hmax. rewrite <- Hsizes. unfold candidate_font_sizes.
      apply filter_In. split; [|exact E].
      apply in_map_iff. exists c. split; [reflexivity | exact Hc].
    + apply Qltb_false in E. apply Qlt_le_weak in Hpos.
      eapply Qle_trans; eassumption.
Qed.

Lemma h1_threshold_is_largest_size_witness :
  exists c,
    In c (flat_map (_find_heading_candidates default_config) [two_size_page])
    /\ font_size (c_features c)
       = h1_threshold
           (_analyze_font_sizes
              (flat_map (_find_heading_candidates default_config)
                 [two_size_page]))
    /\ (0 < h1_threshold
              (_analyze_font_sizes
                 (flat_map (_find_heading_candidates default_config)
                    [two_size_page])))%Q.
Proof.
  assert (Hne : candidate_font_sizes
                  (flat_map (_find_heading_candidates default_config)
                     [two_size_page]) <> [])
    by (vm_compute; discriminate).
  exact (proj1 (h1_threshold_is_largest_size
                  (flat_map (_find_heading_candidates default_config)
                     [two_size_page]) Hne)).
Defined.

(** The level of a candidate whose [features] carry no ['text'] key, as all
    candidates of [_find_heading_candidates] do. *)
Lemma determine_level_without_text (fs : Q) (pats : list Pattern)
    (features : Features) (h1 h2 h3 : Q) :
  f_text features = None ->
  _determine_heading_level fs pats features h1 h2 h3 =
  if pattern_in sub_numbered pats then Some H2
  else if pattern_in sub_sub_numbered pats then Some H3
  else if pattern_in section_marker pats then Some H1
  else if Qleb h1 fs then
    (if is_bold features then Some H1 else Some H2)
  else if Qleb h2 fs then
    (if is_bold features then Some H2
     else if pattern_in all_caps pats then Some H2 else Some H3)
  else if Qleb h3 fs then
    (if is_bold features
     then (if pattern_in all_caps pats then Some H2 else Some H3)
     else None)
  else None.
Proof.
  intro Hnone. unfold _determine_heading_level, features_get_text.
  rewrite Hnone.
  change (Re.matches Patterns.re_numbered []) with false.
  change (len [] <? 50) with true.
  rewrite andb_false_r, andb_true_r.
  destruct (pattern_in sub_numbered pats); [reflexivity|].
  destruct (pattern_in sub_sub_numbered pats); [reflexivity|].
  destruct (pattern_in section_marker pats); [reflexivity|].
  destruct (Qleb h1 fs), (Qleb h2 fs), (Qleb h3 fs), (is_bold features),
    (pattern_in all_caps pats); reflexivity.
Qed.

(** Where an entry of the outline comes from. *)
Lemma outline_entry_origin (cfg : Config) (pages : list Page) (h : Heading) :
  In h (detect_headings cfg pages) ->
  exists page block c,
    In page pages /\ In block (text_blocks page)
    /\ heading_candidate cfg (page_number page) block = Some c
    /\ h_text h = c_text c /\ h_page h = c_page c
    /\ h_position h = position (c_features c)
    /\ _determine_heading_level (font_size (c_features c))
         (patterns (c_features c)) (c_features c)
         (h1_threshold
            (_analyze_font_sizes
               (flat_map (_find_heading_candidates cfg) pages)))
         (h2_threshold
            (_analyze_font_sizes
               (flat_map (_find_heading_candidates cfg) pages)))
         (h3_threshold
            (_analyze_font_sizes
               (flat_map (_find_heading_candidates cfg) pages)))
       = Some (h_level h).
Proof.
  intro H. apply detect_headings_In in H. apply classify_headings_In in H.
  destruct H as [c [Hc [Htext [Hpage [Hpos Hlevel]]]]].
  apply in_flat_map in Hc. destruct Hc as [page [Hpg Hc]].
  apply find_heading_candidates_In in Hc. destruct Hc as [block [Hb Hc]].
  exists page, block, c. repeat split; assumption.
Qed.

(** An entry is H1 only on explicit evidence: its span starts with a section
    marker ("Chapter", "Section", "Part", "Appendix"), or it is bold and set
    in a size that reaches [h1_threshold].  Plain text is never H1 by its
    size alone. *)
Theorem H1_needs_bold_or_section_marker (cfg : Config) (pages : list Page)
    (h : Heading) :
  In h (detect_headings cfg pages) ->
  h_level h = H1 ->
  exists page block,
    In page pages /\ In block (text_blocks page)
    /\ h_text h = strip (b_text block)
    /\ h_page h = page_number page
    /\ (pattern_in section_marker (_check_text_patterns (strip (b_text block)))
        = true
        \/ (Z.land (b_flags block) 16 <> 0
            /\ (h1_threshold
                  (_analyze_font_sizes
                     (flat_map (_find_heading_candidates cfg) pages))
                <= b_size block)%Q)).
Proof.
  intros Hin Hlevel.
  destruct (outline_entry_origin cfg pages h Hin)
    as [page [block [c [Hpg [Hb [Hc [Ht [Hp [_ Hdet]]]]]]]]].
  destruct (heading_candidate_features _ _ _ _ Hc)
    as [Hct [Hcp [_ [Hfs [Hbold [_ [Hpats Hnone]]]]]]].
  exists page, block. rewrite Ht, Hp, Hct, Hcp.
  repeat split; try assumption.
  rewrite (determine_level_without_text _ _ _ _ _ _ Hnone) in Hdet.
  rewrite Hlevel, Hpats, Hfs, Hbold in Hdet.
  destruct (pattern_in sub_numbered _); [discriminate|].
  destruct (pattern_in sub_sub_numbered _); [discriminate|].
  destruct (pattern_in section_marker _); [left; reflexivity|].
  right.
  destruct (Qleb _ (b_size block)) eqn:E1.
  - destruct (Z.land (b_flags block) 16 =? 0) eqn:Eb; [discriminate|].
    split; [apply Z.eqb_neq; exact Eb | apply Qleb_true; exact E1].
  - exfalso.
    repeat match type of Hdet with
           | (if ?b then _ else _) = _ => destruct b
           end; discriminate.
Qed.

Lemma H1_needs_bold_or_section_marker_witness :
  exists page block,
    In page [two_size_page] /\ In block (text_blocks page)
    /\ lit "Summary of results" = strip (b_text block)
    /\ (pattern_in section_marker (_check_text_patterns (strip (b_text block)))
        = true
        \/ Z.land (b_flags block) 16 <> 0).
Proof.
  assert (Hin : In {| h_level := H1; h_text := lit "Summary of results";
                      h_page := 1; h_position := 90 # 1 |}
                  (detect_headings default_config [two_size_page])).
  { vm_compute. left. reflexivity. }
  destruct (H1_needs_bold_or_section_marker default_config [two_size_page]
              _ Hin eq_refl)
    as [page [block [Hp [Hb [Ht [_ Hev]]]]]].
  exists page, block. repeat split; try assumption.
  destruct Hev as [Hev|[Hev _]]; [left | right]; exact Hev.
Defined.

(** The entry that a candidate gives at a level. *)
Lemma candidate_entry_in_outline (cfg : Config) (pages : list Page)
    (c : Candidate) (level : Level) :
  In c (flat_map (_find_heading_candidates cfg) pages) ->
  _determine_heading_level (font_size (c_features c))
    (patterns (c_features c)) (c_features c)
    (h1_threshold
       (_analyze_font_sizes (flat_map (_find_heading_candidates cfg) pages)))
    (h2_threshold
       (_analyze_font_sizes (flat_map (_find_heading_candidates cfg) pages)))
    (h3_threshold
       (_analyze_font_sizes (flat_map (_find_heading_candidates cfg) pages)))
  = Some level ->
  In {| h_level := level; h_text := c_text c; h_page := c_page c;
        h_position := position (c_features c) |}
    (detect_headings cfg pages).
Proof.
  intros Hc Hlevel. unfold detect_headings.
  destruct (flat_map (_find_heading_candidates cfg) pages) as [|c0 cs] eqn:E;
    [destruct Hc|].
  apply py_sorted_In. unfold _classify_headings. apply in_flat_map.
  exists c. split; [exact Hc|]. cbv zeta. rewrite Hlevel. left. reflexivity.
Qed.

Lemma pipeline_candidate_has_no_text (cfg : Config) (pages : list Page)
    (c : Candidate) :
  In c (flat_map (_find_heading_candidates cfg) pages) ->
  f_text (c_features c) = None.
Proof.
  intro Hc. apply in_flat_map in Hc. destruct Hc as [page [_ Hc]].
  apply find_heading_candidates_In in Hc. destruct Hc as [block [_ Hc]].
  apply heading_candidate_features in Hc. apply Hc.
Qed.

(** For the candidates of a document, the sub-numbering and section-marker
    patterns decide the level whatever the font size and the style, and the
    candidate is always emitted: [sub_numbered] gives H2; otherwise
    [sub_sub_numbered] gives H3; otherwise [section_marker] gives H1. *)
Theorem pattern_rules_decide_level (cfg : Config) (pages : list Page)
    (c : Candidate) :
  In c (flat_map (_find_heading_candidates cfg) pages) ->
  let entry level :=
    {| h_level := level; h_text := c_text c; h_page := c_page c;
       h_position := position (c_features c) |} in
  (pattern_in sub_numbered (patterns (c_features c)) = true ->
   In (entry H2) (detect_headings cfg pages))
  /\ (pattern_in sub_numbered (patterns (c_features c)) = false ->
      pattern_in sub_sub_numbered (patterns (c_features c)) = true ->
      In (entry H3) (detect_headings cfg pages))
  /\ (pattern_in sub_numbered (patterns (c_features c)) = false ->
      pattern_in sub_sub_numbered (patterns (c_features c)) = false ->
      pattern_in section_marker (patterns (c_features c)) = true ->
      In (entry H1) (detect_headings cfg pages)).
Proof.
  intro Hc. cbv zeta.
  pose proof (pipeline_candidate_has_no_text cfg pages c Hc) as Hnone.
  repeat split; intros;
    apply candidate_entry_in_outline; try exact Hc;
    rewrite (determine_level_without_text _ _ _ _ _ _ Hnone);
    repeat match goal with
           | H : pattern_in _ _ = _ |- _ => rewrite H; clear H
           end; reflexivity.
Qed.

(** A page with the plain sub-numbered line "2.1 Background" in 12 point
    type under a larger bold heading. *)
Lemma pattern_rules_decide_level_witness :
  In {| h_level := H2; h_text := lit "2.1 Background"; h_page := 1;
        h_position := 130 # 1 |}
    (detect_headings default_config
       [{| page_number := 1;
           text_blocks :=
             [{| b_text := lit "Summary of results";
                 b_font := lit "Helvetica-Bold";
                 b_size := 18 # 1; b_flags := 16;
                 b_bbox := {| left := 72 # 1; top := 90 # 1;
                              right := 240 # 1; bottom := 106 # 1 |} |};
              {| b_text := lit "2.1 Background"; b_font := lit "Helvetica";
                 b_size := 12 # 1; b_flags := 0;
                 b_bbox := {| left := 72 # 1; top := 130 # 1;
                              right := 180 # 1; bottom := 144 # 1 |} |}] |}]).
Proof.
  set (pages :=
         [{| page_number := 1;
             text_blocks :=
               [{| b_text := lit "Summary of results";
                   b_font := lit "Helvetica-Bold";
                   b_size := 18 # 1; b_flags := 16;
                   b_bbox := {| left := 72 # 1; top := 90 # 1;
                                right := 240 # 1; bottom := 106 # 1 |} |};
                {| b_text := lit "2.1 Background"; b_font := lit "Helvetica";
                   b_size := 12 # 1; b_flags := 0;
                   b_bbox := {| left := 72 # 1; top := 130 # 1;
                                right := 180 # 1; bottom := 144 # 1 |} |}] |}]).
  set (c := {| c_text := lit "2.1 Background"; c_page := 1; c_score := 4;
               c_features :=
                 {| font_size := 12 # 1; is_bold := false; is_italic := false;
                    left_margin := 72 # 1; top_position := 130 # 1;
                    position := 130 # 1;
                    patterns := [sub_numbered; title_case];
                    f_text := None |} |}).
  assert (Hc : In c (flat_map (_find_heading_candidates default_config) pages)).
  { vm_compute. right. left. reflexivity. }
  apply (proj1 (pattern_rules_decide_level default_config pages c Hc)).
  reflexivity.
Defined.

(** Every entry that is not placed by a sub-numbering or section-marker
    pattern has font-size evidence: the size of its span reaches
    [h1_threshold] or [h2_threshold], or it reaches [h3_threshold] and the
    span is bold.  A span below all three thresholds, and a plain span below
    the first two, is never emitted on its size. *)
Theorem entry_needs_pattern_or_size (cfg : Config) (pages : list Page)
    (h : Heading) :
  In h (detect_headings cfg pages) ->
  exists page block,
    In page pages /\ In block (text_blocks page)
    /\ h_text h = strip (b_text block)
    /\ h_page h = page_number page
    /\ let pats := _check_text_patterns (strip (b_text block)) in
       let analysis :=
         _analyze_font_sizes (flat_map (_find_heading_candidates cfg) pages) in
       pattern_in sub_numbered pats = true
       \/ pattern_in sub_sub_numbered pats = true
       \/ pattern_in section_marker pats = true
       \/ (h1_threshold analysis <= b_size block)%Q
       \/ (h2_threshold analysis <= b_size block)%Q
       \/ ((h3_threshold analysis <= b_size block)%Q
           /\ Z.land (b_flags block) 16 <> 0).
Proof.
  intro Hin.
  destruct (outline_entry_origin cfg pages h Hin)
    as [page [block [c [Hpg [Hb [Hc [Ht [Hp [_ Hdet]]]]]]]]].
  destruct (heading_candidate_features _ _ _ _ Hc)
    as [Hct [Hcp [_ [Hfs [Hbold [_ [Hpats Hnone]]]]]]].
  exists page, block. rewrite Ht, Hp, Hct, Hcp.
  repeat split; try assumption. cbv zeta.
  rewrite (determine_level_without_text _ _ _ _ _ _ Hnone) in Hdet.
  rewrite Hpats, Hfs, Hbold in Hdet.
  destruct (pattern_in sub_numbered _); [left; reflexivity|].
  destruct (pattern_in sub_sub_numbered _); [right; left; reflexivity|].
  destruct (pattern_in section_marker _); [right; right; left; reflexivity|].
  right; right; right.
  set (analysis :=
         _analyze_font_sizes (flat_map (_find_heading_candidates cfg) pages))
    in *.
  destruct (Qleb (h1_threshold analysis) (b_size block)) eqn:E1;
    [left; apply Qleb_true; exact E1|].
  destruct (Qleb (h2_threshold analysis) (b_size block)) eqn:E2;
    [right; left; apply Qleb_true; exact E2|].
  destruct (Qleb (h3_threshold analysis) (b_size block)) eqn:E3;
    [|discriminate].
  destruct (Z.land (b_flags block) 16 =? 0) eqn:Eb; [discriminate|].
  right; right. split; [apply Qleb_true; exact E3 | apply Z.eqb_neq; exact Eb].
Qed.

Lemma entry_needs_pattern_or_size_witness :
  exists page block,
    In page [two_size_page] /\ In block (text_blocks page)
    /\ lit "Method" = strip (b_text block).
Proof.
  assert (Hin : In {| h_level := H2; h_text := lit "Method";
                      h_page := 1; h_position := 130 # 1 |}
                  (detect_headings default_config [two_size_page])).
  { vm_compute. right. left. reflexivity. }
  destruct (entry_needs_pattern_or_size default_config [two_size_page] _ Hin)
    as [page [block [Hp [Hb [Ht _]]]]].
  exists page, block. repeat split; assumption.
Defined.

(** ** The text patterns *)

Lemma matches_Empty (s : str) : Re.matches Re.Empty s = false.
Proof. induction s as [|c s IH]; simpl; [reflexivity | exact IH]. Qed.

(** A pattern that does not match the empty string and dies on every
    character outside [first] only matches strings that start in [first]. *)
Lemma matches_first_char (r : Re.re) (first : ascii -> bool) (s : str) :
  Re.nullable r = false ->
  (forall c, first c = false -> Re.deriv c r = Re.Empty) ->
  Re.matches r s = true -> first_char_in first s = true.
Proof.
  intros Hnull Hdie H. destruct s as [|c s]; simpl in *.
  - rewrite Hnull in H. discriminate H.
  - rewrite Hnull in H. simpl in H.
    destruct (first c) eqn:E; [reflexivity|].
    rewrite (Hdie c E), matches_Empty in H. discriminate H.
Qed.

Lemma numbered_starts_with_digit (s : str) :
  Re.matches Patterns.re_numbered s = true ->
  first_char_in isdecimal s = true.
Proof.
  apply matches_first_char; [reflexivity|].
  intros c H. cbn. rewrite H. reflexivity.
Qed.

Lemma sub_numbered_starts_with_digit (s : str) :
  Re.matches Patterns.re_sub_numbered s = true ->
  first_char_in isdecimal s = true.
Proof.
  apply matches_first_char; [reflexivity|].
  intros c H. cbn. rewrite H. reflexivity.
Qed.

Lemma sub_sub_numbered_starts_with_digit (s : str) :
  Re.matches Patterns.re_sub_sub_numbered s = true ->
  first_char_in isdecimal s = true.
Proof.
  apply matches_first_char; [reflexivity|].
  intros c H. cbn. rewrite H. reflexivity.
Qed.

Lemma lettered_starts_with_capital (s : str) :
  Re.matches Patterns.re_lettered s = true -> first_char_in is_AZ s = true.
Proof.
  apply matches_first_char; [reflexivity|].
  intros c H. cbn. rewrite H. reflexivity.
Qed.

Lemma lower_lettered_starts_with_small (s : str) :
  Re.matches Patterns.re_lower_lettered s = true ->
  first_char_in is_az s = true.
Proof.
  apply matches_first_char; [reflexivity|].
  intros c H. cbn. rewrite H. reflexivity.
Qed.

Lemma roman_starts_with_numeral (s : str) :
  Re.matches Patterns.re_roman s = true -> first_char_in is_roman s = true.
Proof.
  apply matches_first_char; [reflexivity|].
  intros c H. unfold is_roman in H. cbn. rewrite H. reflexivity.
Qed.

Lemma section_marker_starts_with_initial (s : str) :
  Re.matches Patterns.re_section_marker s = true ->
  first_char_in is_marker_initial s = true.
Proof.
  apply matches_first_char; [reflexivity|].
  intros c H. unfold is_marker_initial in H.
  apply orb_false_iff in H. destruct H as [H Ha].
  apply orb_false_iff in H. destruct H as [H Hp].
  apply orb_false_iff in H. destruct H as [Hc Hs].
  unfold Patterns.re_section_marker.
  change (Re.LitI (lit "Chapter"))
    with (Re.Seq (Re.Cls (fun x => Ascii.eqb (ch_lower x) "c"%char))
            (Re.LitI (lit "hapter"))).
  change (Re.LitI (lit "Section"))
    with (Re.Seq (Re.Cls (fun x => Ascii.eqb (ch_lower x) "s"%char))
            (Re.LitI (lit "ection"))).
  change (Re.LitI (lit "Part"))
    with (Re.Seq (Re.Cls (fun x => Ascii.eqb (ch_lower x) "p"%char))
            (Re.LitI (lit "art"))).
  change (Re.LitI (lit "Appendix"))
    with (Re.Seq (Re.Cls (fun x => Ascii.eqb (ch_lower x) "a"%char))
            (Re.LitI (lit "ppendix"))).
  cbn [Re.deriv Re.nullable Re.Plus andb orb].
  rewrite Hc, Hs, Hp, Ha. reflexivity.
Qed.

Lemma char_classes_disjoint (c : ascii) :
  (isdecimal c = true ->
   is_AZ c = false /\ is_az c = false /\ is_roman c = false
   /\ is_marker_initial c = false /\ isspace c = false /\ is_dot c = false)
  /\ (is_AZ c = true -> is_az c = false)
  /\ (isspace c = true -> is_dot c = false).
Proof.
  destruct c as [[|] [|] [|] [|] [|] [|] [|] [|]]; vm_compute;
    repeat split; intros; congruence.
Qed.

(** Each pattern is listed exactly when its own test succeeds. *)
Lemma check_text_patterns_mem (text : str) :
  let pats := _check_text_patterns text in
  pattern_in numbered pats = Re.matches Patterns.re_numbered text
  /\ pattern_in sub_numbered pats = Re.matches Patterns.re_sub_numbered text
  /\ pattern_in sub_sub_numbered pats
     = Re.matches Patterns.re_sub_sub_numbered text
  /\ pattern_in lettered pats = Re.matches Patterns.re_lettered text
  /\ pattern_in lower_lettered pats
     = Re.matches Patterns.re_lower_lettered text
  /\ pattern_in all_caps pats
     = (isupper text && (Z.of_nat (length (split text)) <=? 8))
  /\ pattern_in title_case pats = istitle text
  /\ pattern_in roman pats = Re.matches Patterns.re_roman text
  /\ pattern_in section_marker pats
     = Re.matches Patterns.re_section_marker text.
Proof.
  unfold _check_text_patterns, append_if. cbv zeta.
  destruct (Re.matches Patterns.re_numbered text),
    (Re.matches Patterns.re_sub_numbered text),
    (Re.matches Patterns.re_sub_sub_numbered text),
    (Re.matches Patterns.re_lettered text),
    (Re.matches Patterns.re_lower_lettered text),
    (isupper text && (Z.of_nat (length (split text)) <=? 8)),
    (istitle text),
    (Re.matches Patterns.re_roman text),
    (Re.matches Patterns.re_section_marker text);
    repeat split; reflexivity.
Qed.

Lemma first_char_in_disjoint (p q : ascii -> bool) (s : str) :
  (forall c, p c = true -> q c = false) ->
  first_char_in p s = true -> first_char_in q s = false.
Proof.
  intros H Hp. destruct s as [|c s]; [reflexivity|]. simpl in *.
  apply H. exact Hp.
Qed.

(** A text that matches one of the three numbering patterns matches none of
    [lettered], [lower_lettered], [roman] and [section_marker], and no text
    is both [lettered] and [lower_lettered]: these patterns are told apart
    by the first character of the text. *)
Theorem numbering_excludes_lettering (text : str) :
  let pats := _check_text_patterns text in
  (pattern_in numbered pats = true \/ pattern_in sub_numbered pats = true
   \/ pattern_in sub_sub_numbered pats = true ->
   pattern_in lettered pats = false /\ pattern_in lower_lettered pats = false
   /\ pattern_in roman pats = false /\ pattern_in section_marker pats = false)
  /\ (pattern_in lettered pats = true ->
      pattern_in lower_lettered pats = false).
Proof.
  cbv zeta.
  destruct (check_text_patterns_mem text)
    as [Hn [Hs [Hss [Hl [Hll [_ [_ [Hr Hm]]]]]]]].
  cbv zeta in *. rewrite Hn, Hs, Hss, Hl, Hll, Hr, Hm. split.
  - intro H.
    assert (Hd : first_char_in isdecimal text = true).
    { destruct H as [H|[H|H]];
        [apply numbered_starts_with_digit
        | apply sub_numbered_starts_with_digit
        | apply sub_sub_numbered_starts_with_digit]; exact H. }
    repeat split.
    + destruct (Re.matches Patterns.re_lettered text) eqn:E; [|reflexivity].
      apply lettered_starts_with_capital in E.
      rewrite (first_char_in_disjoint isdecimal is_AZ text) in E;
        [discriminate | | exact Hd].
      intros c Hc. apply (proj1 (char_classes_disjoint c) Hc).
    + destruct (Re.matches Patterns.re_lower_lettered text) eqn:E;
        [|reflexivity].
      apply lower_lettered_starts_with_small in E.
      rewrite (first_char_in_disjoint isdecimal is_az text) in E;
        [discriminate | | exact Hd].
      intros c Hc. apply (proj1 (char_classes_disjoint c) Hc).
    + destruct (Re.matches Patterns.re_roman text) eqn:E; [|reflexivity].
      apply roman_starts_with_numeral in E.
      rewrite (first_char_in_disjoint isdecimal is_roman text) in E;
        [discriminate | | exact Hd].
      intros c Hc. apply (proj1 (char_classes_disjoint c) Hc).
    + destruct (Re.matches Patterns.re_section_marker text) eqn:E;
        [|reflexivity].
      apply section_marker_starts_with_initial in E.
      rewrite (first_char_in_disjoint isdecimal is_marker_initial text) in E;
        [discriminate | | exact Hd].
      intros c Hc. apply (proj1 (char_classes_disjoint c) Hc).
  - intro H. apply lettered_starts_with_capital in H.
    destruct (Re.matches Patterns.re_lower_lettered text) eqn:E;
      [|reflexivity].
    apply lower_lettered_starts_with_small in E.
    rewrite (first_char_in_disjoint is_AZ is_az text) in E;
      [discriminate | | exact H].
    intros c Hc. apply (proj1 (proj2 (char_classes_disjoint c)) Hc).
Qed.

Lemma numbering_excludes_lettering_witness :
  pattern_in lettered (_check_text_patterns (lit "2.1 Background")) = false
  /\ pattern_in lower_lettered (_check_text_patterns (lit "2.1 Background"))
     = false
  /\ pattern_in roman (_check_text_patterns (lit "2.1 Background")) = false
  /\ pattern_in section_marker (_check_text_patterns (lit "2.1 Background"))
     = false.
Proof.
  apply (proj1 (numbering_excludes_lettering (lit "2.1 Background"))).
  right. left. vm_compute. reflexivity.
Defined.

Lemma lang_cls_inv (p : ascii -> bool) (s : str) :
  Re.lang (Re.Cls p) s -> exists c, s = [c] /\ p c = true.
Proof. intro H. inversion H; subst. eexists. split; [reflexivity|assumption]. Qed.

Lemma lang_star_cls (p : ascii -> bool) (s : str) :
  Re.lang (Re.Star (Re.Cls p)) s -> forallb p s = true.
Proof.
  intro H. remember (Re.Star (Re.Cls p)) as r eqn:Er.
  induction H as [| | | | | |a s1 s2 H1 _ H2 IH2]; try discriminate.
  - reflexivity.
  - injection Er as ->. apply lang_cls_inv in H1.
    destruct H1 as [c [-> Hc]]. simpl. rewrite Hc. apply IH2. reflexivity.
Qed.

Lemma lang_plus_cls (p : ascii -> bool) (s : str) :
  Re.lang (Re.Plus (Re.Cls p)) s -> s <> [] /\ forallb p s = true.
Proof.
  intro H. apply lang_seq_inv in H. destruct H as [s1 [s2 [-> [H1 H2]]]].
  apply lang_cls_inv in H1. destruct H1 as [c [-> Hc]].
  apply lang_star_cls in H2. simpl. rewrite Hc, H2.
  split; [discriminate | reflexivity].
Qed.

Lemma matches_seq_split (a b : Re.re) (s : str) :
  Re.matches (Re.Seq a b) s = true ->
  exists p t, s = p ++ t /\ Re.lang a p /\ Re.matches b t = true.
Proof.
  intro H. apply matches_lang in H. destruct H as [p [q [-> H]]].
  apply lang_seq_inv in H. destruct H as [p1 [p2 [-> [Ha Hb]]]].
  exists p1, (p2 ++ q). split; [apply eq_sym, app_assoc|].
  split; [exact Ha|]. apply matches_lang. exists p2, q.
  split; [reflexivity | exact Hb].
Qed.

(** A numbered text is a run of digits followed by whitespace, or by a dot
    and whitespace. *)
Lemma numbered_shape (s : str) :
  Re.matches Patterns.re_numbered s = true ->
  exists ds t,
    s = ds ++ t /\ ds <> [] /\ forallb isdecimal ds = true
    /\ (first_char_in isspace t = true
        \/ exists t', t = "."%char :: t' /\ first_char_in isspace t' = true).
Proof.
  intro H. unfold Patterns.re_numbered in H.
  apply matches_seq_split in H. destruct H as [ds [t [-> [Hds Ht]]]].
  apply lang_plus_cls in Hds. destruct Hds as [Hne Hds].
  exists ds, t. split; [reflexivity|]. split; [exact Hne|].
  split; [exact Hds|].
  apply matches_seq_split in Ht. destruct Ht as [o [t' [-> [Ho Ht']]]].
  assert (Hsp : first_char_in isspace t' = true).
  { apply (matches_first_char (Re.Plus Re.Space)); [reflexivity | | exact Ht'].
    intros c Hc. cbn. unfold Re.Space. cbn. rewrite Hc. reflexivity. }
  apply lang_alt_inv in Ho. destruct Ho as [Ho|Ho].
  - apply lang_cls_inv in Ho. destruct Ho as [c [-> Hc]].
    apply Ascii.eqb_eq in Hc. subst c. right. exists t'.
    split; [reflexivity | exact Hsp].
  - inversion Ho; subst. left. exact Hsp.
Qed.

(** A text that matches digits, a dot and then [x]. *)
Lemma dotted_shape (x : Re.re) (s : str) :
  Re.matches (Re.Seq (Re.Plus Re.Digit) (Re.Seq Re.Dot x)) s = true ->
  exists ds t,
    s = ds ++ "."%char :: t /\ ds <> [] /\ forallb isdecimal ds = true
    /\ Re.matches x t = true.
Proof.
  intro H. apply matches_seq_split in H. destruct H as [ds [t [-> [Hds Ht]]]].
  apply lang_plus_cls in Hds. destruct Hds as [Hne Hds].
  apply matches_seq_split in Ht. destruct Ht as [o [t' [-> [Ho Ht']]]].
  apply lang_cls_inv in Ho. destruct Ho as [c [-> Hc]].
  apply Ascii.eqb_eq in Hc. subst c.
  exists ds, t'. repeat split; assumption.
Qed.

(** The run of digits at the start of a string is determined by the
    string. *)
Lemma digit_run_unique (ds1 ds2 t1 t2 : str) :
  ds1 ++ t1 = ds2 ++ t2 ->
  forallb isdecimal ds1 = true -> forallb isdecimal ds2 = true ->
  first_char_in isdecimal t1 = false -> first_char_in isdecimal t2 = false ->
  ds1 = ds2 /\ t1 = t2.
Proof.
  revert ds2. induction ds1 as [|c ds1 IH]; intros ds2 H H1 H2 Ht1 Ht2.
  - destruct ds2 as [|d ds2]; [split; [reflexivity | exact H]|].
    exfalso. simpl in H. subst t1. simpl in Ht1, H2.
    apply andb_true_iff in H2. destruct H2 as [Hd _]. congruence.
  - destruct ds2 as [|d ds2].
    + exfalso. simpl in H. subst t2. simpl in Ht2, H1.
      apply andb_true_iff in H1. destruct H1 as [Hc _]. congruence.
    + simpl in H. injection H as -> H. simpl in H1, H2.
      apply andb_true_iff in H1. destruct H1 as [_ H1].
      apply andb_true_iff in H2. destruct H2 as [_ H2].
      destruct (IH ds2 H H1 H2 Ht1 Ht2) as [-> ->].
      split; reflexivity.
Qed.

Lemma numbered_not_dotted (x : Re.re) (s : str) :
  (forall t, Re.matches x t = true -> first_char_in isdecimal t = true) ->
  Re.matches Patterns.re_numbered s = true ->
  Re.matches (Re.Seq (Re.Plus Re.Digit) (Re.Seq Re.Dot x)) s = true ->
  False.
Proof.
  intros Hx Hn Hd.
  apply numbered_shape in Hn.
  destruct Hn as [ds1 [t1 [Hs1 [_ [Hds1 Ht1]]]]].
  apply dotted_shape in Hd.
  destruct Hd as [ds2 [t2 [Hs2 [_ [Hds2 Ht2]]]]].
  apply Hx in Ht2.
  assert (Hnd : first_char_in isdecimal t1 = false).
  { destruct Ht1 as [Ht1|[t' [-> _]]]; [|reflexivity].
    apply (first_char_in_disjoint isspace isdecimal); [|exact Ht1].
    intros c Hc. destruct (isdecimal c) eqn:E; [|reflexivity].
    apply (proj1 (char_classes_disjoint c)) in E. destruct E as [_ [_ [_ [_ [E _]]]]].
    congruence. }
  rewrite Hs1 in Hs2.
  destruct (digit_run_unique _ _ _ _ Hs2 Hds1 Hds2 Hnd eq_refl) as [_ Ht].
  destruct Ht1 as [Ht1|[t' [Ht1 Hsp]]].
  - rewrite Ht in Ht1. discriminate Ht1.
  - rewrite Ht1 in Ht. injection Ht as ->.
    rewrite (first_char_in_disjoint isdecimal isspace t2) in Hsp;
      [discriminate | | exact Ht2].
    intros c Hc. apply (proj1 (char_classes_disjoint c) Hc).
Qed.

(** A text matches at most one of the three numbering patterns, so the order
    in which the level rules test them never matters. *)
Theorem numbering_patterns_exclusive (text : str) :
  let pats := _check_text_patterns text in
  (pattern_in numbered pats = true ->
   pattern_in sub_numbered pats = false
   /\ pattern_in sub_sub_numbered pats = false)
  /\ (pattern_in sub_numbered pats = true ->
      pattern_in sub_sub_numbered pats = false).
Proof.
  cbv zeta.
  destruct (check_text_patterns_mem text) as [Hn [Hs [Hss _]]].
  cbv zeta in *. rewrite Hn, Hs, Hss. split.
  - intro H. split.
    + destruct (Re.matches Patterns.re_sub_numbered text) eqn:E;
        [|reflexivity].
      exfalso.
      exact (numbered_not_dotted Patterns.re_numbered text
               numbered_starts_with_digit H E).
    + destruct (Re.matches Patterns.re_sub_sub_numbered text) eqn:E;
        [|reflexivity].
      exfalso.
      exact (numbered_not_dotted Patterns.re_sub_numbered text
               sub_numbered_starts_with_digit H E).
  - intro H.
    destruct (Re.matches Patterns.re_sub_sub_numbered text) eqn:E;
      [|reflexivity].
    exfalso.
    apply (dotted_shape Patterns.re_numbered) in H.
    destruct H as [ds1 [t1 [Hs1 [_ [Hds1 Ht1]]]]].
    apply (dotted_shape Patterns.re_sub_numbered) in E.
    destruct E as [ds2 [t2 [Hs2 [_ [Hds2 Ht2]]]]].
    rewrite Hs1 in Hs2.
    destruct (digit_run_unique _ _ _ _ Hs2 Hds1 Hds2 eq_refl eq_refl)
      as [_ Ht].
    injection Ht as ->.
    exact (numbered_not_dotted Patterns.re_numbered t2
             numbered_starts_with_digit Ht1 Ht2).
Qed.

Lemma numbering_patterns_exclusive_witness :
  pattern_in sub_numbered (_check_text_patterns (lit "1. Introduction"))
  = false
  /\ pattern_in sub_sub_numbered (_check_text_patterns (lit "1. Introduction"))
     = false.
Proof.
  apply (proj1 (numbering_patterns_exclusive (lit "1. Introduction"))).
  vm_compute. reflexivity.
Defined.

(** * Further properties of the title extractor *)

Lemma top_leb_total (a b : Block) : top_leb a b = false -> top_leb b a = true.
Proof. unfold top_leb. apply Qleb_total. Qed.

(** The text picked after the sort by top coordinate belongs to a block of
    the list that no other block of the list lies above. *)
Lemma topmost_text_spec (blocks : list Block) :
  (topmost_text blocks = None <-> blocks = [])
  /\ (forall t,
         topmost_text blocks = Some t ->
         exists b,
           In b blocks /\ b_text b = t
           /\ forall b', In b' blocks ->
                         (top (b_bbox b) <= top (b_bbox b'))%Q).
Proof.
  unfold topmost_text.
  pose proof (py_sorted_Sorted top_leb top_leb_total blocks) as Hsorted.
  pose proof (fun x => py_sorted_In top_leb x blocks) as Hmem.
  destruct (py_sorted top_leb blocks) as [|b rest].
  - split.
    + split; [intros _ | reflexivity].
      destruct blocks as [|x blocks]; [reflexivity|].
      destruct (proj2 (Hmem x) (or_introl eq_refl)).
    + intros t H. discriminate H.
  - split.
    + split; [discriminate|]. intros ->.
      destruct (proj1 (Hmem b) (or_introl eq_refl)).
    + intros t H. injection H as <-. exists b.
      split; [apply Hmem; left; reflexivity|]. split; [reflexivity|].
      intros b' Hb'. apply Hmem in Hb'. destruct Hb' as [<-|Hb'].
      * apply Qle_refl.
      * assert (Hall : Forall (fun x => top_leb b x = true) rest).
        { apply (@Sorted_extends _ (fun x y => top_leb x y = true));
            [|exact Hsorted].
          intros x y z Hxy Hyz. unfold top_leb in *.
          apply Qleb_true. apply Qleb_true in Hxy. apply Qleb_true in Hyz.
          eapply Qle_trans; eassumption. }
        rewrite Forall_forall in Hall. apply Qleb_true.
        apply (Hall b' Hb').
Qed.

(** The same for the blocks that pass a test. *)
Lemma topmost_filter_spec (p : Block -> bool) (blocks : list Block) :
  (topmost_text (filter p blocks) = None <->
   forall b, In b blocks -> p b = false)
  /\ (forall t,
         topmost_text (filter p blocks) = Some t ->
         exists b,
           In b blocks /\ p b = true /\ b_text b = t
           /\ forall b', In b' blocks -> p b' = true ->
                         (top (b_bbox b) <= top (b_bbox b'))%Q).
Proof.
  destruct (topmost_text_spec (filter p blocks)) as [Hnone Hsome]. split.
  - rewrite Hnone. split.
    + intros H b Hb. destruct (p b) eqn:E; [|reflexivity].
      assert (Hin : In b (filter p blocks)) by (apply filter_In; auto).
      rewrite H in Hin. destruct Hin.
    + intro H. destruct (filter p blocks) as [|b l] eqn:E; [reflexivity|].
      assert (Hin : In b (filter p blocks)) by (rewrite E; left; reflexivity).
      apply filter_In in Hin. destruct Hin as [Hin Hp].
      rewrite (H b Hin) in Hp. discriminate Hp.
  - intros t Ht. destruct (Hsome t Ht) as [b [Hb [Htext Hmin]]].
    apply filter_In in Hb. destruct Hb as [Hb Hp].
    exists b. repeat split; try assumption.
    intros b' Hb' Hp'. apply Hmin. apply filter_In. auto.
Qed.

(** [_find_by_style] returns nothing exactly when no block in the upper 200
    units is bold by its flags or by its font name; otherwise it returns the
    text of such a block, and no other such block lies above it. *)
Theorem find_by_style_topmost_bold (text_blocks : list Block) :
  let styled b :=
    (Z.land (b_flags b) 16 <> 0 \/ font_bold (b_font b) = true)
    /\ (top (b_bbox b) < 200)%Q in
  (_find_by_style text_blocks = None <->
   forall b, In b text_blocks -> ~ styled b)
  /\ (forall t,
         _find_by_style text_blocks = Some t ->
         exists b,
           In b text_blocks /\ styled b /\ b_text b = t
           /\ forall b', In b' text_blocks -> styled b' ->
                         (top (b_bbox b) <= top (b_bbox b'))%Q).
Proof.
  cbv zeta. unfold _find_by_style.
  set (p := fun block =>
              (negb (Z.land (b_flags block) 16 =? 0) || font_bold (b_font block))
              && Qltb (top (b_bbox block)) (200 # 1)).
  assert (Hp : forall b,
             p b = true <->
             (Z.land (b_flags b) 16 <> 0 \/ font_bold (b_font b) = true)
             /\ (top (b_bbox b) < 200)%Q).
  { intro b. unfold p.
    rewrite andb_true_iff, orb_true_iff, negb_true_iff, Z.eqb_neq, Qltb_true.
    reflexivity. }
  destruct (topmost_filter_spec p text_blocks) as [Hnone Hsome]. split.
  - rewrite Hnone. split.
    + intros H b Hb Hs. apply Hp in Hs. rewrite (H b Hb) in Hs. discriminate.
    + intros H b Hb. destruct (p b) eqn:E; [|reflexivity].
      exfalso. apply (H b Hb). apply Hp. exact E.
  - intros t Ht. destruct (Hsome t Ht) as [b [Hb [Hpb [Htext Hmin]]]].
    exists b. split; [exact Hb|]. split; [apply Hp; exact Hpb|].
    split; [exact Htext|]. intros b' Hb' Hs. apply Hmin; [exact Hb'|].
    apply Hp. exact Hs.
Qed.

Lemma find_by_style_topmost_bold_witness :
  exists b,
    In b (text_blocks two_size_page)
    /\ b_text b = lit "Summary of results"
    /\ (top (b_bbox b) < 200)%Q.
Proof.
  destruct (proj2 (find_by_style_topmost_bold (text_blocks two_size_page))
              (lit "Summary of results") eq_refl)
    as [b [Hb [[_ Htop] [Htext _]]]].
  exists b. repeat split; assumption.
Defined.

Lemma py_max_list_spec (l : list Q) (x : Q) :
  In (py_max_list x l) (x :: l)
  /\ forall y, In y (x :: l) -> (y <= py_max_list x l)%Q.
Proof.
  unfold py_max_list. revert x. induction l as [|z l IH]; intro x; simpl.
  - split; [left; reflexivity|]. intros y [<-|[]]. apply Qle_refl.
  - destruct (IH (if Qltb x z then z else x)) as [Hin Hmax]. split.
    + destruct Hin as [Hin|Hin]; [|right; right; exact Hin].
      rewrite <- Hin. destruct (Qltb x z); [right; left | left]; reflexivity.
    + intros y Hy.
      assert (Hstep : (x <= (if Qltb x z then z else x))%Q
                      /\ (z <= (if Qltb x z then z else x))%Q).
      { destruct (Qltb x z) eqn:E.
        - apply Qltb_true in E. split; [apply Qlt_le_weak; exact E|].
          apply Qle_refl.
        - apply Qltb_false in E. split; [apply Qle_refl | exact E]. }
      destruct Hstep as [Hx Hz].
      destruct Hy as [<-|[<-|Hy]].
      * eapply Qle_trans; [exact Hx|]. apply Hmax. left. reflexivity.
      * eapply Qle_trans; [exact Hz|]. apply Hmax. left. reflexivity.
      * apply Hmax. right. exact Hy.
Qed.

Lemma near_size_self (b : Block) : near_size (b_size b) b = true.
Proof.
  unfold near_size, PyFloat.sub, PyFloat.opp, PyFloat.add, PyFloat.round.
  replace (Qnum (b_size b + - b_size b)) with 0
    by (destruct (b_size b) as [n d]; cbn [Qplus Qopp Qnum Qden]; lia).
  reflexivity.
Qed.

(** [_find_by_font_size] returns nothing exactly when no block has a
    positive font size.  Otherwise there is a largest positive size [m] on
    the page, and the text returned belongs to a block that passes the test
    [abs(size - m) < 0.1] as the doubles decide it; no other block that
    passes the test lies above it, in particular no block of size [m]. *)
Theorem find_by_font_size_largest (text_blocks : list Block) :
  (_find_by_font_size text_blocks = None <->
   forall b, In b text_blocks -> ~ (0 < b_size b)%Q)
  /\ (forall t,
         _find_by_font_size text_blocks = Some t ->
         exists b m,
           In b text_blocks /\ b_text b = t
           /\ (exists b0, In b0 text_blocks /\ b_size b0 = m /\ (0 < m)%Q)
           /\ (forall b', In b' text_blocks -> (0 < b_size b')%Q ->
                          (b_size b' <= m)%Q)
           /\ near_size m b = true
           /\ (forall b', In b' text_blocks ->
                          near_size m b' = true ->
                          (top (b_bbox b) <= top (b_bbox b'))%Q)
           /\ (forall b', In b' text_blocks ->
                          b_size b' = m ->
                          (top (b_bbox b) <= top (b_bbox b'))%Q)).
Proof.
  unfold _find_by_font_size.
  destruct text_blocks as [|x blocks] eqn:Hblocks.
  { split; [split; [intros _ b [] | reflexivity] | intros t H; discriminate H]. }
  rewrite <- Hblocks. clear Hblocks x blocks.
  set (positive := filter (fun block => Qltb 0 (b_size block)) text_blocks).
  assert (Hpos : forall b, In b positive <->
                           In b text_blocks /\ (0 < b_size b)%Q).
  { intro b. unfold positive. rewrite filter_In, Qltb_true. reflexivity. }
  destruct (map b_size positive) as [|size0 sizes] eqn:Hsizes.
  - split.
    + split; [|reflexivity]. intros _ b Hb Hlt.
      assert (Hin : In (b_size b) (map b_size positive)).
      { apply in_map. apply Hpos. split; assumption. }
      rewrite Hsizes in Hin. destruct Hin.
    + intros t H. discriminate H.
  - pose proof (py_max_list_spec sizes size0) as [Hmem Hmax].
    cbv zeta.
    set (m := py_max_list size0 sizes) in *.
    rewrite <- Hsizes in Hmem, Hmax.
    apply in_map_iff in Hmem. destruct Hmem as [b0 [Hb0 Hin0]].
    apply Hpos in Hin0. destruct Hin0 as [Hin0 Hpos0].
    destruct (topmost_filter_spec (near_size m) text_blocks) as [Hnone Hsome].
    split.
    + split.
      * intro H. exfalso.
        pose proof (proj1 Hnone H b0 Hin0) as H'.
        rewrite <- Hb0, near_size_self in H'. discriminate H'.
      * intro H. exfalso. apply (H b0 Hin0). exact Hpos0.
    + intros t Ht. destruct (Hsome t Ht) as [b [Hb [Hpb [Htext Hmin]]]].
      exists b, m. split; [exact Hb|]. split; [exact Htext|].
      split; [exists b0; rewrite Hb0 in Hpos0; auto|].
      split.
      { intros b' Hb' Hlt. apply Hmax. apply in_map. apply Hpos. auto. }
      split; [exact Hpb|]. split.
      * intros b' Hb' Hnear. apply Hmin; assumption.
      * intros b' Hb' Hsize. apply Hmin; [exact Hb'|].
        rewrite <- Hsize. apply near_size_self.
Qed.

Lemma find_by_font_size_largest_witness :
  exists b,
    In b (text_blocks two_size_page) /\ b_text b = lit "Summary of results".
Proof.
  destruct (proj2 (find_by_font_size_largest (text_blocks two_size_page))
              (lit "Summary of results") eq_refl)
    as [b [m [Hb [Htext _]]]].
  exists b. split; assumption.
Defined.



(** [_find_by_position] measures the page by the largest right edge [w] of
    its blocks.  It returns nothing exactly when no block passes the two
    tests of the loop for that width (centred within a fifth of the width,
    top above three tenths of it, as the doubles decide); otherwise it
    returns the text of such a block, and no other such block lies above
    it. *)
Theorem find_by_position_topmost_centred (text_blocks : list Block) :
  text_blocks <> [] ->
  exists w,
    (exists b0, In b0 text_blocks /\ right (b_bbox b0) = w)
    /\ (forall b, In b text_blocks -> (right (b_bbox b) <= w)%Q)
    /\ (_find_by_position text_blocks = None <->
        forall b, In b text_blocks -> centred_high w b = false)
    /\ (forall t,
           _find_by_position text_blocks = Some t ->
           exists b,
             In b text_blocks /\ centred_high w b = true /\ b_text b = t
             /\ forall b', In b' text_blocks -> centred_high w b' = true ->
                           (top (b_bbox b) <= top (b_bbox b'))%Q).
Proof.
  intro Hne. unfold _find_by_position.
  destruct text_blocks as [|x blocks] eqn:Hblocks; [congruence|].
  cbv zeta.
  set (w := py_max_list (right (b_bbox x))
              (map (fun block => right (b_bbox block)) blocks)).
  rewrite <- Hblocks.
  exists w.
  pose proof (py_max_list_spec
                (map (fun block => right (b_bbox block)) blocks)
                (right (b_bbox x))) as [Hmem Hmax].
  fold w in Hmem, Hmax.
  change (right (b_bbox x) :: map (fun block => right (b_bbox block)) blocks)
    with (map (fun block => right (b_bbox block)) (x :: blocks))
    in Hmem, Hmax.
  rewrite <- Hblocks in Hmem, Hmax.
  split.
  { apply in_map_iff in Hmem. destruct Hmem as [b0 [Hb0 Hin0]].
    exists b0. split; assumption. }
  split.
  { intros b Hb. apply Hmax. apply in_map_iff. exists b. split; auto. }
  apply topmost_filter_spec.
Qed.

Lemma find_by_position_topmost_centred_witness :
  exists w,
    forall b, In b (text_blocks title_page) -> (right (b_bbox b) <= w)%Q.
Proof.
  assert (Hne : text_blocks title_page <> []) by discriminate.
  destruct (find_by_position_topmost_centred (text_blocks title_page) Hne)
    as [w [_ [Hmax _]]].
  exists w. exact Hmax.
Defined.

Lemma topmost_filter_In (p : Block -> bool) (blocks : list Block) (t : str) :
  topmost_text (filter p blocks) = Some t ->
  exists b, In b blocks /\ b_text b = t.
Proof.
  intro H. destruct (proj2 (topmost_filter_spec p blocks) t H)
    as [b [Hb [_ [Ht _]]]].
  exists b. split; assumption.
Qed.

Lemma heuristics_pick_a_block (text_blocks : list Block) (t : str) :
  _find_by_font_size text_blocks = Some t
  \/ _find_by_position text_blocks = Some t
  \/ _find_by_style text_blocks = Some t
  \/ _find_by_top_position text_blocks = Some t ->
  exists b, In b text_blocks /\ b_text b = t.
Proof.
  unfold _find_by_font_size, _find_by_position, _find_by_style,
    _find_by_top_position.
  intros [H|[H|[H|H]]].
  - destruct text_blocks as [|x blocks] eqn:E; [discriminate H|].
    rewrite <- E in *.
    destruct (map b_size _) in H; [discriminate H|].
    apply topmost_filter_In in H. exact H.
  - destruct text_blocks as [|x blocks] eqn:E; [discriminate H|].
    rewrite <- E in H.
    apply topmost_filter_In in H. rewrite E in H. exact H.
  - apply topmost_filter_In in H. exact H.
  - destruct text_blocks as [|x blocks] eqn:E; [discriminate H|].
    rewrite <- E in *.
    apply topmost_filter_In in H. exact H.
Qed.

Lemma append_candidate_In (name : string) (candidate : option str)
    (candidates : list (string * str)) (t : str) :
  In t (map snd (append_candidate name candidate candidates)) ->
  In t (map snd candidates) \/ (candidate = Some t /\ t <> []).
Proof.
  unfold append_candidate. destruct candidate as [[|c text]|]; intro H;
    try (left; exact H).
  rewrite map_app in H. apply in_app_iff in H.
  destruct H as [H|[H|[]]]; [left; exact H|].
  simpl in H. subst t. right. split; [reflexivity | discriminate].
Qed.

Lemma title_candidates_from_blocks (text_blocks : list Block) (t : str) :
  In t (map snd (title_candidates text_blocks)) ->
  t <> [] /\ exists b, In b text_blocks /\ b_text b = t.
Proof.
  unfold title_candidates. cbv zeta. intro H.
  apply append_candidate_In in H. destruct H as [H|[H Hne]].
  - apply append_candidate_In in H. destruct H as [H|[H Hne]].
    + apply append_candidate_In in H. destruct H as [H|[H Hne]].
      * apply append_candidate_In in H. destruct H as [[]|[H Hne]].
        split; [exact Hne|]. apply heuristics_pick_a_block. auto.
      * split; [exact Hne|]. apply heuristics_pick_a_block. auto.
    + split; [exact Hne|]. apply heuristics_pick_a_block. auto.
  - split; [exact Hne|]. apply heuristics_pick_a_block. auto.
Qed.

Lemma py_max_item_In (items : Scores) (item0 : str * Z) :
  In (py_max_item item0 items) (item0 :: items).
Proof.
  destruct (py_max_item_first items item0) as [before [after [H _]]].
  rewrite H. apply in_app_iff. right. left. reflexivity.
Qed.

Lemma select_best_candidate_In (candidates : list (string * str))
    (text_blocks : list Block) (t : str) :
  _select_best_candidate candidates text_blocks = Some t ->
  In t (map snd candidates).
Proof.
  unfold _select_best_candidate. destruct candidates as [|c cs] eqn:E;
    [discriminate|]. rewrite <- E. clear E c cs.
  pose proof (final_scores_keys candidates) as Hkeys.
  destruct (map score_characteristics (fold_left score_strategy candidates []))
    as [|item0 items]; [discriminate|].
  intro H. injection H as <-.
  assert (Hin : In (fst (py_max_item item0 items))
                  (map fst (item0 :: items))).
  { apply in_map. apply py_max_item_In. }
  rewrite Hkeys in Hin. apply fold_add_key_In in Hin.
  destruct Hin as [[]|Hin]. exact Hin.
Qed.

(** The text that wins the merge on a first page is never invented: it is
    the non-empty text of one of the page's spans, exactly as the span
    carries it. *)
Theorem winning_candidate_is_span_text (first_page : Page) (t : str) :
  winning_candidate first_page = Some t ->
  t <> [] /\ exists b, In b (text_blocks first_page) /\ b_text b = t.
Proof.
  unfold winning_candidate. intro H.
  apply select_best_candidate_In in H.
  apply title_candidates_from_blocks. exact H.
Qed.

Lemma winning_candidate_is_span_text_witness :
  lit "Annual Report" <> []
  /\ exists b, In b (text_blocks title_page) /\ b_text b = lit "Annual Report".
Proof.
  apply (winning_candidate_is_span_text title_page (lit "Annual Report")).
  vm_compute. reflexivity.
Defined.

(** The title returned by [extract_title] is whitespace-clean: its only
    whitespace is single blanks between words, so collapsing whitespace or
    stripping it again changes nothing. *)
Theorem extract_title_is_tidy (cfg : Config) (first_page : Page) :
  normalise (extract_title cfg first_page) = extract_title cfg first_page
  /\ strip (extract_title cfg first_page) = extract_title cfg first_page
  /\ forall c, In c (extract_title cfg first_page) ->
               isspace c = true -> c = " "%char.
Proof.
  assert (H : tidy (extract_title cfg first_page)).
  { unfold extract_title. destruct (text_blocks first_page);
      [apply tidy_untitled|].
    destruct (_select_best_candidate _ _) as [[|c best]|];
      [apply tidy_untitled | apply clean_title_tidy | apply tidy_untitled]. }
  split; [apply tidy_normalise; exact H|].
  destruct H as [HA [_ [HS HE]]].
  split; [apply strip_fixed; assumption|].
  intros c Hc. unfold only_plain_spaces in HA. rewrite Forall_forall in HA.
  apply HA. exact Hc.
Qed.

Lemma endswith_app_same (t p : str) : endswith (t ++ p) p = true.
Proof.
  unfold endswith. rewrite rev_app_distr.
  induction (rev p) as [|c r IH]; simpl.
  - destruct (rev t); reflexivity.
  - rewrite Ascii.eqb_refl. exact IH.
Qed.

(** A cleaned title is longer than [MAX_TITLE_LENGTH] only when it was cut:
    it then ends with the ellipsis.  (For [MAX_TITLE_LENGTH] at least 17, so
    that "Untitled Document" itself fits.) *)
Theorem long_title_ends_with_ellipsis (cfg : Config) (t : str) :
  17 <= MAX_TITLE_LENGTH cfg ->
  MAX_TITLE_LENGTH cfg < len (_clean_title cfg t) ->
  endswith (_clean_title cfg t) (lit "...") = true.
Proof.
  intros Hmax Hlong.
  destruct (clean_title_cases cfg t) as [H|[title H]]; rewrite H in *.
  - change (len untitled) with 17 in Hlong. lia.
  - unfold truncated in *.
    destruct (MAX_TITLE_LENGTH cfg <? len title) eqn:E.
    + cbv zeta in *.
      destruct (endswith (strip (slice_to (MAX_TITLE_LENGTH cfg) title))
                  ellipsis) eqn:Ee.
      * exact Ee.
      * apply endswith_app_same.
    + apply Z.ltb_ge in E. lia.
Qed.

Lemma long_title_ends_with_ellipsis_witness :
  endswith (_clean_title default_config (repeat "x"%char 250)) (lit "...")
  = true.
Proof.
  apply (long_title_ends_with_ellipsis default_config (repeat "x"%char 250)).
  - vm_compute. discriminate.
  - vm_compute. reflexivity.
Defined.

Lemma word_is_not_space (c : ascii) : isword c = true -> isspace c = false.
Proof.
  destruct c as [[|] [|] [|] [|] [|] [|] [|] [|]]; vm_compute;
    intros; congruence.
Qed.

(** The two states the pattern [\w+(\s+\w+)*] is in after a word character
    and after whitespace. *)
Lemma words_pattern_steps (c : ascii) :
  let gap := Re.Seq (Re.Plus Re.Space) (Re.Plus Re.Word) in
  let in_word := Re.Seq (Re.Star Re.Word) (Re.Star gap) in
  let in_gap :=
    Re.Seq (Re.Seq (Re.Star Re.Space) (Re.Plus Re.Word)) (Re.Star gap) in
  (isword c = true ->
   Re.deriv c TitlePatterns.re_words = in_word
   /\ Re.deriv c in_word = in_word /\ Re.deriv c in_gap = in_word)
  /\ (isspace c = true -> isword c = false ->
      Re.deriv c in_word = in_gap /\ Re.deriv c in_gap = in_gap).
Proof.
  cbv zeta. split.
  - intro Hw. pose proof (word_is_not_space c Hw) as Hs.
    unfold TitlePatterns.re_words, Re.Plus, Re.Word, Re.Space.
    cbn. rewrite Hw, Hs. cbn. repeat split; reflexivity.
  - intros Hs Hw. unfold Re.Plus, Re.Word, Re.Space.
    cbn. rewrite Hw, Hs. cbn. split; reflexivity.
Qed.

Lemma words_pattern_accepts (s : str) :
  let gap := Re.Seq (Re.Plus Re.Space) (Re.Plus Re.Word) in
  let in_word := Re.Seq (Re.Star Re.Word) (Re.Star gap) in
  let in_gap :=
    Re.Seq (Re.Seq (Re.Star Re.Space) (Re.Plus Re.Word)) (Re.Star gap) in
  forallb (fun c => isword c || isspace c) s = true ->
  ends_clean s ->
  Re.fullmatch in_word s = true
  /\ (s <> [] -> Re.fullmatch in_gap s = true).
Proof.
  cbv zeta. induction s as [|c s IH]; intros Hall Hend.
  - split; [reflexivity | congruence].
  - simpl in Hall. apply andb_true_iff in Hall. destruct Hall as [Hc Hall].
    assert (Hs : s <> [] -> ends_clean s).
    { destruct s as [|x s]; [congruence|]. intros _.
      exact (ends_clean_tail c x s Hend). }
    assert (IH' : Re.fullmatch
                    (Re.Seq (Re.Star Re.Word)
                       (Re.Star (Re.Seq (Re.Plus Re.Space) (Re.Plus Re.Word))))
                    s = true
                  /\ (s <> [] ->
                      Re.fullmatch
                        (Re.Seq (Re.Seq (Re.Star Re.Space) (Re.Plus Re.Word))
                           (Re.Star
                              (Re.Seq (Re.Plus Re.Space) (Re.Plus Re.Word))))
                        s = true)).
    { destruct s as [|x s]; [split; [reflexivity | congruence]|].
      apply IH; [exact Hall | apply Hs; discriminate]. }
    destruct IH' as [IHw IHg].
    destruct (isword c) eqn:Hw.
    + destruct (proj1 (words_pattern_steps c) Hw) as [_ [H1 H2]].
      cbv zeta in H1, H2. cbn [Re.fullmatch]. rewrite H1, H2.
      split; [exact IHw | intros _; exact IHw].
    + simpl in Hc.
      destruct (proj2 (words_pattern_steps c) Hc Hw) as [H1 H2].
      cbv zeta in H1, H2. cbn [Re.fullmatch]. rewrite H1, H2.
      assert (Hne : s <> []).
      { intros ->. unfold ends_clean in Hend. simpl in Hend. congruence. }
      split; [apply IHg; exact Hne | intros _; apply IHg; exact Hne].
Qed.

(** Every text made only of word characters (letters, digits, underscore)
    and whitespace, with at least one word character, looks like a title.
    This includes pure numbers, "page 12" and "chapter 3": the exclusion
    list of [_looks_like_title] is consulted only for texts with other
    characters. *)
Theorem words_only_looks_like_title (text : str) :
  strip text <> [] ->
  forallb (fun c => isword c || isspace c) (strip text) = true ->
  _looks_like_title text = true.
Proof.
  intros Hne Hall. unfold _looks_like_title. cbv zeta.
  assert (H : Re.matches_to_end TitlePatterns.re_words (strip text) = true).
  { unfold Re.matches_to_end. apply fullmatch_lang.
    rewrite <- (app_nil_r (strip text)). apply Re.lang_seq.
    - apply fullmatch_lang.
      destruct (strip_clean text) as [Hstart Hend].
      destruct (strip text) as [|c s] eqn:E; [congruence|].
      assert (Hw : isword c = true).
      { simpl in Hall. apply andb_true_iff in Hall. destruct Hall as [Hc _].
        simpl in Hstart. rewrite Hstart, orb_false_r in Hc. exact Hc. }
      cbn [Re.fullmatch].
      destruct (proj1 (words_pattern_steps c) Hw) as [H1 _].
      cbv zeta in H1. rewrite H1.
      destruct s as [|x s]; [reflexivity|].
      apply words_pattern_accepts.
      + simpl in Hall. apply andb_true_iff in Hall. apply Hall.
      + exact (ends_clean_tail c x s Hend).
    - apply Re.lang_alt_r. apply Re.lang_eps. }
  rewrite H, !orb_true_r. reflexivity.
Qed.

Lemma words_only_looks_like_title_witness :
  _looks_like_title (lit " page 12 ") = true.
Proof.
  apply (words_only_looks_like_title (lit " page 12 ")).
  - vm_compute. discriminate.
  - vm_compute. reflexivity.
Defined.

(** * The JSON cleaner *)

Lemma tidy_cut_with_ellipsis (n : nat) (t : str) :
  tidy t -> tidy (firstn n t ++ ellipsis).
Proof.
  intros [HA [HB [HS _]]].
  assert (Hsplit : t = firstn n t ++ skipn n t)
    by (symmetry; apply firstn_skipn).
  unfold tidy, ellipsis. repeat split.
  - apply Forall_app. split.
    + unfold only_plain_spaces in HA. rewrite Hsplit in HA.
      apply Forall_app in HA. apply HA.
    + repeat constructor; intro H; discriminate H.
  - apply no_double_space_app.
    + rewrite Hsplit in HB. apply no_double_space_prefix in HB. exact HB.
    + simpl. repeat split; intro H; discriminate H.
    + reflexivity.
  - destruct (firstn n t) as [|c r] eqn:E; [reflexivity|].
    rewrite Hsplit in HS. simpl in *. exact HS.
  - unfold ends_clean. rewrite rev_app_distr. reflexivity.
Qed.

Lemma len_cut_with_ellipsis (n : nat) (t : str) :
  (n <= length t)%nat -> len (firstn n t ++ ellipsis) = Z.of_nat n + 3.
Proof.
  intro H. unfold len. rewrite length_app, length_firstn.
  simpl length. lia.
Qed.

Lemma json_clean_title_cases (title : str) :
  (len (normalise title) <= 200
   /\ JSONGenerator._clean_title (Some title)
      = match normalise title with
        | [] => untitled
        | _ :: _ => normalise title
        end)
  \/ (200 < len (normalise title)
      /\ JSONGenerator._clean_title (Some title)
         = firstn 197 (normalise title) ++ ellipsis).
Proof.
  unfold JSONGenerator._clean_title, normalise. cbv zeta.
  destruct (200 <? len (join_sp (split title))) eqn:E.
  - right. apply Z.ltb_lt in E. split; [exact E|].
    change (slice_to 197 (join_sp (split title)))
      with (firstn 197 (join_sp (split title))).
    destruct (firstn 197 (join_sp (split title)) ++ ellipsis) eqn:E2;
      [|reflexivity].
    apply app_eq_nil in E2. destruct E2 as [_ E2]. discriminate E2.
  - left. apply Z.ltb_ge in E. split; [exact E | reflexivity].
Qed.

(** Whatever it is given, [JSONGenerator._clean_title] returns a non-empty
    title of at most 200 characters whose only whitespace is single blanks
    between words. *)
Theorem json_title_bounds (title : option str) :
  JSONGenerator._clean_title title <> []
  /\ len (JSONGenerator._clean_title title) <= 200
  /\ normalise (JSONGenerator._clean_title title)
     = JSONGenerator._clean_title title.
Proof.
  destruct title as [title|].
  - destruct (json_clean_title_cases title) as [[Hlen H]|[Hlen H]];
      rewrite H; clear H.
    + pose proof (normalise_tidy title) as Ht.
      destruct (normalise title) as [|c r] eqn:E.
      * split; [discriminate|]. split; [vm_compute; discriminate|].
        apply tidy_normalise. apply tidy_untitled.
      * split; [discriminate|]. split; [exact Hlen|].
        apply tidy_normalise. exact Ht.
    + split.
      { intro H. apply app_eq_nil in H. destruct H as [_ H]. discriminate H. }
      split.
      * rewrite len_cut_with_ellipsis; [lia|]. unfold len in Hlen. lia.
      * apply tidy_normalise. apply tidy_cut_with_ellipsis.
        apply normalise_tidy.
  - split; [discriminate|]. split; [vm_compute; discriminate|].
    apply tidy_normalise. apply tidy_untitled.
Qed.

Lemma json_clean_title_fixed (t : str) :
  tidy t -> t <> [] -> len t <= 200 ->
  JSONGenerator._clean_title (Some t) = t.
Proof.
  intros Ht Hne Hlen.
  destruct (json_clean_title_cases t) as [[_ H]|[Hl _]].
  - rewrite H, (tidy_normalise t Ht). destruct t; [congruence | reflexivity].
  - rewrite (tidy_normalise t Ht) in Hl. lia.
Qed.

Lemma json_clean_title_tidy (title : option str) :
  tidy (JSONGenerator._clean_title title).
Proof.
  destruct title as [title|]; [|apply tidy_untitled].
  destruct (json_clean_title_cases title) as [[_ H]|[_ H]]; rewrite H.
  - pose proof (normalise_tidy title) as Ht.
    destruct (normalise title); [apply tidy_untitled | exact Ht].
  - apply tidy_cut_with_ellipsis. apply normalise_tidy.
Qed.

(** What [clean_entry] keeps of an entry. *)
Lemma clean_entry_inv (entry : JSONGenerator.RawEntry)
    (e : JSONGenerator.CleanEntry) :
  JSONGenerator.clean_entry entry = Some e ->
  exists level text page,
    JSONGenerator.r_level entry = Some level
    /\ JSONGenerator.r_text entry = Some text
    /\ JSONGenerator.r_page entry = Some page
    /\ In level [lit "H1"; lit "H2"; lit "H3"]
    /\ 1 <= page
    /\ normalise text <> []
    /\ e = {| JSONGenerator.ce_level := level;
              JSONGenerator.ce_text :=
                if 500 <? len (normalise text)
                then firstn 497 (normalise text) ++ ellipsis
                else normalise text;
              JSONGenerator.ce_page := page |}.
Proof.
  unfold JSONGenerator.clean_entry. intro H.
  destruct (negb _) eqn:Etruth in H; [discriminate|].
  destruct (JSONGenerator.r_level entry) as [level|]; [|discriminate].
  destruct (JSONGenerator.r_text entry) as [text|]; [|discriminate].
  destruct (JSONGenerator.r_page entry) as [page|]; [|discriminate].
  destruct (existsb (str_eqb level) [lit "H1"; lit "H2"; lit "H3"]) eqn:El;
    [|discriminate]. cbn [negb] in H. cbv zeta in H.
  destruct (page <? 1) eqn:Ep; [discriminate|].
  apply Z.ltb_ge in Ep.
  fold (normalise text) in H.
  destruct (normalise text) as [|c r] eqn:En; [discriminate|].
  injection H as <-. exists level, text, page.
  repeat split; try reflexivity; try assumption.
  - apply existsb_exists in El. destruct El as [x [Hx Hl]].
    apply str_eqb_eq in Hl. subst x. exact Hx.
  - rewrite En. discriminate.
  - rewrite En. reflexivity.
Qed.

Lemma clean_entry_valid (entry : JSONGenerator.RawEntry)
    (e : JSONGenerator.CleanEntry) :
  JSONGenerator.clean_entry entry = Some e ->
  In (JSONGenerator.ce_level e) [lit "H1"; lit "H2"; lit "H3"]
  /\ 1 <= JSONGenerator.ce_page e
  /\ JSONGenerator.ce_text e <> []
  /\ len (JSONGenerator.ce_text e) <= 500
  /\ tidy (JSONGenerator.ce_text e).
Proof.
  intro E. apply clean_entry_inv in E.
  destruct E as [level [text [page [_ [_ [_ [Hl [Hp [Hne ->]]]]]]]]].
  cbn [JSONGenerator.ce_level JSONGenerator.ce_text JSONGenerator.ce_page].
  split; [exact Hl|]. split; [exact Hp|].
  pose proof (normalise_tidy text) as Ht.
  destruct (500 <? len (normalise text)) eqn:E5.
  - apply Z.ltb_lt in E5. split.
    { intro H. apply app_eq_nil in H. destruct H as [_ H]. discriminate H. }
    split.
    + rewrite len_cut_with_ellipsis; [lia|]. unfold len in E5. lia.
    + apply tidy_cut_with_ellipsis. exact Ht.
  - apply Z.ltb_ge in E5. split; [exact Hne|]. split; [exact E5|]. exact Ht.
Qed.

Lemma clean_outline_In (outline : option (list JSONGenerator.RawEntry))
    (e : JSONGenerator.CleanEntry) :
  In e (JSONGenerator._clean_outline outline) ->
  exists entry, JSONGenerator.clean_entry entry = Some e.
Proof.
  unfold JSONGenerator._clean_outline. destruct outline as [outline|];
    [|intros []].
  rewrite in_flat_map. intros [entry [_ He]].
  destruct (JSONGenerator.clean_entry entry) as [e'|] eqn:E; [|destruct He].
  destruct He as [<-|[]]. exists entry. exact E.
Qed.

(** Every entry that [_clean_outline] lets through is well formed: its level
    is "H1", "H2" or "H3", its page is at least 1, and its text is
    non-empty, has at most 500 characters and no whitespace other than
    single blanks between words. *)
Theorem json_outline_entries_valid (outline : option (list JSONGenerator.RawEntry))
    (e : JSONGenerator.CleanEntry) :
  In e (JSONGenerator._clean_outline outline) ->
  In (JSONGenerator.ce_level e) [lit "H1"; lit "H2"; lit "H3"]
  /\ 1 <= JSONGenerator.ce_page e
  /\ JSONGenerator.ce_text e <> []
  /\ len (JSONGenerator.ce_text e) <= 500
  /\ normalise (JSONGenerator.ce_text e) = JSONGenerator.ce_text e.
Proof.
  intro H. apply clean_outline_In in H. destruct H as [entry H].
  destruct (clean_entry_valid entry e H) as [Hl [Hp [Hne [Hlen Ht]]]].
  repeat split; try assumption. apply tidy_normalise. exact Ht.
Qed.

Lemma json_outline_entries_valid_witness :
  1 <= 3 /\ lit "Annual Report" <> [].
Proof.
  destruct (json_outline_entries_valid
              (Some [{| JSONGenerator.r_level := Some (lit "H1");
                        JSONGenerator.r_text := Some (lit " Annual  Report");
                        JSONGenerator.r_page := Some 3 |}])
              {| JSONGenerator.ce_level := lit "H1";
                 JSONGenerator.ce_text := lit "Annual Report";
                 JSONGenerator.ce_page := 3 |}
              (or_introl eq_refl))
    as [_ [Hp [Hne _]]].
  split; assumption.
Defined.

Lemma json_clean_title_small (title : option str) :
  JSONGenerator._clean_title title <> []
  /\ len (JSONGenerator._clean_title title) <= 200.
Proof.
  destruct title as [title|]; [|split; [discriminate | vm_compute; discriminate]].
  destruct (json_clean_title_cases title) as [[Hlen H]|[Hlen H]];
    rewrite H; clear H.
  - destruct (normalise title) as [|c r] eqn:E.
    + split; [discriminate | vm_compute; discriminate].
    + split; [discriminate | exact Hlen].
  - split.
    + intro H. apply app_eq_nil in H. destruct H as [_ H]. discriminate H.
    + rewrite len_cut_with_ellipsis; [lia|]. unfold len in Hlen. lia.
Qed.

Lemma clean_entry_fixed (e : JSONGenerator.CleanEntry) :
  In (JSONGenerator.ce_level e) [lit "H1"; lit "H2"; lit "H3"] ->
  1 <= JSONGenerator.ce_page e ->
  JSONGenerator.ce_text e <> [] ->
  len (JSONGenerator.ce_text e) <= 500 ->
  tidy (JSONGenerator.ce_text e) ->
  JSONGenerator.clean_entry (raw_of_clean_entry e) = Some e.
Proof.
  destruct e as [level text page].
  cbn [JSONGenerator.ce_level JSONGenerator.ce_text JSONGenerator.ce_page].
  intros Hl Hp Hne Hlen Ht.
  unfold JSONGenerator.clean_entry, raw_of_clean_entry.
  cbn [JSONGenerator.r_level JSONGenerator.r_text JSONGenerator.r_page
       JSONGenerator.ce_level JSONGenerator.ce_text JSONGenerator.ce_page].
  assert (Hlevel : existsb (str_eqb level) [lit "H1"; lit "H2"; lit "H3"]
                   = true).
  { apply existsb_exists. exists level. split; [exact Hl|].
    apply str_eqb_refl. }
  assert (Htl : JSONGenerator.truthy_str (Some level) = true).
  { destruct Hl as [<-|[<-|[<-|[]]]]; reflexivity. }
  assert (Htt : JSONGenerator.truthy_str (Some text) = true).
  { destruct text; [congruence | reflexivity]. }
  assert (Htp : JSONGenerator.truthy_int (Some page) = true).
  { unfold JSONGenerator.truthy_int. apply negb_true_iff.
    apply Z.eqb_neq. lia. }
  rewrite Htl, Htt, Htp, Hlevel. cbn [negb andb]. cbv zeta.
  replace (page <? 1) with false by (symmetry; apply Z.ltb_ge; lia).
  fold (normalise text). rewrite (tidy_normalise _ Ht).
  replace (500 <? len text) with false
    by (symmetry; apply Z.ltb_ge; exact Hlen).
  destruct text; [congruence | reflexivity].
Qed.

Lemma clean_outline_fixed (l : list JSONGenerator.CleanEntry) :
  (forall e, In e l -> exists entry, JSONGenerator.clean_entry entry = Some e) ->
  JSONGenerator._clean_outline (Some (map raw_of_clean_entry l)) = l.
Proof.
  unfold JSONGenerator._clean_outline.
  induction l as [|e l IH]; intro H; [reflexivity|].
  cbn [map flat_map].
  destruct (H e (or_introl eq_refl)) as [entry He].
  destruct (clean_entry_valid entry e He) as [Hl [Hp [Hne [Hlen Ht]]]].
  rewrite (clean_entry_fixed e Hl Hp Hne Hlen Ht). cbn [app].
  f_equal. apply IH. intros e' He'. apply H. right. exact He'.
Qed.

(** Cleaning is idempotent: a cleaned dictionary read back and cleaned again
    is unchanged, in its title, in every entry of its outline and in its
    error. *)
Theorem json_validate_and_clean_idempotent (data : JSONGenerator.RawData) :
  JSONGenerator._validate_and_clean
    (raw_of_clean (JSONGenerator._validate_and_clean data))
  = JSONGenerator._validate_and_clean data.
Proof.
  unfold JSONGenerator._validate_and_clean, raw_of_clean.
  cbn [JSONGenerator.d_title JSONGenerator.d_outline JSONGenerator.d_error
       JSONGenerator.out_title JSONGenerator.out_outline
       JSONGenerator.out_error].
  f_equal.
  - destruct (json_clean_title_small (JSONGenerator.d_title data))
      as [Hne Hlen].
    apply json_clean_title_fixed; [apply json_clean_title_tidy | | ]; assumption.
  - apply clean_outline_fixed. intros e He.
    apply clean_outline_In in He. exact He.
Qed.

Lemma normalise_length_aux (t : str) :
  (length (normalise t) + (if first_char_in isspace t then 1 else 0)
   <= length t)%nat.
Proof.
  unfold normalise. induction t as [|c t IH]; [simpl; lia|].
  cbn [first_char_in]. destruct (isspace c) eqn:Ec.
  - cbn [split]. rewrite Ec. cbn [length].
    destruct (first_char_in isspace t); lia.
  - destruct t as [|x t].
    + cbn [split]. rewrite Ec. simpl. lia.
    + cbn [first_char_in] in IH. destruct (isspace x) eqn:Ex.
      * assert (Hs : split (c :: x :: t) = [c] :: split (x :: t)).
        { cbn [split]. rewrite Ec, Ex. reflexivity. }
        rewrite Hs. destruct (split (x :: t)) as [|w ws] eqn:E.
        -- simpl. lia.
        -- rewrite join_sp_cons by discriminate. simpl length in *. lia.
      * assert (Hs : split (c :: x :: t) =
                     match split (x :: t) with
                     | w :: ws => (c :: w) :: ws
                     | [] => [[c]]
                     end).
        { cbn [split]. rewrite Ec, Ex. reflexivity. }
        rewrite Hs. destruct (split (x :: t)) as [|w ws] eqn:E.
        -- simpl. lia.
        -- assert (Hj : join_sp ((c :: w) :: ws) = c :: join_sp (w :: ws))
             by (destruct ws; reflexivity).
           rewrite Hj. simpl length in *. lia.
Qed.

Lemma normalise_length (t : str) : len (normalise t) <= len t.
Proof.
  pose proof (normalise_length_aux t). unfold len.
  destruct (first_char_in isspace t); lia.
Qed.

Lemma normalise_nonempty (t : str) :
  t <> [] -> starts_clean t -> normalise t <> [].
Proof.
  intros Hne Hs. destruct t as [|c t]; [congruence|]. simpl in Hs.
  unfold normalise.
  pose proof (split_nonempty c t Hs) as Hsplit.
  pose proof (split_words_ok (c :: t)) as Hok.
  destruct (split (c :: t)) as [|w ws]; [congruence|].
  inversion Hok as [|? ? [Hw _] _]; subst.
  destruct ws; simpl; [exact Hw|].
  destruct w; [congruence | discriminate].
Qed.

Lemma extract_title_tidy (cfg : Config) (first_page : Page) :
  tidy (extract_title cfg first_page) /\ extract_title cfg first_page <> [].
Proof.
  unfold extract_title. destruct (text_blocks first_page);
    [split; [apply tidy_untitled | discriminate]|].
  destruct (_select_best_candidate _ _) as [[|c best]|];
    try (split; [apply tidy_untitled | discriminate]).
  split; [apply clean_title_tidy | apply clean_title_nonempty].
Qed.

(** The entry of the JSON outline that a heading gives when nothing has to
    be dropped or cut. *)
Lemma clean_entry_of_heading (h : Heading) :
  1 <= h_page h -> h_text h <> [] -> starts_clean (h_text h) ->
  len (h_text h) <= 500 ->
  JSONGenerator.clean_entry (entry_of_heading h)
  = Some {| JSONGenerator.ce_level := level_name (h_level h);
            JSONGenerator.ce_text := normalise (h_text h);
            JSONGenerator.ce_page := h_page h |}.
Proof.
  intros Hp Hne Hs Hlen.
  unfold JSONGenerator.clean_entry, entry_of_heading.
  cbn [JSONGenerator.r_level JSONGenerator.r_text JSONGenerator.r_page].
  assert (Hlevel : existsb (str_eqb (level_name (h_level h)))
                     [lit "H1"; lit "H2"; lit "H3"] = true).
  { destruct (h_level h); reflexivity. }
  assert (Htl : JSONGenerator.truthy_str (Some (level_name (h_level h)))
                = true).
  { destruct (h_level h); reflexivity. }
  assert (Htt : JSONGenerator.truthy_str (Some (h_text h)) = true).
  { destruct (h_text h); [congruence | reflexivity]. }
  assert (Htp : JSONGenerator.truthy_int (Some (h_page h)) = true).
  { unfold JSONGenerator.truthy_int. apply negb_true_iff.
    apply Z.eqb_neq. lia. }
  rewrite Htl, Htt, Htp, Hlevel. cbn [negb andb]. cbv zeta.
  replace (h_page h <? 1) with false by (symmetry; apply Z.ltb_ge; lia).
  fold (normalise (h_text h)).
  pose proof (normalise_nonempty _ Hne Hs) as Hn.
  pose proof (normalise_length (h_text h)) as Hl.
  replace (500 <? len (normalise (h_text h))) with false
    by (symmetry; apply Z.ltb_ge; lia).
  destruct (normalise (h_text h)); [congruence | reflexivity].
Qed.

(** The JSON cleaner loses nothing of what the pipeline produces.  For a
    document whose pages are numbered from 1 on, with [MAX_HEADING_LENGTH]
    at most 500, the cleaned outline has one entry per heading, in the same
    order and with the same level and page; only the whitespace inside the
    text is collapsed and the position is left out.  No error is reported,
    and a title of at most 200 characters is kept as it is. *)
Theorem json_keeps_pipeline_output (cfg : Config) (pages : list Page)
    (data : JSONGenerator.RawData) :
  extract_outline_of_pages cfg pages = Some data ->
  (forall page, In page pages -> 1 <= page_number page) ->
  MAX_HEADING_LENGTH cfg <= 500 ->
  let cleaned := JSONGenerator._validate_and_clean data in
  JSONGenerator.out_outline cleaned
  = map (fun h => {| JSONGenerator.ce_level := level_name (h_level h);
                     JSONGenerator.ce_text := normalise (h_text h);
                     JSONGenerator.ce_page := h_page h |})
      (detect_headings cfg pages)
  /\ JSONGenerator.out_error cleaned = None
  /\ (forall title,
         JSONGenerator.d_title data = Some title ->
         len title <= 200 ->
         JSONGenerator.out_title cleaned = title).
Proof.
  intros Hdata Hpages Hmax. unfold extract_outline_of_pages in Hdata.
  destruct pages as [|first_page rest] eqn:E; [discriminate|].
  rewrite <- E in *. cbv zeta in Hdata. injection Hdata as <-.
  cbv zeta. unfold JSONGenerator._validate_and_clean.
  cbn [JSONGenerator.d_title JSONGenerator.d_outline JSONGenerator.d_error
       JSONGenerator.out_title JSONGenerator.out_outline
       JSONGenerator.out_error].
  split; [|split; [reflexivity|]].
  - unfold JSONGenerator._clean_outline.
    assert (Hall : forall h, In h (detect_headings cfg pages) ->
                     JSONGenerator.clean_entry (entry_of_heading h)
                     = Some {| JSONGenerator.ce_level := level_name (h_level h);
                               JSONGenerator.ce_text := normalise (h_text h);
                               JSONGenerator.ce_page := h_page h |}).
    { intros h Hh.
      destruct (outline_entry_origin cfg pages h Hh)
        as [page [block [c [Hpg [_ [Hc [Ht [Hp _]]]]]]]].
      pose proof (heading_candidate_inv _ _ _ _ Hc)
        as [[Hlo Hhi] [Hct [Hcp _]]].
      destruct (strip_clean (b_text block)) as [Hs _].
      apply clean_entry_of_heading.
      - rewrite Hp, Hcp. apply Hpages. exact Hpg.
      - rewrite Ht, Hct. intro H0. rewrite H0 in Hlo.
        change (len []) with 0 in Hlo. lia.
      - rewrite Ht, Hct. exact Hs.
      - rewrite Ht, Hct. lia. }
    induction (detect_headings cfg pages) as [|h l IH]; [reflexivity|].
    cbn [map flat_map]. rewrite (Hall h (or_introl eq_refl)). cbn [app].
    f_equal. apply IH. intros h' Hh'. apply Hall. right. exact Hh'.
  - intros title Ht Hlen. injection Ht as <-.
    destruct (extract_title_tidy cfg first_page) as [Htidy Hne].
    apply json_clean_title_fixed; assumption.
Qed.

Lemma json_keeps_pipeline_output_witness :
  JSONGenerator.out_outline
    (JSONGenerator._validate_and_clean
       {| JSONGenerator.d_title :=
            Some (extract_title default_config two_size_page);
          JSONGenerator.d_outline :=
            Some (map entry_of_heading
                    (detect_headings default_config [two_size_page]));
          JSONGenerator.d_error := None |})
  = map (fun h => {| JSONGenerator.ce_level := level_name (h_level h);
                     JSONGenerator.ce_text := normalise (h_text h);
                     JSONGenerator.ce_page := h_page h |})
      (detect_headings default_config [two_size_page]).
Proof.
  apply (json_keeps_pipeline_output default_config [two_size_page]).
  - reflexivity.
  - intros page [<-|[]]. vm_compute. discriminate.
  - vm_compute. discriminate.
Defined.

(** * The utilities *)

Lemma py_max2_bounds (a b : Q) :
  (a <= py_max2 a b)%Q /\ (b <= py_max2 a b)%Q.
Proof.
  destruct (py_max2_cases a b) as [[H E]|[H E]]; rewrite E; split; lra.
Qed.

Lemma split_word_then_blank (w rest : str) :
  word_ok w -> split (w ++ " "%char :: rest) = w :: split rest.
Proof.
  intros [Hne Hw]. induction Hw as [|c w Hc Hw IH]; [congruence|].
  destruct w as [|x w].
  - cbn [app split]. rewrite Hc. reflexivity.
  - inversion Hw as [|? ? Hx _]; subst.
    assert (IH' := IH ltac:(discriminate)).
    change ((c :: x :: w) ++ " "%char :: rest)
      with (c :: (x :: w) ++ " "%char :: rest).
    change ((x :: w) ++ " "%char :: rest)
      with (x :: w ++ " "%char :: rest) in *.
    cbn [split]. rewrite Hc, Hx.
    cbn [split] in IH'. rewrite Hx in IH'. rewrite IH'. reflexivity.
Qed.

Lemma split_word (w : str) : word_ok w -> split w = [w].
Proof.
  intros [Hne Hw]. induction Hw as [|c w Hc Hw IH]; [congruence|].
  destruct w as [|x w].
  - cbn [split]. rewrite Hc. reflexivity.
  - inversion Hw as [|? ? Hx _]; subst.
    assert (IH' := IH ltac:(discriminate)).
    cbn [split]. rewrite Hc, Hx.
    cbn [split] in IH'. rewrite Hx in IH'. rewrite IH'. reflexivity.
Qed.

Lemma split_join_sp (ws : list str) :
  Forall word_ok ws -> split (join_sp ws) = ws.
Proof.
  induction 1 as [|w ws Hw Hws IH]; [reflexivity|].
  destruct ws as [|w2 ws].
  - apply split_word. exact Hw.
  - rewrite join_sp_cons by discriminate.
    rewrite split_word_then_blank by exact Hw.
    rewrite IH. reflexivity.
Qed.

(** Whitespace normalisation keeps the words of a text, gives a text whose
    only whitespace is single blanks between words, and changes nothing when
    applied again. *)
Theorem normalize_whitespace_keeps_words (text : str) :
  split (TextProcessor.normalize_whitespace text) = split text
  /\ tidy (TextProcessor.normalize_whitespace text)
  /\ TextProcessor.normalize_whitespace
       (TextProcessor.normalize_whitespace text)
     = TextProcessor.normalize_whitespace text.
Proof.
  unfold TextProcessor.normalize_whitespace.
  assert (Hs : split (join_sp (split text)) = split text)
    by (apply split_join_sp, split_words_ok).
  split; [exact Hs|]. split.
  - apply join_sp_tidy, split_words_ok.
  - rewrite Hs. reflexivity.
Qed.

Lemma ForallOrdPairs_snoc {A : Type} (R : A -> A -> Prop) (l : list A) (x : A) :
  ForallOrdPairs R l -> Forall (fun a => R a x) l ->
  ForallOrdPairs R (l ++ [x]).
Proof.
  induction 1 as [|a l Ha Hl IH]; intro Hx; cbn [app].
  - constructor; constructor.
  - inversion Hx as [|? ? Hax Hlx]; subst.
    constructor; [|apply IH; exact Hlx].
    apply Forall_app. split; [exact Ha|]. constructor; [exact Hax|constructor].
Qed.

Lemma concat_snd_snoc (groups : FontAnalyzer.Groups) (g : Q * list Q) :
  concat (map snd (groups ++ [g])) = concat (map snd groups) ++ snd g.
Proof.
  rewrite map_app, concat_app. cbn [map concat]. rewrite app_nil_r.
  reflexivity.
Qed.

Lemma add_to_group_some (tolerance size : Q) (groups groups' : FontAnalyzer.Groups) :
  FontAnalyzer.add_to_group tolerance size groups = Some groups' ->
  Forall (fun g => (fst g <= size)%Q) groups ->
  Forall (group_within tolerance) groups ->
  map fst groups' = map fst groups
  /\ Permutation (concat (map snd groups')) (concat (map snd groups) ++ [size])
  /\ Forall (group_within tolerance) groups'.
Proof.
  revert groups'.
  induction groups as [|[group_key members] rest IH]; intros groups' H Hle Hok;
    cbn [FontAnalyzer.add_to_group] in H; [discriminate|].
  inversion Hle as [|? ? Hk Hle']; subst.
  inversion Hok as [|? ? Hg Hok']; subst.
  cbn [fst] in Hk.
  destruct (FontAnalyzer.within tolerance size group_key) eqn:E.
  - injection H as <-. cbn [map fst snd concat]. split; [reflexivity|]. split.
    + rewrite <- !app_assoc. apply Permutation_app_head.
      apply Permutation_app_comm.
    + constructor; [|exact Hok'].
      destruct Hg as [r [Hm Hr]]. cbn [fst snd] in Hm, Hr.
      exists (r ++ [size]). cbn [fst snd]. split.
      * rewrite Hm. reflexivity.
      * apply Forall_app. split; [exact Hr|].
        constructor; [|constructor].
        split; [exact Hk | exact E].
  - destruct (FontAnalyzer.add_to_group tolerance size rest) as [rest'|] eqn:Er;
      [|discriminate].
    injection H as <-.
    destruct (IH rest' eq_refl Hle' Hok') as [Hkeys [Hperm Hok2]].
    cbn [map fst snd concat]. split; [rewrite Hkeys; reflexivity|]. split.
    + rewrite <- app_assoc. apply Permutation_app_head. exact Hperm.
    + constructor; assumption.
Qed.

Lemma add_to_group_none (tolerance size : Q) (groups : FontAnalyzer.Groups) :
  FontAnalyzer.add_to_group tolerance size groups = None ->
  Forall (fun k => keys_apart tolerance k size) (map fst groups).
Proof.
  induction groups as [|[group_key members] rest IH]; intro H;
    cbn [FontAnalyzer.add_to_group] in H; cbn [map fst]; [constructor|].
  destruct (FontAnalyzer.within tolerance size group_key) eqn:E; [discriminate|].
  destruct (FontAnalyzer.add_to_group tolerance size rest) eqn:Er;
    [discriminate|].
  constructor; [|apply IH; reflexivity].
  exact E.
Qed.

Lemma group_size_step (tolerance size : Q) (groups : FontAnalyzer.Groups)
      (done : list Q) :
  Permutation (concat (map snd groups)) done ->
  Forall (group_within tolerance) groups ->
  ForallOrdPairs (keys_apart tolerance) (map fst groups) ->
  Forall (fun x => (x <= size)%Q) done ->
  let groups' := FontAnalyzer.group_size tolerance groups size in
  Permutation (concat (map snd groups')) (done ++ [size])
  /\ Forall (group_within tolerance) groups'
  /\ ForallOrdPairs (keys_apart tolerance) (map fst groups').
Proof.
  intros Hperm Hok Hkeys Hdone. cbv zeta. unfold FontAnalyzer.group_size.
  destruct (FontAnalyzer.add_to_group tolerance size groups) as [groups'|] eqn:E.
  - assert (Hle : Forall (fun g => (fst g <= size)%Q) groups).
    { apply Forall_forall. intros g Hg.
      rewrite Forall_forall in Hok, Hdone. apply Hdone.
      eapply Permutation_in; [exact Hperm|].
      apply in_concat. exists (snd g). split; [apply in_map; exact Hg|].
      destruct (Hok g Hg) as [r [Hm _]]. rewrite Hm. left. reflexivity. }
    destruct (add_to_group_some _ _ _ _ E Hle Hok) as [Hk [Hp Hok2]].
    split; [|split].
    + eapply perm_trans; [exact Hp|].
      apply Permutation_app_tail. exact Hperm.
    + exact Hok2.
    + rewrite Hk. exact Hkeys.
  - split; [|split].
    + rewrite concat_snd_snoc. cbn [snd].
      apply Permutation_app_tail. exact Hperm.
    + apply Forall_app. split; [exact Hok|].
      constructor; [|constructor].
      exists []. split; [reflexivity | constructor].
    + rewrite map_app. cbn [map fst].
      apply ForallOrdPairs_snoc; [exact Hkeys|].
      apply add_to_group_none. exact E.
Qed.

Lemma group_fold_inv (tolerance : Q) (todo : list Q) :
  forall (groups : FontAnalyzer.Groups) (done : list Q),
    Permutation (concat (map snd groups)) done ->
    Forall (group_within tolerance) groups ->
    ForallOrdPairs (keys_apart tolerance) (map fst groups) ->
    Forall (fun x => Forall (fun y => (x <= y)%Q) todo) done ->
    StronglySorted Qle todo ->
    let groups' := fold_left (FontAnalyzer.group_size tolerance) todo groups in
    Permutation (concat (map snd groups')) (done ++ todo)
    /\ Forall (group_within tolerance) groups'
    /\ ForallOrdPairs (keys_apart tolerance) (map fst groups').
Proof.
  induction todo as [|size todo IH]; intros groups done Hperm Hok Hkeys Hdone Hs;
    cbv zeta; cbn [fold_left].
  - rewrite app_nil_r. auto.
  - inversion Hs as [|? ? Hs' Hhd]; subst.
    assert (Hd1 : Forall (fun x => (x <= size)%Q) done).
    { eapply Forall_impl; [|exact Hdone].
      intros x Hx. inversion Hx; assumption. }
    destruct (group_size_step tolerance size groups done Hperm Hok Hkeys Hd1)
      as [Hp1 [Hok1 Hk1]].
    assert (Hd2 : Forall (fun x => Forall (fun y => (x <= y)%Q) todo)
                    (done ++ [size])).
    { apply Forall_app. split.
      - eapply Forall_impl; [|exact Hdone].
        intros x Hx. inversion Hx; assumption.
      - constructor; [exact Hhd | constructor]. }
    destruct (IH _ _ Hp1 Hok1 Hk1 Hd2 Hs') as [Hp [Ho Hk]].
    split; [|split]; [|exact Ho|exact Hk].
    rewrite <- app_assoc in Hp. exact Hp.
Qed.

Lemma py_sorted_ascending (l : list Q) : StronglySorted Qle (py_sorted Qleb l).
Proof.
  apply Sorted_StronglySorted.
  - intros a b c Hab Hbc. eapply Qle_trans; eassumption.
  - assert (H : Sorted (fun a b => Qleb a b = true) (py_sorted Qleb l)).
    { apply py_sorted_Sorted. intros a b. apply Qleb_total. }
    induction H as [|x r Hs IH Hhd]; constructor.
    + exact IH.
    + destruct Hhd as [|y r Hxy]; constructor. apply Qleb_true. exact Hxy.
Qed.

(** Grouping font sizes splits the distinct sizes into groups: every
    distinct size is in exactly one group; the key of a group is its first
    and smallest member, and every other member passes the test
    [abs(size - group_key) <= tolerance] against the key, as the doubles
    decide it; a later key fails that test against every earlier key. *)
Theorem group_similar_fonts_partition (font_sizes : list Q) (tolerance : Q) :
  let groups := FontAnalyzer.group_similar_fonts font_sizes tolerance in
  Permutation (concat (map snd groups)) (py_sorted Qleb (py_set font_sizes))
  /\ Forall (group_within tolerance) groups
  /\ ForallOrdPairs (keys_apart tolerance) (map fst groups).
Proof.
  cbv zeta. unfold FontAnalyzer.group_similar_fonts.
  destruct font_sizes as [|s0 sizes].
  - cbn. repeat split; constructor.
  - cbv zeta.
    apply (group_fold_inv tolerance (py_sorted Qleb (py_set (s0 :: sizes)))
             [] []).
    + constructor.
    + constructor.
    + constructor.
    + constructor.
    + apply py_sorted_ascending.
Qed.

(** * The OCR merge *)

Lemma join_sp_snoc (ws : list str) (w : str) :
  ws <> [] -> join_sp (ws ++ [w]) = join_sp ws ++ " "%char :: w.
Proof.
  induction ws as [|v ws IH]; intro Hne; [congruence|].
  destruct ws as [|v2 ws].
  - reflexivity.
  - change ((v :: v2 :: ws) ++ [w]) with (v :: (v2 :: ws) ++ [w]).
    rewrite join_sp_cons by (cbn [app]; discriminate).
    rewrite IH by discriminate.
    rewrite (join_sp_cons v (v2 :: ws)) by discriminate.
    rewrite <- app_assoc. reflexivity.
Qed.

Lemma block_of_single (b : Block) : block_of_group (b, []) = b.
Proof. destruct b as [t f s fl [l tp r bt]]. reflexivity. Qed.

Lemma merge_blocks_group (first : Block) (others : list Block) (next : Block) :
  OCRHandler.merge_blocks (block_of_group (first, others)) next
  = block_of_group (first, others ++ [next]).
Proof.
  unfold OCRHandler.merge_blocks, block_of_group.
  cbn [b_text b_font b_size b_flags b_bbox left top right bottom].
  f_equal.
  - change (b_text first :: map b_text (others ++ [next]))
      with (map b_text (first :: others ++ [next])).
    change (first :: others ++ [next]) with ((first :: others) ++ [next]).
    rewrite map_app. cbn [map].
    rewrite (join_sp_snoc (b_text first :: map b_text others)) by discriminate.
    reflexivity.
  - unfold py_max_list, py_max2. rewrite map_app, fold_left_app. reflexivity.
  - rewrite last_last. reflexivity.
Qed.

Lemma flat_map_members_snoc (gs : list (Block * list Block))
      (g : Block * list Block) :
  flat_map group_members (gs ++ [g])
  = flat_map group_members gs ++ group_members g.
Proof. rewrite flat_map_app. cbn [flat_map]. rewrite app_nil_r. reflexivity. Qed.

Lemma line_fold_groups (rest : list Block) :
  forall (gs : list (Block * list Block)) (g : Block * list Block),
  exists gs' g',
    fold_left OCRHandler.line_step rest (map block_of_group gs, block_of_group g)
    = (map block_of_group gs', block_of_group g')
    /\ flat_map group_members gs' ++ group_members g'
       = (flat_map group_members gs ++ group_members g) ++ rest.
Proof.
  induction rest as [|next rest IH]; intros gs g; cbn [fold_left].
  - exists gs, g. rewrite app_nil_r. split; reflexivity.
  - unfold OCRHandler.line_step at 2.
    destruct (OCRHandler.gap_is_small (block_of_group g) next).
    + destruct g as [first others]. rewrite merge_blocks_group.
      destruct (IH gs (first, others ++ [next])) as [gs' [g' [Hf Hm]]].
      exists gs', g'. split; [exact Hf|]. rewrite Hm.
      unfold group_members. cbn [fst snd].
      rewrite <- !app_assoc. cbn [app]. rewrite <- app_assoc. reflexivity.
    + change (map block_of_group gs ++ [block_of_group g])
        with (map block_of_group gs ++ map block_of_group [g]).
      rewrite <- map_app.
      destruct (IH (gs ++ [g]) (next, [])) as [gs' [g' [Hf Hm]]].
      rewrite block_of_single in Hf.
      exists gs', g'. split; [exact Hf|]. rewrite Hm.
      rewrite flat_map_members_snoc.
      unfold group_members at 3. cbn [fst snd].
      rewrite <- !app_assoc. reflexivity.
Qed.

Lemma py_sorted_short {A : Type} (leb : A -> A -> bool) (l : list A) :
  (length l <= 1)%nat -> py_sorted leb l = l.
Proof.
  destruct l as [|a [|b l]]; cbn [length]; intro H;
    [reflexivity | reflexivity | lia].
Qed.

Lemma merge_line_groups (line_blocks : list Block) :
  exists groups,
    flat_map group_members groups
    = py_sorted OCRHandler.left_leb line_blocks
    /\ OCRHandler._merge_line_blocks line_blocks = map block_of_group groups.
Proof.
  unfold OCRHandler._merge_line_blocks.
  destruct (length line_blocks <=? 1)%nat eqn:E.
  - apply Nat.leb_le in E. rewrite py_sorted_short by exact E.
    exists (map (fun b => (b, [])) line_blocks). split.
    + clear E. induction line_blocks as [|b l IH]; [reflexivity|].
      cbn [map flat_map]. rewrite IH. reflexivity.
    + rewrite map_map. clear E.
      induction line_blocks as [|b l IH]; [reflexivity|].
      cbn [map]. rewrite block_of_single, <- IH. reflexivity.
  - destruct (py_sorted OCRHandler.left_leb line_blocks) as [|first rest].
    + exists []. split; reflexivity.
    + destruct (line_fold_groups rest [] (first, [])) as [gs' [g' [Hf Hm]]].
      cbn [map] in Hf. rewrite block_of_single in Hf. rewrite Hf.
      exists (gs' ++ [g']). split.
      * rewrite flat_map_members_snoc, Hm. reflexivity.
      * rewrite map_app. reflexivity.
Qed.

Lemma groups_length (groups : list (Block * list Block)) :
  (length groups <= length (flat_map group_members groups))%nat.
Proof.
  induction groups as [|g groups IH]; [apply Nat.le_refl|].
  cbn [flat_map length]. rewrite length_app. unfold group_members at 1.
  cbn [length]. lia.
Qed.

(** Merging a line loses no block and keeps the order of the line: the
    result is the list of the merges of consecutive runs of the blocks
    sorted by their left edge, so it never has more blocks than the line.  The text of a merged block is the texts of
    its run joined by single blanks, its size the largest size of the run,
    and its box reaches from the left edge of the first block of the run to
    the right edge of the last. *)
Theorem merge_line_blocks_runs (line_blocks : list Block) :
  (exists groups,
      flat_map group_members groups
      = py_sorted OCRHandler.left_leb line_blocks
      /\ OCRHandler._merge_line_blocks line_blocks = map block_of_group groups)
  /\ (length (OCRHandler._merge_line_blocks line_blocks)
      <= length line_blocks)%nat.
Proof.
  destruct (merge_line_groups line_blocks) as [groups [Hm Hr]]. split.
  - exists groups. split; assumption.
  - rewrite Hr, length_map.
    rewrite (Permutation_length (py_sorted_perm OCRHandler.left_leb line_blocks)).
    rewrite <- Hm. apply groups_length.
Qed.

Lemma Sorted_snoc {A : Type} (R : A -> A -> Prop) (l : list A) (a b : A) :
  Sorted R (l ++ [a]) -> R a b -> Sorted R ((l ++ [a]) ++ [b]).
Proof.
  induction l as [|x l IH]; intros Hs Hab; cbn [app] in *.
  - repeat constructor. exact Hab.
  - inversion Hs as [|? ? Hs' Hhd]; subst.
    constructor; [apply IH; assumption|].
    destruct l; cbn [app] in *; inversion Hhd; constructor; assumption.
Qed.

Lemma Sorted_replace_last {A : Type} (R : A -> A -> Prop) (l : list A)
      (a a' : A) :
  (forall x, R x a -> R x a') ->
  Sorted R (l ++ [a]) -> Sorted R (l ++ [a']).
Proof.
  intro HR. induction l as [|x l IH]; intro Hs; cbn [app] in *.
  - repeat constructor.
  - inversion Hs as [|? ? Hs' Hhd]; subst.
    constructor; [apply IH; exact Hs'|].
    destruct l; cbn [app] in *; inversion Hhd; subst; constructor;
      [apply HR|]; assumption.
Qed.

Lemma line_fold_gaps (rest : list Block) :
  forall (merged : list Block) (current_block : Block),
    Sorted wide_gap (merged ++ [current_block]) ->
    Sorted wide_gap
      (fst (fold_left OCRHandler.line_step rest (merged, current_block))
       ++ [snd (fold_left OCRHandler.line_step rest (merged, current_block))]).
Proof.
  induction rest as [|next rest IH]; intros merged current_block Hs;
    cbn [fold_left].
  - exact Hs.
  - unfold OCRHandler.line_step at 2 4.
    destruct (OCRHandler.gap_is_small current_block next) eqn:E.
    + apply IH.
      eapply Sorted_replace_last; [|exact Hs].
      intros x Hx. unfold wide_gap in *.
      unfold OCRHandler.merge_blocks. cbn [b_bbox left]. exact Hx.
    + apply IH. apply Sorted_snoc; [exact Hs|].
      unfold wide_gap. unfold OCRHandler.gap_is_small in E.
      apply Qltb_false in E. exact E.
Qed.

(** The blocks that a line keeps apart are far apart: between two
    neighbours of the result the gap is at least twice the average
    character width of the left one. *)
Theorem merged_line_blocks_stay_apart (line_blocks : list Block) :
  Sorted wide_gap (OCRHandler._merge_line_blocks line_blocks).
Proof.
  unfold OCRHandler._merge_line_blocks.
  destruct (length line_blocks <=? 1)%nat eqn:E.
  { apply Nat.leb_le in E.
    destruct line_blocks as [|a [|b l]]; cbn [length] in E;
      [constructor | repeat constructor | lia]. }
  destruct (py_sorted OCRHandler.left_leb line_blocks) as [|first rest].
  - constructor.
  - pose proof (line_fold_gaps rest [] first) as H.
    destruct (fold_left OCRHandler.line_step rest ([], first))
      as [merged current_block].
    apply H. repeat constructor.
Qed.

Lemma flush_line_groups (gs : list (Block * list Block))
      (current_line : list Block) :
  exists gs',
    OCRHandler.flush_line (map block_of_group gs) current_line
    = map block_of_group gs'
    /\ Permutation (flat_map group_members gs')
         (flat_map group_members gs ++ current_line).
Proof.
  unfold OCRHandler.flush_line. destruct current_line as [|b l].
  - exists gs. split; [reflexivity|]. rewrite app_nil_r. apply Permutation_refl.
  - destruct (merge_line_groups (b :: l)) as [gl [Hm Hr]].
    exists (gs ++ gl). split.
    + rewrite Hr, map_app. reflexivity.
    + rewrite flat_map_app. apply Permutation_app_head. rewrite Hm.
      apply Permutation_sym, py_sorted_perm.
Qed.

Lemma nearby_fold_groups (blocks : list Block) :
  forall (gs : list (Block * list Block)) (current_line : list Block)
         (current_y : option Q),
  exists gs' line' y',
    fold_left OCRHandler.nearby_step blocks
      (map block_of_group gs, current_line, current_y)
    = (map block_of_group gs', line', y')
    /\ Permutation (flat_map group_members gs' ++ line')
         ((flat_map group_members gs ++ current_line) ++ blocks).
Proof.
  induction blocks as [|block blocks IH]; intros gs current_line current_y;
    cbn [fold_left].
  - exists gs, current_line, current_y. split; [reflexivity|].
    rewrite app_nil_r. apply Permutation_refl.
  - unfold OCRHandler.nearby_step at 2.
    destruct (OCRHandler.on_current_line current_y (top (b_bbox block))).
    + destruct (IH gs (current_line ++ [block])
                  (Some match current_y with
                        | None => top (b_bbox block)
                        | Some y => y
                        end)) as [gs' [l' [y' [Hf Hp]]]].
      exists gs', l', y'. split; [exact Hf|].
      eapply perm_trans; [exact Hp|].
      rewrite <- !app_assoc. apply Permutation_refl.
    + destruct (flush_line_groups gs current_line) as [gs1 [Hfl Hp1]].
      rewrite Hfl.
      destruct (IH gs1 [block] (Some (top (b_bbox block))))
        as [gs' [l' [y' [Hf Hp]]]].
      exists gs', l', y'. split; [exact Hf|].
      eapply perm_trans; [exact Hp|].
      rewrite <- !app_assoc. cbn [app].
      apply Permutation_app_tail with (tl := block :: blocks) in Hp1.
      rewrite <- app_assoc in Hp1. exact Hp1.
Qed.

Lemma merge_nearby_groups (text_blocks : list Block) :
  exists groups,
    Permutation (flat_map group_members groups) text_blocks
    /\ OCRHandler._merge_nearby_blocks text_blocks = map block_of_group groups.
Proof.
  unfold OCRHandler._merge_nearby_blocks.
  destruct text_blocks as [|b0 l].
  - exists []. split; [apply perm_nil | reflexivity].
  - cbv zeta.
    destruct (nearby_fold_groups (py_sorted OCRHandler.line_leb (b0 :: l))
                [] [] None) as [gs' [l' [y' [Hf Hp]]]].
    cbn [map] in Hf. rewrite Hf.
    destruct (flush_line_groups gs' l') as [gs2 [Hfl Hp2]].
    exists gs2. split; [|exact Hfl].
    eapply perm_trans; [exact Hp2|].
    eapply perm_trans; [exact Hp|]. cbn [flat_map app].
    apply Permutation_sym, py_sorted_perm.
Qed.

(** Merging the blocks of an OCR page loses and repeats nothing: the input
    blocks fall into groups, each block in exactly one, and the result has
    one block for each group, with the texts of the group joined by single
    blanks, the largest size of the group, and the font and flags of its
    first block.  The page never has more blocks after the merge. *)
Theorem merge_nearby_blocks_partition (text_blocks : list Block) :
  (exists groups,
      Permutation (flat_map group_members groups) text_blocks
      /\ OCRHandler._merge_nearby_blocks text_blocks
         = map block_of_group groups)
  /\ (length (OCRHandler._merge_nearby_blocks text_blocks)
      <= length text_blocks)%nat.
Proof.
  destruct (merge_nearby_groups text_blocks) as [groups [Hp Hr]]. split.
  - exists groups. split; assumption.
  - rewrite Hr, length_map, <- (Permutation_length Hp). apply groups_length.
Qed.

Lemma ocr_text_blocks_In (threshold : Z) (ocr_data : list OCRHandler.OcrRow)
      (b : Block) :
  In b (OCRHandler.ocr_text_blocks threshold ocr_data) ->
  exists row,
    In row ocr_data /\ b = OCRHandler.ocr_block row
    /\ threshold <= OCRHandler.o_conf row
    /\ strip (OCRHandler.o_text row) <> [].
Proof.
  unfold OCRHandler.ocr_text_blocks. intro H. apply in_flat_map in H.
  destruct H as [row [Hrow Hb]]. cbv zeta in Hb.
  destruct (OCRHandler.o_conf row <? threshold) eqn:Ec; [destruct Hb|].
  destruct (strip (OCRHandler.o_text row)) as [|c t] eqn:Et; [destruct Hb|].
  cbn [orb] in Hb. destruct Hb as [<-|[]].
  exists row. split; [exact Hrow|]. split; [reflexivity|].
  split; [apply Z.ltb_ge; exact Ec|]. rewrite Et. discriminate.
Qed.

Lemma join_sp_nonempty (w : str) (ws : list str) :
  w <> [] -> join_sp (w :: ws) <> [].
Proof.
  intro Hw. destruct ws as [|w2 ws]; [exact Hw|].
  rewrite join_sp_cons by discriminate.
  destruct w; [congruence | discriminate].
Qed.

Lemma ocr_page_block_origin (threshold page_number : Z)
      (ocr_data : list OCRHandler.OcrRow) (b : Block) :
  In b (text_blocks (OCRHandler._ocr_image threshold page_number ocr_data)) ->
  exists first others,
    b = block_of_group (first, others)
    /\ forall x, In x (first :: others) ->
                 In x (OCRHandler.ocr_text_blocks threshold ocr_data).
Proof.
  unfold OCRHandler._ocr_image. cbn [text_blocks]. intro H.
  destruct (merge_nearby_groups (OCRHandler.ocr_text_blocks threshold ocr_data))
    as [groups [Hperm Hres]].
  rewrite Hres in H. apply in_map_iff in H.
  destruct H as [[first others] [Hb Hg]].
  exists first, others. split; [symmetry; exact Hb|].
  intros x Hx. eapply Permutation_in; [exact Hperm|].
  apply in_flat_map. exists (first, others). split; [exact Hg | exact Hx].
Qed.

Lemma ocr_page_block_facts (threshold page_number : Z)
      (ocr_data : list OCRHandler.OcrRow) (b : Block) :
  In b (text_blocks (OCRHandler._ocr_image threshold page_number ocr_data)) ->
  b_text b <> [] /\ (8 <= b_size b)%Q
  /\ b_font b = lit "ocr-detected" /\ b_flags b = 0.
Proof.
  intro Hb.
  destruct (ocr_page_block_origin _ _ _ _ Hb) as [first [others [-> Hmem]]].
  destruct (ocr_text_blocks_In _ _ _ (Hmem first (or_introl eq_refl)))
    as [row [_ [Hfirst [_ Htext]]]].
  unfold block_of_group. cbn [b_text b_size b_font b_flags].
  split; [|split; [|split]].
  - cbn [map]. apply join_sp_nonempty. rewrite Hfirst. exact Htext.
  - destruct (py_max_list_spec (map b_size others) (b_size first)) as [_ Hmax].
    eapply Qle_trans; [|apply Hmax; left; reflexivity].
    rewrite Hfirst. unfold OCRHandler.ocr_block. cbn [b_size].
    apply py_max2_bounds.
  - rewrite Hfirst. reflexivity.
  - rewrite Hfirst. reflexivity.
Qed.

(** Every text block of an OCR page has a text that is not empty, a font
    size of at least 8, the font name "ocr-detected" and no style flag. *)
Theorem ocr_page_blocks_wellformed (threshold page_number : Z)
    (ocr_data : list OCRHandler.OcrRow) :
  Forall
    (fun b => b_text b <> [] /\ (8 <= b_size b)%Q
              /\ b_font b = lit "ocr-detected" /\ b_flags b = 0)
    (text_blocks (OCRHandler._ocr_image threshold page_number ocr_data)).
Proof.
  apply Forall_forall. intros b Hb. eapply ocr_page_block_facts. exact Hb.
Qed.

(** In a scanned document no heading is H1 by its size: an entry of level
    H1 on OCR pages always begins with a section marker ("Chapter",
    "Section", "Part", "Appendix"). *)
Theorem scanned_pages_H1_only_by_marker (cfg : Config) (threshold : Z)
    (scans : list (Z * list OCRHandler.OcrRow)) (h : Heading) :
  In h (detect_headings cfg
          (map (fun scan => OCRHandler._ocr_image threshold (fst scan) (snd scan))
               scans)) ->
  h_level h = H1 ->
  pattern_in section_marker (_check_text_patterns (h_text h)) = true.
Proof.
  intros Hin Hlevel.
  destruct (outline_entry_origin cfg _ h Hin)
    as [page [block [c [Hpg [Hb [Hc [Ht [_ [_ Hdet]]]]]]]]].
  destruct (heading_candidate_features _ _ _ _ Hc)
    as [Hct [_ [_ [_ [Hbold [_ [Hpats Hnone]]]]]]].
  apply in_map_iff in Hpg. destruct Hpg as [[pn rows] [<- _]].
  cbn [fst snd] in Hb.
  destruct (ocr_page_block_facts threshold pn rows block Hb)
    as [_ [_ [_ Hflags]]].
  rewrite Hflags in Hbold. change (negb (Z.land 0 16 =? 0)) with false in Hbold.
  rewrite (determine_level_without_text _ _ _ _ _ _ Hnone) in Hdet.
  rewrite Hlevel, Hpats, Hbold in Hdet.
  rewrite Ht, Hct.
  destruct (pattern_in sub_numbered _); [discriminate|].
  destruct (pattern_in sub_sub_numbered _); [discriminate|].
  destruct (pattern_in section_marker _); [reflexivity|].
  exfalso.
  repeat match type of Hdet with
         | (if ?b then _ else _) = _ => destruct b
         end; discriminate.
Qed.

Lemma scanned_pages_H1_only_by_marker_witness :
  pattern_in section_marker (_check_text_patterns (lit "Chapter One")) = true.
Proof.
  assert (Hin : In {| h_level := H1; h_text := lit "Chapter One";
                      h_page := 1; h_position := 100 # 1 |}
                  (detect_headings default_config
                     (map (fun scan =>
                             OCRHandler._ocr_image 30 (fst scan) (snd scan))
                          [(1, scanned_chapter_rows)]))).
  { vm_compute. left. reflexivity. }
  exact (scanned_pages_H1_only_by_marker default_config 30
           [(1, scanned_chapter_rows)] _ Hin eq_refl).
Defined.

(** * The pdfplumber fallback *)

Lemma strip_nil_text (t : str) : strip t <> [] -> t <> [].
Proof. intros H E. subst t. apply H. reflexivity. Qed.

Lemma is_visible_text (char : Fallback.Char) :
  Fallback.is_visible char = true -> Fallback.ch_text char <> [].
Proof.
  unfold Fallback.is_visible. intro H. apply strip_nil_text.
  destruct (strip (Fallback.ch_text char)); [discriminate H | discriminate].
Qed.

Lemma char_fold_text (chars : list Fallback.Char) :
  forall (text_blocks : list Block) (current_block : option Block),
    let text_of (state : list Block * option Block) :=
      concat (map b_text (fst state))
      ++ match snd state with Some b => b_text b | None => [] end in
    text_of (fold_left Fallback.char_step chars (text_blocks, current_block))
    = text_of (text_blocks, current_block)
      ++ concat (map Fallback.ch_text (filter Fallback.is_visible chars)).
Proof.
  cbv zeta.
  induction chars as [|char chars IH]; intros text_blocks current_block;
    cbn [fold_left filter].
  - cbn [map concat]. rewrite app_nil_r. reflexivity.
  - unfold Fallback.char_step at 2 4.
    destruct (Fallback.is_visible char).
    + cbn [map concat].
      destruct current_block as [block|].
      * destruct (Fallback.breaks_block block char); rewrite IH; cbn [fst snd].
        -- rewrite map_app, concat_app. cbn [map concat Fallback.new_block b_text].
           rewrite app_nil_r, <- !app_assoc. reflexivity.
        -- cbn [Fallback.extend_block b_text]. rewrite <- !app_assoc.
           reflexivity.
      * rewrite IH. cbn [fst snd Fallback.new_block b_text].
        rewrite <- !app_assoc. reflexivity.
    + apply IH.
Qed.

Lemma char_fold_blocks (P : Block -> Prop) (chars : list Fallback.Char) :
  (forall char, Fallback.is_visible char = true -> P (Fallback.new_block char)) ->
  (forall block char, P block -> P (Fallback.extend_block block char)) ->
  forall (text_blocks : list Block) (current_block : option Block),
    Forall P text_blocks ->
    (forall b, current_block = Some b -> P b) ->
    Forall P (fst (fold_left Fallback.char_step chars
                     (text_blocks, current_block)))
    /\ (forall b,
          snd (fold_left Fallback.char_step chars (text_blocks, current_block))
          = Some b -> P b).
Proof.
  intros Hnew Hext.
  induction chars as [|char chars IH]; intros text_blocks current_block Htb Hcur;
    cbn [fold_left].
  - split; assumption.
  - unfold Fallback.char_step at 2 4.
    destruct (Fallback.is_visible char) eqn:Ev; [|apply IH; assumption].
    destruct current_block as [block|].
    + destruct (Fallback.breaks_block block char); apply IH.
      * apply Forall_app. split; [exact Htb|].
        constructor; [apply Hcur; reflexivity | constructor].
      * intros b [= <-]. apply Hnew. exact Ev.
      * exact Htb.
      * intros b [= <-]. apply Hext. apply Hcur. reflexivity.
    + apply IH; [exact Htb|]. intros b [= <-]. apply Hnew. exact Ev.
Qed.

(** The blocks that the fallback builds from the characters of a page keep
    every visible character, in order, and nothing else: blank characters
    are dropped, so the text of a block has no blank between its words.  No
    block has an empty text or a style flag. *)
Theorem fallback_blocks_keep_visible_characters (chars : list Fallback.Char) :
  concat (map b_text (Fallback.page_text_blocks chars))
  = concat (map Fallback.ch_text (filter Fallback.is_visible chars))
  /\ Forall (fun b => b_text b <> [] /\ b_flags b = 0)
       (Fallback.page_text_blocks chars).
Proof.
  unfold Fallback.page_text_blocks.
  pose proof (char_fold_text chars [] None) as Ht. cbv zeta in Ht.
  pose proof (char_fold_blocks (fun b => b_text b <> [] /\ b_flags b = 0) chars)
    as Hb.
  destruct (Hb) with (text_blocks := @nil Block) (current_block := @None Block)
    as [Hf Hc].
  { intros char Hv. split; [apply is_visible_text; exact Hv | reflexivity]. }
  { intros block char [Hne Hfl]. cbn [Fallback.extend_block b_text b_flags].
    split; [|exact Hfl]. destruct (b_text block); [congruence | discriminate]. }
  { constructor. }
  { intros b [=]. }
  destruct (fold_left Fallback.char_step chars ([], None))
    as [text_blocks current_block].
  cbn [fst snd] in *. cbn [map concat app] in Ht.
  destruct current_block as [block|].
  - split.
    + rewrite map_app, concat_app. cbn [map concat]. rewrite app_nil_r.
      exact Ht.
    + apply Forall_app. split; [exact Hf|].
      constructor; [apply Hc; reflexivity | constructor].
  - rewrite app_nil_r in Ht. split; assumption.
Qed.
